(** * IntakeFlow: the legal-intake wizard and its two renderings

    A shallow embedding of [IntakeFlow] (frontend/src/pages, the component
    whose header reads "12 Question Legal Case Intake"): the question
    catalog, the React state of the wizard with its deferred callbacks and
    its submission, and the classification rules used by the results view
    and by the printable report.

    Conventions.
    - A JS string is a [string]; its characters are 8-bit code units (the
      Latin-1 range of the UTF-16 code units of the source).
    - The [answers] object is the list of its properties, in insertion
      order, which is the order in which [JSON.stringify] writes them
      into the request body.
    - A handler is the list of effects it performs, in program order; the
      effects are applied to a [world] that holds the React state together
      with the timers and requests that are pending.

    The module [LoginPage] embeds the login page, with its phone number
    and its one-time code, in the same way. *)

From Stdlib Require Import ZArith Ascii String Lia.
From stdpp Require Import base option list strings.

Local Open Scope Z_scope.

(** ** JS string primitives used by the component *)

(** [\d] without the unicode flag: the ten ASCII digits. *)
Definition isDigit (c : ascii) : bool :=
  let n := nat_of_ascii c in (48 <=? n)%nat && (n <=? 57)%nat.

(** [\d+] is greedy: the longest run of digits at the head of [s], and what
    follows it. *)
Fixpoint takeDigits (s : string) : string * string :=
  match s with
  | String c s' =>
      if isDigit c
      then let (ds, rest) := takeDigits s' in (String c ds, rest)
      else (EmptyString, s)
  | EmptyString => (EmptyString, EmptyString)
  end.

(** What is left of [s] after the literal [p], when [s] starts with [p]. *)
Fixpoint stripPrefix (p s : string) : option string :=
  match p, s with
  | EmptyString, _ => Some s
  | String a p', String b s' => if Ascii.eqb a b then stripPrefix p' s' else None
  | String _ _, EmptyString => None
  end.

(** [/Level (\d+)/] tried at the first position of [s]; the result is
    capture group 1. *)
Definition matchLevelHere (s : string) : option string :=
  match stripPrefix "Level " s with
  | Some rest =>
      match takeDigits rest with
      | (EmptyString, _) => None
      | (ds, _) => Some ds
      end
  | None => None
  end.

(** [s.match(/Level (\d+)/)]: a non-global match returns the leftmost
    position at which the pattern matches. [None] is JS [null]. *)
Fixpoint matchLevel (s : string) : option string :=
  match matchLevelHere s with
  | Some ds => Some ds
  | None =>
      match s with
      | String _ s' => matchLevel s'
      | EmptyString => None
      end
  end.

Definition digitValue (c : ascii) : Z := Z.of_nat (nat_of_ascii c) - 48.

Fixpoint parseIntFrom (acc : Z) (ds : string) : Z :=
  match ds with
  | String c ds' => parseIntFrom (10 * acc + digitValue c) ds'
  | EmptyString => acc
  end.

(** [parseInt] on a capture of [\d+]: the argument is a non-empty run of
    decimal digits (lemma [matchLevel_digits]), so no sign, blank, radix
    prefix or NaN case arises. The result is an integer-valued Number;
    it is kept exact here, which agrees with the double on every
    comparison against 6 and 8 because rounding to a double is monotone
    and fixes small integers. *)
Definition parseInt (ds : string) : Z := parseIntFrom 0 ds.

(** [String.prototype.toLowerCase] on one 8-bit code unit: A-Z, and the
    Latin-1 capitals (all of 0xC0-0xDE but the multiplication sign). *)
Definition toLowerChar (c : ascii) : ascii :=
  let n := nat_of_ascii c in
  if (65 <=? n)%nat && (n <=? 90)%nat then ascii_of_nat (n + 32)
  else if (192 <=? n)%nat && (n <=? 222)%nat && negb (n =? 215)%nat
       then ascii_of_nat (n + 32)
       else c.

Fixpoint toLowerCase (s : string) : string :=
  match s with
  | String c s' => String (toLowerChar c) (toLowerCase s')
  | EmptyString => EmptyString
  end.

(** [s.includes(pat)] *)
Fixpoint includes (s pat : string) : bool :=
  match stripPrefix pat s with
  | Some _ => true
  | None =>
      match s with
      | String _ s' => includes s' pat
      | EmptyString => false
      end
  end.

(** ** The analysis result, as the component reads it *)

Record CaseAnalysis := {
  summary : string;
  severity_tier : option string;   (* read with [?.]: may be absent *)
  legal_category : string;
  limitation_status : string;
  risk_warning : option string
}.

Record PortalLink := { link_name : string; link_url : string; link_purpose : string }.

Record PoliceAction := { police_step : string; legal_code : string }.

Record ActionableResources := {
  official_portal_links : list PortalLink;
  police_action : option PoliceAction
}.

Record ChecklistDoc := { document : string; source : string; urgency : string }.

Record RecommendedService := {
  product_name : string; price_point : string; cta_text : string
}.

Record AnalysisResult := {
  case_analysis : CaseAnalysis;
  actionable_resources : ActionableResources;
  smart_document_checklist : list ChecklistDoc;
  immediate_next_steps : list string;
  recommended_service : RecommendedService
}.

(** [severityMatch] and [severityLevel], computed once at the head of the
    results branch from [case_analysis.severity_tier] and used by the
    results markup and by the report template alike. *)
Definition severityMatch (tier : option string) : option string :=
  match tier with
  | Some s => matchLevel s
  | None => None
  end.

Definition severityLevel (tier : option string) : Z :=
  match severityMatch tier with
  | Some ds => parseInt ds
  | None => 5
  end.

(** *** Results view *)

(** The word spliced after [severity-] in the badge's className. *)
Definition resultsSeverityCategory (lvl : Z) : string :=
  if 8 <=? lvl then "critical" else if 6 <=? lvl then "high" else "moderate".

Definition resultsSeverityBadgeClass (r : AnalysisResult) : string :=
  "severity-badge severity-" +:+ resultsSeverityCategory (severityLevel (severity_tier (case_analysis r))).

(** The word spliced after [urgency-] in a checklist row's className. *)
Definition resultsUrgencyCategory (u : string) : string :=
  if includes (toLowerCase u) "high" then "high"
  else if includes (toLowerCase u) "immediate" then "immediate"
  else "medium".

Definition resultsUrgencyClass (doc : ChecklistDoc) : string :=
  "doc-urgency urgency-" +:+ resultsUrgencyCategory (urgency doc).

Definition resultsChecklist (r : AnalysisResult) : list string :=
  map resultsUrgencyClass (smart_document_checklist r).

(** *** Printable report *)

Definition reportSeverityClass (lvl : Z) : string :=
  if 8 <=? lvl then "severity-critical"
  else if 6 <=? lvl then "severity-high"
  else "severity-moderate".

Definition reportSeverityBadgeClass (r : AnalysisResult) : string :=
  "severity-badge " +:+ reportSeverityClass (severityLevel (severity_tier (case_analysis r))).

(** The word spliced after [doc-urgency ] in a checklist row of the
    report: [high], or nothing. *)
Definition reportUrgencyCategory (u : string) : string :=
  if includes (toLowerCase u) "high" then "high" else "".

Definition reportUrgencyClass (doc : ChecklistDoc) : string :=
  "doc-urgency " +:+ reportUrgencyCategory (urgency doc).

Definition reportChecklist (r : AnalysisResult) : list string :=
  map reportUrgencyClass (smart_document_checklist r).

(** ** The question catalog *)

Inductive QuestionType := select | multiselect.

Record Question := {
  id : string;
  part : nat;
  title : string;
  subtitle : string;
  type : QuestionType;
  options : list string
}.

Definition QUESTIONS : list Question := [
  {| id := "location"; part := 1;
     title := "Location of the Property";
     subtitle := "Land laws differ by state";
     type := select;
     options := [
       "Maharashtra"; "Karnataka"; "Tamil Nadu"; "Kerala"; "Andhra Pradesh";
       "Telangana"; "Gujarat"; "Rajasthan"; "Uttar Pradesh"; "Madhya Pradesh";
       "Delhi"; "Punjab"; "Haryana"; "West Bengal"; "Bihar"; "Other" ] |};
  {| id := "property_type"; part := 1;
     title := "Type of Property";
     subtitle := "Determines which court has jurisdiction";
     type := select;
     options := [
       "Agricultural Land";
       "Residential Plot/House";
       "Apartment/Flat";
       "Commercial Property" ] |};
  {| id := "possession_status"; part := 1;
     title := "Current Status of the Property";
     subtitle := "Possession is 9/10ths of the law";
     type := select;
     options := [
       "I am in possession";
       "The other party is in possession";
       "It is a vacant lot/open land";
       "We share possession" ] |};
  {| id := "opponent_type"; part := 2;
     title := "Who is the dispute with?";
     subtitle := "Determines the type of legal action needed";
     type := select;
     options := [
       "Family Member/Relative";
       "Neighbor";
       "Builder/Developer";
       "Tenant";
       "Government/Authority";
       "Stranger/Land Grabber" ] |};
  {| id := "core_issue"; part := 2;
     title := "What is the core issue?";
     subtitle := "Select the closest match";
     type := select;
     options := [
       "They are blocking my access/pathway";
       "They have illegally occupied/built on my land";
       "They created fake documents/sold my land";
       "Family members are refusing to give my share";
       "Tenant is refusing to vacate or pay rent";
       "Government is acquiring land/refusing mutation" ] |};
  {| id := "ancestral_status"; part := 2;
     title := "Is the property Ancestral or Self-Acquired?";
     subtitle := "Crucial for family disputes";
     type := select;
     options := [
       "Ancestral (Grandparents' property)";
       "Self-Acquired (Bought by me/parents)";
       "Don't Know" ] |};
  {| id := "revenue_records_name"; part := 3;
     title := "Whose name is on the Revenue Records?";
     subtitle := "7/12 Extract, Khata, Patta, Jamabandi";
     type := select;
     options := [
       "My name";
       "Late parent/relative's name";
       "Opponent's name";
       "Joint names";
       "Don't know" ] |};
  {| id := "documents_held"; part := 3;
     title := "Which documents do you have?";
     subtitle := "Select all that apply";
     type := multiselect;
     options := [
       "Registered Sale Deed";
       "Will";
       "Gift Deed";
       "Agreement to Sale (Notary)";
       "Power of Attorney";
       "Recent Tax Receipt";
       "7/12 Extract / Khata";
       "None" ] |};
  {| id := "police_court_status"; part := 4;
     title := "Has any legal action been taken?";
     subtitle := "Police complaint or court case";
     type := select;
     options := [
       "No legal action yet";
       "Police Complaint filed";
       "Court Case pending (Summons received)";
       "Court Decree passed (Need execution)" ] |};
  {| id := "immediate_threat"; part := 4;
     title := "Is there an immediate threat?";
     subtitle := "Determines urgency of action";
     type := select;
     options := [
       "No immediate threat";
       "Construction is starting on the land now";
       "They are threatening physical violence/dispossession";
       "They are trying to sell the land to a third party" ] |};
  {| id := "dispute_start_date"; part := 4;
     title := "When did the dispute start?";
     subtitle := "Important for Limitation Act";
     type := select;
     options := [
       "Less than 3 years ago";
       "3-12 years ago";
       "More than 12 years ago" ] |};
  {| id := "desired_outcome"; part := 4;
     title := "What is your desired outcome?";
     subtitle := "Helps determine best approach";
     type := select;
     options := [
       "I want to sell and exit";
       "I want to keep the land and use it";
       "I just want monetary compensation";
       "I want to stop them from bothering me" ] |}
]%nat.

Definition PART_LABELS (p : nat) : option string :=
  match p with
  | 1 => Some "Property Details"
  | 2 => Some "Dispute Details"
  | 3 => Some "Documentation"
  | 4 => Some "Urgency & Status"
  | _ => None
  end%nat.

(** ** The component's state *)

(** A value of the [answers] object: a string for a single-select
    question, an array of strings for a multi-select one. *)
Inductive answer :=
| AString (s : string)
| AArray (l : list string).

(** The [answers] object: its properties, in insertion order. The list is
    the object for keys such as the ids of the catalog, which are neither
    integer-like nor inherited names (see [plainKey] and
    [catalog_keys_plain]). *)
Definition AnswerMap := list (string * answer).

(** [m[k]] *)
Fixpoint lookupAnswer (k : string) (m : AnswerMap) : option answer :=
  match m with
  | [] => None
  | (k', a) :: m' => if decide (k = k') then Some a else lookupAnswer k m'
  end.

(** [{ ...m, [k]: a }]: a property that exists keeps its place and takes
    the new value; a new property goes last. *)
Fixpoint insertAnswer (k : string) (a : answer) (m : AnswerMap) : AnswerMap :=
  match m with
  | [] => [ (k, a) ]
  | (k', a') :: m' =>
      if decide (k = k') then (k', a) :: m' else (k', a') :: insertAnswer k a m'
  end.

#[global] Instance answerMap_lookup : Lookup string answer AnswerMap := lookupAnswer.
#[global] Instance answerMap_insert : Insert string answer AnswerMap := insertAnswer.
#[global] Instance answerMap_empty : Empty AnswerMap := [].

(** The five [useState] cells of [IntakeFlow]. *)
Record State := {
  currentQuestion : nat;
  answers : AnswerMap;
  isAnalyzing : bool;
  analysisResult : option AnalysisResult;
  error : option string
}.

Definition initialState : State := {|
  currentQuestion := 0;
  answers := ∅;
  isAnalyzing := false;
  analysisResult := None;
  error := None
|}.

(** The arrow function handed to [setTimeout] by [handleSelect]. Its free
    variables are bound in the render in which the option was clicked; the
    closure keeps those values whatever the state becomes later. *)
Record Closure := {
  cap_currentQuestion : nat;
  cap_answers : AnswerMap;
  cap_id : string;
  cap_value : string
}.

(** The request of [fetch]: a POST of [JSON.stringify] of an answers
    object. The path is relative to the deployment's [VITE_API_URL]. *)
Record Request := {
  req_path : string;
  req_method : string;
  req_content_type : string;
  req_body : AnswerMap
}.

Definition analyzeRequest (body : AnswerMap) : Request := {|
  req_path := "/api/v1/case/analyze";
  req_method := "POST";
  req_content_type := "application/json";
  req_body := body
|}.

(** The two async functions that issue the request; a pending request
    remembers whose continuation waits for it. *)
Inductive Submitter := bySubmitCase | bySubmitCaseWithAnswer.

(** What a handler does, one effect per statement. *)
Inductive Effect :=
| setCurrentQuestion (n : nat)
| setAnswers (m : AnswerMap)
| setIsAnalyzing (b : bool)
| setAnalysisResult (r : option AnalysisResult)
| setError (e : option string)
| setTimeout (cb : Closure) (delay : nat)
| fetch (who : Submitter) (req : Request)
| console_error (label cause : string)
| navigate (path : string).

(** How [await fetch(...)] and then [await response.json()] end. A parsed
    body has the shape that the results view reads; a body that is not
    JSON makes [response.json()] reject. (For a body that parses to a
    falsy value see [settleFalsy].) *)
Inductive JsonBody :=
| Parsed (result : AnalysisResult)
| Unparsable (cause : string).

Inductive FetchOutcome :=
| Rejected (cause : string)
| Responded (status : nat) (body : JsonBody).

(** [response.ok] *)
Definition ok (status : nat) : bool := (200 <=? status)%nat && (status <=? 299)%nat.

(** *** Handlers *)

(** The single-character strings produced by spreading a string. *)
Fixpoint spreadString (s : string) : list string :=
  match s with
  | String c s' => String c EmptyString :: spreadString s'
  | EmptyString => []
  end.

Definition string_eqb (a b : string) : bool := bool_decide (a = b).

(** [current.includes(value)] on an array *)
Definition arrayIncludes (l : list string) (value : string) : bool :=
  existsb (string_eqb value) l.

(** [current.filter(v => v !== value)] *)
Definition arrayWithout (l : list string) (value : string) : list string :=
  List.filter (fun v => negb (string_eqb v value)) l.

(** The prologue of [submitCaseWithAnswer], up to its first [await]. *)
Definition submitCaseWithAnswer (finalAnswers : AnswerMap) : list Effect :=
  [ setIsAnalyzing true;
    setError None;
    fetch bySubmitCaseWithAnswer (analyzeRequest finalAnswers) ].

(** The rest of [submitCaseWithAnswer]: the [try] body after the request
    has settled, and the [catch] block. *)
Definition submitCaseWithAnswer_resume (o : FetchOutcome) : list Effect :=
  let catch (err : string) :=
    [ console_error "Analysis error:" err;
      setError (Some "Failed to analyze case. Please try again.");
      setIsAnalyzing false ] in
  match o with
  | Rejected cause => catch cause
  | Responded status body =>
      if negb (ok status) then catch "Error: Analysis failed"
      else match body with
           | Parsed result => [ setAnalysisResult (Some result) ]
           | Unparsable cause => catch cause
           end
  end.

(** The prologue of [submitCase]; it posts the [answers] of the render in
    which it was called. *)
Definition submitCase (st : State) : list Effect :=
  [ setIsAnalyzing true;
    setError None;
    fetch bySubmitCase (analyzeRequest (answers st)) ].

Definition submitCase_resume (o : FetchOutcome) : list Effect :=
  let catch (err : string) :=
    [ console_error "Analysis error:" err;
      setError (Some "Failed to analyze case. Please try again.");
      setIsAnalyzing false ] in
  match o with
  | Rejected cause => catch cause
  | Responded status body =>
      if negb (ok status) then catch "Error: Analysis failed"
      else match body with
           | Parsed result => [ setAnalysisResult (Some result) ]
           | Unparsable cause => catch cause
           end
  end.

(** [handleSelect], in the render with state [st] and current question
    [question].

    [answers[question.id] || []] is the stored array, or [[]] when the key
    is absent. (A string stored under a multi-select id cannot occur, see
    [reachable_well_typed]; for completeness: an empty string is falsy and
    reads as [[]], a non-empty one is searched as a string, and then
    either [filter] is missing, a TypeError that ends the handler, or
    the string is spread.) *)
Definition handleSelect (st : State) (question : Question) (value : string)
  : list Effect :=
  match type question with
  | multiselect =>
      match answers st !! id question with
      | Some (AArray current) =>
          if arrayIncludes current value
          then [ setAnswers (<[id question := AArray (arrayWithout current value)]> (answers st)) ]
          else [ setAnswers (<[id question := AArray (current ++ [value])]> (answers st)) ]
      | None | Some (AString EmptyString) =>
          [ setAnswers (<[id question := AArray [value]]> (answers st)) ]
      | Some (AString current) =>
          if includes current value
          then []
          else [ setAnswers (<[id question := AArray (spreadString current ++ [value])]> (answers st)) ]
      end
  | select =>
      [ setAnswers (<[id question := AString value]> (answers st));
        setTimeout {| cap_currentQuestion := currentQuestion st;
                      cap_answers := answers st;
                      cap_id := id question;
                      cap_value := value |} 100 ]
  end.

(** The body of the deferred arrow function. *)
Definition autoAdvance (cb : Closure) : list Effect :=
  if (cap_currentQuestion cb <? length QUESTIONS - 1)%nat
  then [ setCurrentQuestion (cap_currentQuestion cb + 1) ]
  else submitCaseWithAnswer (<[cap_id cb := AString (cap_value cb)]> (cap_answers cb)).

(** [canProceed]: [length > 0] of the array (or string) for a multi-select
    question, truthiness of the stored value otherwise. *)
Definition canProceed (st : State) (question : Question) : bool :=
  match type question with
  | multiselect =>
      match answers st !! id question with
      | Some (AArray l) => negb (length l =? 0)%nat
      | Some (AString s) => negb (String.length s =? 0)%nat
      | None => false
      end
  | select =>
      match answers st !! id question with
      | Some (AString s) => negb (String.length s =? 0)%nat
      | Some (AArray _) => true
      | None => false
      end
  end.

Definition handleNext (st : State) : list Effect :=
  if (currentQuestion st <? length QUESTIONS - 1)%nat
  then [ setCurrentQuestion (currentQuestion st + 1) ]
  else submitCase st.

Definition handleBack (st : State) : list Effect :=
  if (0 <? currentQuestion st)%nat
  then [ setCurrentQuestion (currentQuestion st - 1) ]
  else [ navigate "/home" ].

(** The [onClick] of the "Start New Case" button. *)
Definition startNewCase : list Effect :=
  [ setAnalysisResult None; setCurrentQuestion 0; setAnswers ∅ ].

(** The [onClick] of the "Return Home" button. *)
Definition returnHome : list Effect := [ navigate "/home" ].

(** ** The component in its environment *)

(** A timer created by [setTimeout]: one-shot, never cleared (the
    component has no [clearTimeout]). Its number is its position in
    [timers]. *)
Record Timer := {
  due : nat;
  callback : Closure;
  fired : bool
}.

(** A request created by [fetch]. Its number is its position in
    [fetches]. *)
Record Pending := {
  request : Request;
  issuedBy : Submitter;
  settled : bool
}.

Record World := {
  state : State;
  clock : nat;                       (* milliseconds *)
  timers : list Timer;
  fetches : list Pending;
  console : list (string * string);
  navigations : list string
}.

Definition initialWorld : World := {|
  state := initialState;
  clock := 0;
  timers := [];
  fetches := [];
  console := [];
  navigations := []
|}.

Definition withState (f : State -> State) (w : World) : World := {|
  state := f (state w);
  clock := clock w;
  timers := timers w;
  fetches := fetches w;
  console := console w;
  navigations := navigations w
|}.

Definition perform (w : World) (e : Effect) : World :=
  match e with
  | setCurrentQuestion n =>
      withState (fun st => {| currentQuestion := n; answers := answers st;
                              isAnalyzing := isAnalyzing st;
                              analysisResult := analysisResult st;
                              error := error st |}) w
  | setAnswers m =>
      withState (fun st => {| currentQuestion := currentQuestion st; answers := m;
                              isAnalyzing := isAnalyzing st;
                              analysisResult := analysisResult st;
                              error := error st |}) w
  | setIsAnalyzing b =>
      withState (fun st => {| currentQuestion := currentQuestion st;
                              answers := answers st;
                              isAnalyzing := b;
                              analysisResult := analysisResult st;
                              error := error st |}) w
  | setAnalysisResult r =>
      withState (fun st => {| currentQuestion := currentQuestion st;
                              answers := answers st;
                              isAnalyzing := isAnalyzing st;
                              analysisResult := r;
                              error := error st |}) w
  | setError e =>
      withState (fun st => {| currentQuestion := currentQuestion st;
                              answers := answers st;
                              isAnalyzing := isAnalyzing st;
                              analysisResult := analysisResult st;
                              error := e |}) w
  | setTimeout cb delay =>
      {| state := state w; clock := clock w;
         timers := timers w ++ [ {| due := clock w + delay; callback := cb; fired := false |} ];
         fetches := fetches w; console := console w; navigations := navigations w |}
  | fetch who req =>
      {| state := state w; clock := clock w; timers := timers w;
         fetches := fetches w ++ [ {| request := req; issuedBy := who; settled := false |} ];
         console := console w; navigations := navigations w |}
  | console_error label cause =>
      {| state := state w; clock := clock w; timers := timers w;
         fetches := fetches w;
         console := console w ++ [ (label, cause) ];
         navigations := navigations w |}
  | navigate path =>
      {| state := state w; clock := clock w; timers := timers w;
         fetches := fetches w; console := console w;
         navigations := navigations w ++ [ path ] |}
  end.

Definition performAll (w : World) (es : list Effect) : World :=
  fold_left perform es w.

Arguments performAll : simpl never.

(** What the component returns: the three [return]s of the function, in the
    order in which their guards are tested. [question] is read only by the
    form; an index outside the catalog breaks that render. *)
Inductive View :=
| ResultsView (r : AnalysisResult)
| LoadingView
| FormView (question : Question) (err : option string)
| BrokenView.

Definition render (st : State) : View :=
  match analysisResult st with
  | Some r => ResultsView r
  | None =>
      if isAnalyzing st then LoadingView
      else match QUESTIONS !! currentQuestion st with
           | Some question => FormView question (error st)
           | None => BrokenView
           end
  end.

(** The spec's [submissionPhase], read off the state in the order of the
    guards of [render]. *)
Inductive Phase := editing | submitting | succeeded | failed.

Definition submissionPhase (st : State) : Phase :=
  match analysisResult st with
  | Some _ => succeeded
  | None =>
      if isAnalyzing st then submitting
      else match error st with
           | Some _ => failed
           | None => editing
           end
  end.

(** What can happen to the mounted component: a click on a control that
    the current view shows, a timer that is due, a request that settles,
    time passing. *)
Inductive Event :=
| click_option (value : string)
| click_next
| click_back
| click_start_new_case
| click_return_home
| timer_fires (tid : nat)
| fetch_settles (fid : nat) (o : FetchOutcome)
| elapse (ms : nat).

Definition markFired (tid : nat) (w : World) : World :=
  {| state := state w; clock := clock w;
     timers := alter (fun t => {| due := due t; callback := callback t; fired := true |}) tid (timers w);
     fetches := fetches w; console := console w; navigations := navigations w |}.

Definition markSettled (fid : nat) (w : World) : World :=
  {| state := state w; clock := clock w; timers := timers w;
     fetches := alter (fun p => {| request := request p; issuedBy := issuedBy p; settled := true |}) fid (fetches w);
     console := console w; navigations := navigations w |}.

Definition resume (who : Submitter) (o : FetchOutcome) : list Effect :=
  match who with
  | bySubmitCase => submitCase_resume o
  | bySubmitCaseWithAnswer => submitCaseWithAnswer_resume o
  end.

(** One event. [None]: the event cannot happen in [w] (the control is not
    on screen or is disabled, the timer is not due or has run, the request
    has settled). Each handler runs in the closure of the latest render,
    so it reads [state w]. (The clicks on a question that is leaving the
    screen, which run in the closure of an earlier render, are not events
    of [step]: see [clickOptionOf] and [runFrom].) *)
Definition step (w : World) (e : Event) : option World :=
  let st := state w in
  match e with
  | click_option value =>
      match render st with
      | FormView question _ =>
          if bool_decide (value ∈ options question)
          then Some (performAll w (handleSelect st question value))
          else None
      | _ => None
      end
  | click_next =>
      match render st with
      | FormView question _ =>
          if canProceed st question
          then Some (performAll w (handleNext st))
          else None
      | _ => None
      end
  | click_back =>
      match render st with
      | FormView _ _ => Some (performAll w (handleBack st))
      | _ => None
      end
  | click_start_new_case =>
      match render st with
      | ResultsView _ => Some (performAll w startNewCase)
      | _ => None
      end
  | click_return_home =>
      match render st with
      | ResultsView _ => Some (performAll w returnHome)
      | _ => None
      end
  | timer_fires tid =>
      match timers w !! tid with
      | Some t =>
          if negb (fired t) && (due t <=? clock w)%nat
          then Some (performAll (markFired tid w) (autoAdvance (callback t)))
          else None
      | None => None
      end
  | fetch_settles fid o =>
      match fetches w !! fid with
      | Some p =>
          if negb (settled p)
          then Some (performAll (markSettled fid w) (resume (issuedBy p) o))
          else None
      | None => None
      end
  | elapse ms =>
      Some {| state := state w; clock := clock w + ms; timers := timers w;
              fetches := fetches w; console := console w;
              navigations := navigations w |}
  end.

(** A sequence of events, from left to right. *)
Fixpoint run (w : World) (es : list Event) : option World :=
  match es with
  | [] => Some w
  | e :: es' =>
      match step w e with
      | Some w' => run w' es'
      | None => None
      end
  end.

(** ** Vocabulary of the specification *)

(** The decimal value of a run of digits, most significant first. *)
Fixpoint decimalValue (ds : string) : Z :=
  match ds with
  | String c ds' => digitValue c * 10 ^ Z.of_nat (String.length ds') + decimalValue ds'
  | EmptyString => 0
  end.

Fixpoint allDigits (ds : string) : bool :=
  match ds with
  | String c ds' => isDigit c && allDigits ds'
  | EmptyString => true
  end.

Definition startsWithDigit (s : string) : bool :=
  match s with
  | String c _ => isDigit c
  | EmptyString => false
  end.

(** "Level " followed by at least one digit occurs somewhere in [s]. *)
Definition LevelOccurs (s : string) : Prop :=
  exists pre d post, s = pre +:+ "Level " +:+ String d post /\ isDigit d = true.

(** [s] reads [pre], then "Level ", then the digits [ds], all of them,
    then [post]. *)
Definition LevelAt (s pre ds post : string) : Prop :=
  s = pre +:+ "Level " +:+ ds +:+ post
  /\ ds <> EmptyString /\ allDigits ds = true /\ startsWithDigit post = false.

(** [ds] is the number N of the first "Level N" of [s]. *)
Definition FirstLevel (s ds : string) : Prop :=
  exists pre post,
    LevelAt s pre ds post
    /\ forall pre' ds' post', LevelAt s pre' ds' post' ->
         (String.length pre <= String.length pre')%nat.

Definition isLowerLetter (c : ascii) : bool :=
  let n := nat_of_ascii c in (97 <=? n)%nat && (n <=? 122)%nat.

Fixpoint lowerLetters (s : string) : bool :=
  match s with
  | String c s' => isLowerLetter c && lowerLetters s'
  | EmptyString => true
  end.

(** [s] spells the lower-case word [word], each letter in either case. *)
Inductive CaseVariant : string -> string -> Prop :=
| cv_empty : CaseVariant EmptyString EmptyString
| cv_same c s word :
    CaseVariant s word -> CaseVariant (String c s) (String c word)
| cv_upper c l s word :
    (nat_of_ascii c + 32 = nat_of_ascii l)%nat ->
    CaseVariant s word -> CaseVariant (String c s) (String l word).

(** Case-insensitive substring: [s] contains a spelling of [word]. *)
Definition ContainsIgnoringCase (word s : string) : Prop :=
  exists pre mid post, s = pre +:+ mid +:+ post /\ CaseVariant mid word.

(** ** Scenarios and further vocabulary *)

(** An analysis as the service returns it, with one checklist document
    whose urgency is neither "high" nor "medium". *)
Definition sampleChecklist : list ChecklistDoc := [
  {| document := "Registered Sale Deed";
     source := "Sub-Registrar Office";
     urgency := "Immediate action" |}
].

Definition sampleAnalysis (tier : string) : AnalysisResult := {|
  case_analysis := {|
    summary := "Boundary dispute with a neighbour over agricultural land.";
    severity_tier := Some tier;
    legal_category := "Civil - Property";
    limitation_status := "Within limitation";
    risk_warning := None |};
  actionable_resources := {| official_portal_links := []; police_action := None |};
  smart_document_checklist := sampleChecklist;
  immediate_next_steps := [ "1. File a complaint" ];
  recommended_service := {|
    product_name := "Legal Notice";
    price_point := "Rs. 2,999";
    cta_text := "Get Started" |}
|}.

(** One answer to each of the first eleven questions: a click and, for a
    single-select question, the deferred advance 100 ms later; for the
    multi-select question, a click on Next. *)
Definition answerFirstEleven : list Event := [
  click_option "Maharashtra"; elapse 100; timer_fires 0;
  click_option "Agricultural Land"; elapse 100; timer_fires 1;
  click_option "I am in possession"; elapse 100; timer_fires 2;
  click_option "Neighbor"; elapse 100; timer_fires 3;
  click_option "They are blocking my access/pathway"; elapse 100; timer_fires 4;
  click_option "Don't Know"; elapse 100; timer_fires 5;
  click_option "My name"; elapse 100; timer_fires 6;
  click_option "Will"; click_next;
  click_option "No legal action yet"; elapse 100; timer_fires 7;
  click_option "No immediate threat"; elapse 100; timer_fires 8;
  click_option "3-12 years ago"; elapse 100; timer_fires 9
].

(** The answer to the twelfth question, and its deferred submission. *)
Definition answerTwelfth : list Event := [
  click_option "I want to sell and exit"; elapse 100; timer_fires 10
].

Definition answerAllTwelve : list Event := answerFirstEleven ++ answerTwelfth.

(** The world after [es], from the start. *)
Definition worldAfter (es : list Event) : World :=
  default initialWorld (run initialWorld es).

Definition elevenAnswers : AnswerMap :=
  <["dispute_start_date" := AString "3-12 years ago"]>
  (<["immediate_threat" := AString "No immediate threat"]>
  (<["police_court_status" := AString "No legal action yet"]>
  (<["documents_held" := AArray ["Will"]]>
  (<["revenue_records_name" := AString "My name"]>
  (<["ancestral_status" := AString "Don't Know"]>
  (<["core_issue" := AString "They are blocking my access/pathway"]>
  (<["opponent_type" := AString "Neighbor"]>
  (<["possession_status" := AString "I am in possession"]>
  (<["property_type" := AString "Agricultural Land"]>
  (<["location" := AString "Maharashtra"]> ∅)))))))))).

(** The user picks another option of the same, last question before the
    timer of the first pick runs. *)
Definition thenAnotherOutcome : list Event :=
  [ elapse 40; click_option "I want to keep the land and use it"; elapse 60 ].

Definition answerFirstThree : list Event := take 9 answerFirstEleven.

(** Three answers and the selection on the fourth question, its timer
    still pending. *)
Definition afterFourthSelection : list Event :=
  answerFirstThree ++ [ click_option "Neighbor" ].

Definition thenBackTwice : list Event := [ click_back; click_back; elapse 150 ].



Definition twelveAnswers : AnswerMap :=
  <["desired_outcome" := AString "I want to sell and exit"]> elevenAnswers.

Definition pendingSubmission : Pending :=
  {| request := analyzeRequest twelveAnswers;
     issuedBy := bySubmitCaseWithAnswer;
     settled := false |}.

Definition networkDown : FetchOutcome := Rejected "TypeError: Failed to fetch".

(** Nothing is pending: every timer has run and every request has
    settled. *)
Definition quiescent (w : World) : Prop :=
  Forall (fun t => fired t = true) (timers w)
  /\ Forall (fun p => settled p = true) (fetches w).

(** The shape of the value stored for a question: one of its options, or
    a duplicate-free array of its options. *)
Definition answerWellTyped (q : Question) (a : answer) : Prop :=
  match type q, a with
  | select, AString v => v ∈ options q
  | multiselect, AArray l => NoDup l /\ Forall (fun v => v ∈ options q) l
  | _, _ => False
  end.

(** Every property of the answers is the id of a question of the catalog
    and holds a value of that question's shape. *)
Definition answersWellTyped (m : AnswerMap) : Prop :=
  forall k a, m !! k = Some a ->
    exists q, q ∈ QUESTIONS /\ id q = k /\ answerWellTyped q a.

(** In the run [es] the user clicked an option while the question [k] was
    on screen. *)
Definition selectionMade (es : list Event) (k : string) : Prop :=
  exists es1 value es2 w question err,
    es = es1 ++ click_option value :: es2
    /\ run initialWorld es1 = Some w
    /\ render (state w) = FormView question err
    /\ id question = k
    /\ value ∈ options question.

(** The answers after [handleSelect]. *)
Definition selected (st : State) (q : Question) (v : string) : AnswerMap :=
  match handleSelect st q v with
  | setAnswers m :: _ => m
  | _ => answers st
  end.

(** The first seven questions answered, then "Will" switched on and off
    again on the multi-select question. *)
Definition toggleWillTwice : list Event :=
  take 21 answerFirstEleven ++ [ click_option "Will"; click_option "Will" ].

(** The events of answering [question] with [value] when [tid] timers
    have been created so far: the click and, 100 ms later, the deferred
    advance; for a multi-select question, the click and Next. *)
Definition answerEvents (tid : nat) (question : Question) (value : string) : list Event :=
  match type question with
  | select => [ click_option value; elapse 100; timer_fires tid ]
  | multiselect => [ click_option value; click_next ]
  end.

(** Answering the questions [qs] in turn, one value each. *)
Fixpoint answerInTurn (tid : nat) (qs : list Question) (picks : list string)
  : list Event :=
  match qs, picks with
  | q :: qs', v :: picks' =>
      answerEvents tid q v
      ++ answerInTurn (match type q with select => S tid | multiselect => tid end) qs' picks'
  | _, _ => []
  end.

(** The answers object that these answers build. *)
Definition answersOf (qs : list Question) (picks : list string) : AnswerMap :=
  zip_with (fun q v => (id q, match type q with
                              | select => AString v
                              | multiselect => AArray [ v ]
                              end)) qs picks.

Definition twelvePicks : list string :=
  [ "Maharashtra"; "Agricultural Land"; "I am in possession"; "Neighbor";
    "They are blocking my access/pathway"; "Don't Know"; "My name"; "Will";
    "No legal action yet"; "No immediate threat"; "3-12 years ago";
    "I want to sell and exit" ].

(** The index, and the index captured by every timer, is within the
    catalog: the form always has a question to show. *)
Definition indexInRange (w : World) : Prop :=
  (currentQuestion (state w) < length QUESTIONS)%nat
  /\ Forall (fun t => (cap_currentQuestion (callback t) < length QUESTIONS)%nat) (timers w).

(** ** Further parts of the component *)

(** [isSelected], in the render with state [st] and current question
    [question]: membership in the stored array (or, for a stored string,
    [String.prototype.includes]) for a multi-select question, strict
    equality with the stored value otherwise. *)
Definition isSelected (st : State) (question : Question) (value : string) : bool :=
  match type question with
  | multiselect =>
      match answers st !! id question with
      | Some (AArray l) => arrayIncludes l value
      | Some (AString EmptyString) | None => false
      | Some (AString s) => includes s value
      end
  | select =>
      match answers st !! id question with
      | Some (AString s) => string_eqb s value
      | Some (AArray _) | None => false
      end
  end.

(** A click on an option button that the render of the state [st] drew.
    That render is the current one, [st = state w], or, while a question
    leaves the screen, an earlier one: [AnimatePresence mode="wait"] keeps
    the question of the last render before the index changed on screen
    for the 150 ms of its exit, with the [onClick] of that render. The
    handler reads [st] and its calls act on the component as it is. *)
Definition clickOptionOf (st : State) (w : World) (value : string) : option World :=
  match render st with
  | FormView question _ =>
      if bool_decide (value ∈ options question)
      then Some (performAll w (handleSelect st question value))
      else None
  | _ => None
  end.

(** [\s] on an 8-bit code unit: tab, line feed, vertical tab, form feed,
    carriage return, space and no-break space. *)
Definition isSpace (c : ascii) : bool :=
  let n := nat_of_ascii c in
  ((9 <=? n)%nat && (n <=? 13)%nat) || (n =? 32)%nat || (n =? 160)%nat.

(** [\s*] is greedy: what follows the leading white space of [s]. *)
Fixpoint dropSpaces (s : string) : string :=
  match s with
  | String c s' => if isSpace c then dropSpaces s' else s
  | EmptyString => EmptyString
  end.

(** [step.replace(/^\d+\.\s*/, '')], which both renderings apply to a
    next step (the results view shows the string as text, the report
    puts it between [<li>] and [</li>] of its HTML): the pattern is tried
    at the start of the string only, the digits are taken greedily and
    must be followed by a period. *)
Definition stripNumeral (s : string) : string :=
  match takeDigits s with
  | (String _ _, String "."%char rest) => dropSpaces rest
  | _ => s
  end.

Fixpoint allSpaces (s : string) : bool :=
  match s with
  | String c s' => isSpace c && allSpaces s'
  | EmptyString => true
  end.

Definition startsWithSpace (s : string) : bool :=
  match s with
  | String c _ => isSpace c
  | EmptyString => false
  end.

(** [s] starts with a numeral and a period. *)
Definition NumeralPrefix (s : string) : Prop :=
  exists ds rest, ds <> EmptyString /\ allDigits ds = true /\ s = ds +:+ "." +:+ rest.

(** The result that the continuation stores: the response is [ok] and its
    body parses. *)
Definition storedResult (o : FetchOutcome) : option AnalysisResult :=
  match o with
  | Responded status (Parsed result) => if ok status then Some result else None
  | _ => None
  end.

(** What the [catch] block receives otherwise: the rejection of [fetch],
    the error thrown for a response that is not [ok], or the rejection of
    [response.json()]. *)
Definition caughtError (o : FetchOutcome) : string :=
  match o with
  | Rejected cause => cause
  | Responded status body =>
      if ok status
      then match body with Unparsable cause => cause | Parsed _ => EmptyString end
      else "Error: Analysis failed"
  end.

Definition markedSettled (p : Pending) : Pending :=
  {| request := request p; issuedBy := issuedBy p; settled := true |}.

(** The request [fid] settles with an ok response whose body parses to a
    falsy value ([null], [false], [0] or the empty string), which is not
    an outcome of [FetchOutcome]. Both continuations pass the value to
    [setAnalysisResult]; the component looks at the stored value only
    through the guard [if (analysisResult)], which reads every falsy value
    as it reads [null]. (A body that parses to a truthy value of another
    shape than the results view reads is not modelled: the state has no
    such value.) *)
Definition settleFalsy (w : World) (fid : nat) : option World :=
  match fetches w !! fid with
  | Some p =>
      if negb (settled p)
      then Some (performAll (markSettled fid w) [ setAnalysisResult None ])
      else None
  | None => None
  end.

(** The names that every object inherits from [Object.prototype]:
    [answers[k]] is defined for them on an object that has no such
    property of its own. *)
Definition inheritedNames : list string :=
  [ "constructor"; "hasOwnProperty"; "isPrototypeOf"; "propertyIsEnumerable";
    "toLocaleString"; "toString"; "valueOf"; "__proto__";
    "__defineGetter__"; "__defineSetter__"; "__lookupGetter__"; "__lookupSetter__" ].

(** A key for which the list of properties is the object: it is not made
    of digits (the language lists integer-like keys first, in numeric
    order) and it is not an inherited name. *)
Definition plainKey (k : string) : Prop :=
  allDigits k = false /\ k ∉ inheritedNames.

(** The first question is answered and the index has moved on; for 150 ms
    the first question is still on screen, as its last render drew it. *)
Definition firstAnswered : list Event := [ click_option "Maharashtra" ].

Definition thenAdvanced : list Event := [ elapse 100; timer_fires 0 ].

(** Two questions are answered; after two clicks on Back and the exit of
    the question that leaves the screen, the first question is on screen
    again. *)
Definition twoAnswersThenBack : list Event :=
  take 4 answerFirstEleven
  ++ [ elapse 100; timer_fires 1; click_back; click_back; elapse 200 ].

(** On the multi-select question "Will" is switched on. *)
Definition willSelected : list Event :=
  take 21 answerFirstEleven ++ [ click_option "Will" ].

(** The keys of an answers object are distinct ids of the catalog. *)
Definition keysOk (m : AnswerMap) : Prop :=
  NoDup m.*1 /\ forall k, k ∈ m.*1 -> k ∈ (id <$> QUESTIONS).

(** The same for the answers held by the state, by every timer's closure
    and by every posted body. *)
Definition keysInvariant (w : World) : Prop :=
  keysOk (answers (state w))
  /\ Forall (fun t => keysOk (cap_answers (callback t))
                      /\ cap_id (callback t) ∈ (id <$> QUESTIONS)) (timers w)
  /\ Forall (fun p => keysOk (req_body (request p))) (fetches w).

(** What can happen to the component when the clicks on a question that
    is leaving the screen are counted in: an event of [step], or
    [click_leaving n value], a click on an option button that the render
    of the [n]-th world of the run so far drew, while a form is on
    screen. *)
Inductive Action :=
| act (e : Event)
| click_leaving (n : nat) (value : string).

(** A sequence of actions; [past] holds the worlds that the run has been
    through, the oldest first. *)
Fixpoint runFrom (past : list World) (w : World) (acts : list Action) : option World :=
  match acts with
  | [] => Some w
  | act e :: acts' =>
      match step w e with
      | Some w' => runFrom (past ++ [ w ]) w' acts'
      | None => None
      end
  | click_leaving n value :: acts' =>
      match past !! n, render (state w) with
      | Some w0, FormView _ _ =>
          match clickOptionOf (state w0) w value with
          | Some w' => runFrom (past ++ [ w ]) w' acts'
          | None => None
          end
      | _, _ => None
      end
  end.

(** The shape that the component keeps: answers of the shape of the
    catalog, keys that are distinct ids of the catalog in the state, in
    the closures of the timers and in the posted bodies, and indices
    within the catalog. *)
Definition shapeInvariant (w : World) : Prop :=
  answersWellTyped (answers (state w)) /\ keysInvariant w /\ indexInRange w.

(** The first question is answered and the index moves on; "Kerala" is
    clicked on the first question while it leaves the screen, and its
    timer runs. *)
Definition leavingClick : list Action :=
  [ act (click_option "Maharashtra"); act (elapse 100); act (timer_fires 0);
    click_leaving 1 "Kerala"; act (elapse 100); act (timer_fires 1) ].

(** ** LoginPage: phone number and one-time code *)

Module LoginPage.

(** [value.replace(/\D/g, '')]: every code unit that is not a digit is
    removed. *)
Fixpoint removeNonDigits (s : string) : string :=
  match s with
  | String c s' => if isDigit c then String c (removeNonDigits s') else removeNonDigits s'
  | EmptyString => EmptyString
  end.

(** [s.slice(0, n)] *)
Fixpoint sliceFromStart (n : nat) (s : string) : string :=
  match n, s with
  | S n', String c s' => String c (sliceFromStart n' s')
  | _, _ => EmptyString
  end.

(** The [onChange] of the phone input: what is stored for the typed
    text. *)
Definition sanitizePhone (raw : string) : string :=
  sliceFromStart 10 (removeNonDigits raw).

(** [otp.join('')] *)
Definition join (cells : list string) : string :=
  fold_right String.append EmptyString cells.

(** A non-empty string is truthy. *)
Definition truthy (s : string) : bool := negb (String.length s =? 0)%nat.

Inductive Step := phone_step | otp_step | success_step.

(** The [useState] cells of [LoginPage]. *)
Record State := {
  step : Step;
  phone : string;
  otp : list string;
  loading : bool;
  error : string
}.

Definition initialState : State := {|
  step := phone_step;
  phone := EmptyString;
  otp := [ EmptyString; EmptyString; EmptyString; EmptyString; EmptyString; EmptyString ];
  loading := false;
  error := EmptyString
|}.

(** The argument of [login]. *)
Record UserData := { user_phone : string; verified : bool }.

(** What runs after a delay: the rest of [handlePhoneSubmit], the rest of
    [handleOtpSubmit], which uses the [phone] of the render in which it
    was called, and the redirect of the success view. *)
Inductive Closure :=
| afterPhoneDelay
| afterOtpDelay (capturedPhone : string)
| redirectHome.

Inductive Effect :=
| setStep (s : Step)
| setPhone (p : string)
| setOtp (cells : list string)
| setLoading (b : bool)
| setError (e : string)
| setTimeout (cb : Closure) (delay : nat)
| login (userData : UserData)
| navigate (path : string)
| focus (index : nat).

Definition handlePhoneSubmit (st : State) : list Effect :=
  if negb (String.length (phone st) =? 10)%nat
  then [ setError "Please enter a valid 10-digit phone number" ]
  else [ setLoading true; setError EmptyString; setTimeout afterPhoneDelay 1500 ].

Definition handlePhoneSubmit_resume : list Effect :=
  [ setLoading false; setStep otp_step ].

(** [handleOtpChange]; the new cells are [otp] with [value] at [index]. *)
Definition handleOtpChange (st : State) (index : nat) (value : string) : list Effect :=
  if (1 <? String.length value)%nat then []
  else setOtp (<[index := value]> (otp st))
       :: (if truthy value && (index <? 5)%nat then [ focus (index + 1) ] else []).

Definition handleOtpKeyDown (st : State) (index : nat) (key : string) : list Effect :=
  if bool_decide (key = "Backspace")
     && negb (truthy (default EmptyString (otp st !! index)))
     && (0 <? index)%nat
  then [ focus (index - 1) ]
  else [].

Definition handleOtpSubmit (st : State) : list Effect :=
  if negb (String.length (join (otp st)) =? 6)%nat
  then [ setError "Please enter the complete 6-digit OTP" ]
  else [ setLoading true; setError EmptyString; setTimeout (afterOtpDelay (phone st)) 1500 ].

Definition handleOtpSubmit_resume (capturedPhone : string) : list Effect :=
  [ login {| user_phone := "+91" +:+ capturedPhone; verified := true |};
    setLoading false;
    setStep success_step;
    setTimeout redirectHome 2000 ].

(** The effect on [[otp]]: it runs after a render in which the cells are a
    new array. *)
Definition otpEffect (st : State) : list Effect :=
  if forallb truthy (otp st) && match step st with otp_step => true | _ => false end
  then handleOtpSubmit st
  else [].

Record Timer := { due : nat; callback : Closure; fired : bool }.

(** The page in its environment: its state, the timers, and the calls
    that its handlers have made of [login], of [navigate] and of [focus]
    (the focus that the browser gives to an input with [autoFocus] when a
    form is mounted is not a call of the page and is not recorded). The
    effect on [isAuthenticated] is not part of it: the route mounts the
    page under [PublicRoute], which replaces the page as soon as the
    context is authenticated, that is right after the first call of
    [login]; what [state] holds from then on is no longer on screen,
    while the timers still run. *)
Record World := {
  state : State;
  clock : nat;
  timers : list Timer;
  logins : list UserData;
  navigations : list string;
  focused : list nat
}.

Definition initialWorld : World := {|
  state := initialState; clock := 0; timers := [];
  logins := []; navigations := []; focused := []
|}.

Definition withState (f : State -> State) (w : World) : World :=
  {| state := f (state w); clock := clock w; timers := timers w;
     logins := logins w; navigations := navigations w; focused := focused w |}.

Definition perform (w : World) (e : Effect) : World :=
  match e with
  | setStep s =>
      withState (fun st => {| step := s; phone := phone st; otp := otp st;
                              loading := loading st; error := error st |}) w
  | setPhone p =>
      withState (fun st => {| step := step st; phone := p; otp := otp st;
                              loading := loading st; error := error st |}) w
  | setOtp cells =>
      withState (fun st => {| step := step st; phone := phone st; otp := cells;
                              loading := loading st; error := error st |}) w
  | setLoading b =>
      withState (fun st => {| step := step st; phone := phone st; otp := otp st;
                              loading := b; error := error st |}) w
  | setError e =>
      withState (fun st => {| step := step st; phone := phone st; otp := otp st;
                              loading := loading st; error := e |}) w
  | setTimeout cb delay =>
      {| state := state w; clock := clock w;
         timers := timers w ++ [ {| due := clock w + delay; callback := cb; fired := false |} ];
             logins := logins w; navigations := navigations w; focused := focused w |}
  | login userData =>
      {| state := state w; clock := clock w; timers := timers w;
         logins := logins w ++ [ userData ];
         navigations := navigations w; focused := focused w |}
  | navigate path =>
      {| state := state w; clock := clock w; timers := timers w;
         logins := logins w;
         navigations := navigations w ++ [ path ]; focused := focused w |}
  | focus index =>
      {| state := state w; clock := clock w; timers := timers w;
         logins := logins w;
         navigations := navigations w; focused := focused w ++ [ index ] |}
  end.

Definition performAll (w : World) (es : list Effect) : World := fold_left perform es w.

Definition resume (cb : Closure) : list Effect :=
  match cb with
  | afterPhoneDelay => handlePhoneSubmit_resume
  | afterOtpDelay capturedPhone => handleOtpSubmit_resume capturedPhone
  | redirectHome => [ navigate "/home" ]
  end.

Definition markFired (tid : nat) (w : World) : World :=
  {| state := state w; clock := clock w;
     timers := alter (fun t => {| due := due t; callback := callback t; fired := true |})
                 tid (timers w);
     logins := logins w; navigations := navigations w; focused := focused w |}.

(** What can happen to the page: typing in the phone input, submitting
    the phone form, typing or pressing a key in a cell of the code,
    submitting the code form, "Resend OTP", a timer that is due, time
    passing. The phone form is on screen in the phone step, the code form
    in the code step. The [disabled] attribute of the submit buttons is
    not part of the model: a form can be submitted whenever it is on
    screen, and the check of its handler decides. *)
Inductive Event :=
| type_phone (raw : string)
| submit_phone
| type_otp (index : nat) (value : string)
| keydown_otp (index : nat) (key : string)
| submit_otp
| click_resend
| timer_fires (tid : nat)
| elapse (ms : nat).

Definition next (w : World) (e : Event) : option World :=
  let st := state w in
  match e with
  | type_phone raw =>
      match step st with
      | phone_step => Some (performAll w [ setPhone (sanitizePhone raw) ])
      | _ => None
      end
  | submit_phone =>
      match step st with
      | phone_step => Some (performAll w (handlePhoneSubmit st))
      | _ => None
      end
  | type_otp index value =>
      match step st with
      | otp_step =>
          if (index <? length (otp st))%nat
          then let w1 := performAll w (handleOtpChange st index value) in
               Some (if (1 <? String.length value)%nat then w1
                     else performAll w1 (otpEffect (state w1)))
          else None
      | _ => None
      end
  | keydown_otp index key =>
      match step st with
      | otp_step =>
          if (index <? length (otp st))%nat
          then Some (performAll w (handleOtpKeyDown st index key))
          else None
      | _ => None
      end
  | submit_otp =>
      match step st with
      | otp_step => Some (performAll w (handleOtpSubmit st))
      | _ => None
      end
  | click_resend =>
      match step st with
      | otp_step => Some (performAll w [ setStep phone_step ])
      | _ => None
      end
  | timer_fires tid =>
      match timers w !! tid with
      | Some t =>
          if negb (fired t) && (due t <=? clock w)%nat
          then Some (performAll (markFired tid w) (resume (callback t)))
          else None
      | None => None
      end
  | elapse ms =>
      Some {| state := state w; clock := clock w + ms; timers := timers w;
                       logins := logins w; navigations := navigations w; focused := focused w |}
  end.

Fixpoint run (w : World) (es : list Event) : option World :=
  match es with
  | [] => Some w
  | e :: es' => match next w e with Some w' => run w' es' | None => None end
  end.

(** The same transitions as a relation, one rule for each branch that the
    handlers take; [next_Next] shows that it is [next]. *)
Inductive Next (w : World) : Event -> World -> Prop :=
| phone_typed raw :
    step (state w) = phone_step ->
    Next w (type_phone raw) (performAll w [ setPhone (sanitizePhone raw) ])
| phone_rejected :
    step (state w) = phone_step ->
    String.length (phone (state w)) <> 10%nat ->
    Next w submit_phone
      (performAll w [ setError "Please enter a valid 10-digit phone number" ])
| phone_accepted :
    step (state w) = phone_step ->
    String.length (phone (state w)) = 10%nat ->
    Next w submit_phone
      (performAll w [ setLoading true; setError EmptyString; setTimeout afterPhoneDelay 1500 ])
| cell_ignored index value :
    step (state w) = otp_step ->
    (index < length (otp (state w)))%nat ->
    (1 < String.length value)%nat ->
    Next w (type_otp index value) w
| cell_typed index value :
    step (state w) = otp_step ->
    (index < length (otp (state w)))%nat ->
    (String.length value <= 1)%nat ->
    forallb truthy (<[index := value]> (otp (state w))) = false ->
    Next w (type_otp index value)
      (performAll w (handleOtpChange (state w) index value))
| code_completed index value :
    step (state w) = otp_step ->
    (index < length (otp (state w)))%nat ->
    (String.length value <= 1)%nat ->
    forallb truthy (<[index := value]> (otp (state w))) = true ->
    String.length (join (<[index := value]> (otp (state w)))) = 6%nat ->
    Next w (type_otp index value)
      (performAll (performAll w (handleOtpChange (state w) index value))
         [ setLoading true; setError EmptyString;
           setTimeout (afterOtpDelay (phone (state w))) 1500 ])
| code_miscounted index value :
    step (state w) = otp_step ->
    (index < length (otp (state w)))%nat ->
    (String.length value <= 1)%nat ->
    forallb truthy (<[index := value]> (otp (state w))) = true ->
    String.length (join (<[index := value]> (otp (state w)))) <> 6%nat ->
    Next w (type_otp index value)
      (performAll (performAll w (handleOtpChange (state w) index value))
         [ setError "Please enter the complete 6-digit OTP" ])
| key_pressed index key :
    step (state w) = otp_step ->
    (index < length (otp (state w)))%nat ->
    Next w (keydown_otp index key) (performAll w (handleOtpKeyDown (state w) index key))
| code_rejected :
    step (state w) = otp_step ->
    String.length (join (otp (state w))) <> 6%nat ->
    Next w submit_otp (performAll w [ setError "Please enter the complete 6-digit OTP" ])
| code_accepted :
    step (state w) = otp_step ->
    String.length (join (otp (state w))) = 6%nat ->
    Next w submit_otp
      (performAll w [ setLoading true; setError EmptyString;
                      setTimeout (afterOtpDelay (phone (state w))) 1500 ])
| resend_clicked :
    step (state w) = otp_step ->
    Next w click_resend (performAll w [ setStep phone_step ])
| timer_ran tid t :
    timers w !! tid = Some t ->
    fired t = false ->
    (due t <= clock w)%nat ->
    Next w (timer_fires tid) (performAll (markFired tid w) (resume (callback t)))
| time_passed ms :
    Next w (elapse ms)
      {| state := state w; clock := clock w + ms; timers := timers w;
         logins := logins w; navigations := navigations w; focused := focused w |}.

(** *** Vocabulary for the properties of the page *)

(** A stored phone number: digits only, at most ten. *)
Definition phoneOk (p : string) : Prop :=
  allDigits p = true /\ (String.length p <= 10)%nat.

(** The six cells of the code, each empty or one code unit. *)
Definition cellsOk (cells : list string) : Prop :=
  length cells = 6%nat /\ Forall (fun c => (String.length c <= 1)%nat) cells.

(** All six cells are filled. *)
Definition otpComplete (cells : list string) : Prop :=
  length cells = 6%nat /\ Forall (fun c => String.length c = 1%nat) cells.

(** What the page holds and hands on: the stored number, the cells, the
    numbers captured by the pending verifications, the calls of [login]. *)
Definition dataOk (w : World) : Prop :=
  phoneOk (phone (state w)) /\ cellsOk (otp (state w))
  /\ (forall t p, t ∈ timers w -> callback t = afterOtpDelay p -> phoneOk p)
  /\ (forall u, u ∈ logins w ->
        exists p, u = {| user_phone := "+91" +:+ p; verified := true |} /\ phoneOk p).

(** The delays add up: the code step is not shown before 1500 ms, no
    verification is due before 3000 ms. *)
Definition timingOk (w : World) : Prop :=
  (step (state w) <> phone_step -> 1500 <= clock w)%nat
  /\ (forall t p, t ∈ timers w -> callback t = afterOtpDelay p -> 3000 <= due t)%nat
  /\ (forall t, t ∈ timers w -> callback t = afterPhoneDelay -> 1500 <= due t)%nat
  /\ (logins w <> [] -> 3000 <= clock w)%nat.

(** A verification that has been started for the number [p]: the timer
    that [handleOtpSubmit] sets at time [now]. *)
Definition verificationTimer (now : nat) (p : string) : Timer :=
  {| due := now + 1500; callback := afterOtpDelay p; fired := false |}.

(** [P] held in some world that the events [es] went through. *)
Definition once (P : World -> Prop) (es : list Event) : Prop :=
  exists es1 es2 w0, es = es1 ++ es2 /\ run initialWorld es1 = Some w0 /\ P w0.

(** The phone form shows a number of exactly ten digits. *)
Definition phoneEntered (w : World) : Prop :=
  step (state w) = phone_step /\ String.length (phone (state w)) = 10%nat
  /\ allDigits (phone (state w)) = true.

(** The code form shows six filled cells, for the number [p]. *)
Definition codeEntered (p : string) (w : World) : Prop :=
  step (state w) = otp_step /\ otpComplete (otp (state w)) /\ phone (state w) = p.

(** The events that call [handleOtpSubmit]: the submit of the code form,
    and typing in a cell, after which the effect on the cells runs. *)
Definition mayStartVerification (e : Event) : Prop :=
  e = submit_otp \/ exists i v, e = type_otp i v /\ (String.length v <= 1)%nat.

(** A number of ten digits was on the phone form before anything was
    scheduled and before the code form was shown. *)
Definition phoneHistory (es : list Event) (w : World) : Prop :=
  step (state w) <> phone_step \/ timers w <> [] -> once phoneEntered es.

(** Six filled cells were on the code form, for the number it captured,
    before a verification was started and before [login] was called. *)
Definition codeHistory (es : list Event) (w : World) : Prop :=
  (forall t p, t ∈ timers w -> callback t = afterOtpDelay p -> once (codeEntered p) es)
  /\ (forall u, u ∈ logins w ->
        exists p, u = {| user_phone := "+91" +:+ p; verified := true |}
                  /\ once (codeEntered p) es).

(** *** Scenarios *)

(** A number is pasted with a blank in it and submitted; the delay runs
    out and the code form is shown. *)
Definition enterPhone : list Event :=
  [ type_phone "98765 43210"; submit_phone; elapse 1500; timer_fires 0 ].

Definition enterFiveCells : list Event :=
  [ type_otp 0 "4"; type_otp 1 "8"; type_otp 2 "1"; type_otp 3 "5"; type_otp 4 "1" ].

Definition enterCode : list Event := enterFiveCells ++ [ type_otp 5 "6" ].

(** The whole login. *)
Definition fullLogin : list Event :=
  enterPhone ++ enterCode ++ [ elapse 1500; timer_fires 1 ].

(** The number is changed while the delay of the phone form runs. *)
Definition editedWhileWaiting : list Event :=
  [ type_phone "9876543210"; submit_phone; type_phone "987"; elapse 1500; timer_fires 0 ]
  ++ enterCode ++ [ elapse 1500; timer_fires 1 ].

(** After the code is complete: Resend, another number, and the delay. *)
Definition resendAfterCode : list Event :=
  [ click_resend; type_phone "123"; elapse 1500 ].

End LoginPage.

(** * Properties *)

(** ** Strings *)

Section Strings.

Implicit Types (s t u p pre post ds : string) (c d : ascii).

Lemma app_cons c s t : String c s +:+ t = String c (s +:+ t).
Proof. reflexivity. Qed.

Lemma app_empty_l s : EmptyString +:+ s = s.
Proof. reflexivity. Qed.

Lemma stripPrefix_Some p s t : stripPrefix p s = Some t <-> s = p +:+ t.
Proof.
  revert s. induction p as [|a p IH]; intros s.
  - rewrite app_empty_l. destruct s; simpl; split; congruence.
  - rewrite app_cons. destruct s as [|b s]; simpl; [split; congruence|].
    destruct (Ascii.eqb_spec a b) as [->|Hne].
    + rewrite IH. split; congruence.
    + split; congruence.
Qed.

Lemma includes_true s p :
  includes s p = true <-> exists pre post, s = pre +:+ p +:+ post.
Proof.
  induction s as [|c s IH]; simpl.
  - destruct (stripPrefix p EmptyString) as [t|] eqn:E.
    + apply stripPrefix_Some in E. split; [|done].
      intros _. exists EmptyString, t. by rewrite app_empty_l.
    + split; [done|]. intros (pre & post & H).
      destruct pre; [|done]. rewrite app_empty_l in H.
      apply stripPrefix_Some in H. congruence.
  - destruct (stripPrefix p (String c s)) as [t|] eqn:E.
    + apply stripPrefix_Some in E. split; [|done].
      intros _. exists EmptyString, t. by rewrite app_empty_l.
    + rewrite IH. split.
      * intros (pre & post & ->). exists (String c pre), post. by rewrite app_cons.
      * intros (pre & post & H). destruct pre as [|c' pre].
        -- rewrite app_empty_l in H. apply stripPrefix_Some in H. congruence.
        -- rewrite app_cons in H. injection H as -> ->. by exists pre, post.
Qed.

Lemma toLowerCase_app s t : toLowerCase (s +:+ t) = toLowerCase s +:+ toLowerCase t.
Proof. induction s as [|c s IH]; [reflexivity|]. rewrite app_cons. simpl. by rewrite IH. Qed.

Lemma toLowerCase_split s t u :
  toLowerCase s = t +:+ u ->
  exists s1 s2, s = s1 +:+ s2 /\ toLowerCase s1 = t /\ toLowerCase s2 = u.
Proof.
  revert s. induction t as [|c t IH]; intros s H.
  - exists EmptyString, s. by rewrite !app_empty_l in *.
  - rewrite app_cons in H. destruct s as [|a s]; [done|].
    simpl in H. injection H as Hc H. destruct (IH _ H) as (s1 & s2 & -> & <- & <-).
    exists (String a s1), s2. rewrite app_cons. simpl. by rewrite Hc.
Qed.

(** A lower-case letter is the image of itself and of its capital only. *)
Lemma toLowerChar_letter c l :
  isLowerLetter l = true ->
  toLowerChar c = l <-> c = l \/ (nat_of_ascii c + 32 = nat_of_ascii l)%nat.
Proof.
  unfold isLowerLetter, toLowerChar. intros Hl.
  apply andb_true_iff in Hl as [Hl1%Nat.leb_le Hl2%Nat.leb_le].
  pose proof (nat_ascii_bounded c) as Hc.
  destruct ((65 <=? nat_of_ascii c)%nat && (nat_of_ascii c <=? 90)%nat) eqn:E1.
  - apply andb_true_iff in E1 as [H1%Nat.leb_le H2%Nat.leb_le]. split.
    + intros <-. right. rewrite nat_ascii_embedding; lia.
    + intros [->|H]; [lia|]. rewrite H. apply ascii_nat_embedding.
  - destruct ((192 <=? nat_of_ascii c)%nat && (nat_of_ascii c <=? 222)%nat
              && negb (nat_of_ascii c =? 215)%nat) eqn:E2.
    + apply andb_true_iff in E2 as [E2 _].
      apply andb_true_iff in E2 as [H1%Nat.leb_le H2%Nat.leb_le]. split.
      * intros <-. rewrite nat_ascii_embedding in Hl2; lia.
      * intros [->|H]; lia.
    + split; [by left|]. intros [->|H]; [done|].
      apply andb_false_iff in E1 as [H1%Nat.leb_gt|H2%Nat.leb_gt]; lia.
Qed.

Lemma CaseVariant_toLowerCase s word :
  lowerLetters word = true -> CaseVariant s word <-> toLowerCase s = word.
Proof.
  intros Hw. split.
  - induction 1 as [|c s word _ IH|c l s word Hc _ IH]; [done|..];
      simpl in Hw; apply andb_true_iff in Hw as [Hl Hw]; simpl; rewrite (IH Hw);
      f_equal; apply toLowerChar_letter; auto.
  - revert s. induction word as [|l word IH]; intros s H.
    + destruct s; [constructor|done].
    + simpl in Hw. apply andb_true_iff in Hw as [Hl Hw].
      destruct s as [|c s]; [done|]. simpl in H. injection H as Hc H.
      apply toLowerChar_letter in Hc; [|done]. destruct Hc as [->|Hc].
      * constructor. auto.
      * apply cv_upper; auto.
Qed.

(** [includes] after [toLowerCase] is the case-insensitive substring test. *)
Lemma includes_toLowerCase word s :
  lowerLetters word = true ->
  includes (toLowerCase s) word = true <-> ContainsIgnoringCase word s.
Proof.
  intros Hw. rewrite includes_true. split.
  - intros (pre & post & H).
    apply toLowerCase_split in H as (s1 & s2 & -> & _ & H).
    apply toLowerCase_split in H as (mid & s3 & -> & H & _).
    exists s1, mid, s3. split; [done|]. by apply CaseVariant_toLowerCase.
  - intros (pre & mid & post & -> & H%CaseVariant_toLowerCase); [|done].
    exists (toLowerCase pre), (toLowerCase post).
    by rewrite !toLowerCase_app, H.
Qed.

End Strings.

(** ** The pattern [/Level (\d+)/] *)

Section LevelPattern.

Implicit Types (s pre post ds rest : string) (c d : ascii).

Lemma takeDigits_sound s ds rest :
  takeDigits s = (ds, rest) ->
  s = ds +:+ rest /\ allDigits ds = true /\ startsWithDigit rest = false.
Proof.
  revert ds rest. induction s as [|c s IH]; intros ds rest; simpl.
  - by intros [= <- <-].
  - destruct (isDigit c) eqn:Hc.
    + destruct (takeDigits s) as [ds0 rest0].
      destruct (IH _ _ eq_refl) as (-> & Hd & Hr).
      intros [= <- <-]. rewrite app_cons. simpl. by rewrite Hc, Hd.
    + intros [= <- <-]. rewrite app_empty_l. simpl. done.
Qed.

Lemma takeDigits_complete ds rest :
  allDigits ds = true -> startsWithDigit rest = false ->
  takeDigits (ds +:+ rest) = (ds, rest).
Proof.
  intros Hds Hrest. induction ds as [|c ds IH].
  - rewrite app_empty_l. destruct rest as [|c rest]; [done|].
    simpl in *. by rewrite Hrest.
  - simpl in Hds. apply andb_true_iff in Hds as [Hc Hds].
    rewrite app_cons. simpl. by rewrite Hc, IH.
Qed.

Lemma takeDigits_spec s ds rest :
  takeDigits s = (ds, rest) <->
  s = ds +:+ rest /\ allDigits ds = true /\ startsWithDigit rest = false.
Proof.
  split; [apply takeDigits_sound|].
  intros (-> & ? & ?). by apply takeDigits_complete.
Qed.

Lemma matchLevelHere_Some s ds :
  matchLevelHere s = Some ds <-> exists post, LevelAt s EmptyString ds post.
Proof.
  unfold matchLevelHere, LevelAt. split.
  - destruct (stripPrefix "Level " s) as [rest|] eqn:E; [|done].
    apply stripPrefix_Some in E as ->.
    destruct (takeDigits rest) as [ds0 post] eqn:E.
    apply takeDigits_spec in E as (-> & Hd & Hp).
    destruct ds0 as [|c ds0]; [done|]. intros [= <-].
    exists post. rewrite app_empty_l. done.
  - intros (post & H & Hne & Hd & Hp). rewrite app_empty_l in H.
    assert (stripPrefix "Level " s = Some (ds +:+ post)) as ->
      by by apply stripPrefix_Some.
    assert (takeDigits (ds +:+ post) = (ds, post)) as ->
      by by apply takeDigits_spec.
    by destruct ds.
Qed.

Lemma matchLevel_unfold s :
  matchLevel s =
  match matchLevelHere s with
  | Some ds => Some ds
  | None => match s with String _ s' => matchLevel s' | EmptyString => None end
  end.
Proof. by destruct s. Qed.

Lemma LevelAt_cons c s pre ds post :
  LevelAt (String c s) (String c pre) ds post <-> LevelAt s pre ds post.
Proof.
  unfold LevelAt. rewrite app_cons. split.
  - intros ([= ->] & ?). done.
  - intros (-> & ?). done.
Qed.

Lemma LevelAt_nonempty s pre ds post :
  LevelAt s pre ds post -> exists c s', s = String c s'.
Proof.
  intros (-> & _). destruct pre as [|c pre]; [by eexists _, _|].
  rewrite app_cons. by eexists _, _.
Qed.

(** A match is the first "Level N" of the string. *)
Lemma matchLevel_first s ds : matchLevel s = Some ds -> FirstLevel s ds.
Proof.
  induction s as [|c s IH]; rewrite matchLevel_unfold.
  - destruct (matchLevelHere EmptyString) as [ds0|] eqn:E; [|done].
    apply matchLevelHere_Some in E as (post & H).
    by apply LevelAt_nonempty in H as (? & ? & ?).
  - destruct (matchLevelHere (String c s)) as [ds0|] eqn:E.
    + intros [= ->]. apply matchLevelHere_Some in E as (post & H).
      exists EmptyString, post. split; [done|]. intros; simpl; lia.
    + intros (pre & post & H & Hmin)%IH.
      exists (String c pre), post. split; [by apply LevelAt_cons|].
      intros pre' ds' post' H'. destruct pre' as [|c' pre'].
      * assert (matchLevelHere (String c s) = Some ds') as E'
          by (apply matchLevelHere_Some; eauto).
        congruence.
      * assert (c' = c) as -> by (destruct H' as (H' & _); by injection H').
        pose proof (proj1 (LevelAt_cons _ _ _ _ _) H') as H''.
        apply Hmin in H''. simpl. lia.
Qed.

(** The first "Level N" of the string is what the match returns. *)
Lemma first_matchLevel s ds : FirstLevel s ds -> matchLevel s = Some ds.
Proof.
  intros (pre & post & H & Hmin). revert s H Hmin.
  induction pre as [|c pre IH]; intros s H Hmin; rewrite matchLevel_unfold.
  - assert (matchLevelHere s = Some ds) as -> by (apply matchLevelHere_Some; eauto).
    done.
  - destruct (matchLevelHere s) as [ds0|] eqn:E.
    + apply matchLevelHere_Some in E as (post0 & H0).
      apply Hmin in H0. simpl in H0. lia.
    + destruct (LevelAt_nonempty _ _ _ _ H) as (c' & s' & ->).
      assert (c' = c) as -> by (destruct H as (H & _); by injection H).
      pose proof (proj1 (LevelAt_cons _ _ _ _ _) H) as H1.
      apply IH; [done|].
      intros pre' ds' post' H'.
      pose proof (proj2 (LevelAt_cons c _ _ _ _) H') as H''.
      apply Hmin in H''. simpl in H''. lia.
Qed.

Lemma LevelOccurs_LevelAt s :
  LevelOccurs s <-> exists pre ds post, LevelAt s pre ds post.
Proof.
  split.
  - intros (pre & d & post & -> & Hd).
    destruct (takeDigits post) as [ds rest] eqn:E.
    apply takeDigits_spec in E as (-> & Hds & Hrest).
    exists pre, (String d ds), rest.
    split; [by rewrite app_cons|]. split; [done|].
    split; [simpl; by rewrite Hd, Hds|done].
  - intros (pre & ds & post & -> & Hne & Hds & _).
    destruct ds as [|d ds]; [done|]. simpl in Hds.
    apply andb_true_iff in Hds as [Hd _].
    exists pre, d, (ds +:+ post). by rewrite app_cons.
Qed.

(** The match fails exactly when no "Level N" occurs. *)
Lemma matchLevel_None s : matchLevel s = None <-> ~ LevelOccurs s.
Proof.
  rewrite LevelOccurs_LevelAt. induction s as [|c s IH]; rewrite matchLevel_unfold.
  - destruct (matchLevelHere EmptyString) as [ds0|] eqn:E.
    + apply matchLevelHere_Some in E as (post & H).
      by apply LevelAt_nonempty in H as (? & ? & ?).
    + split; [|done]. intros _ (pre & ds & post & H).
      by apply LevelAt_nonempty in H as (? & ? & ?).
  - destruct (matchLevelHere (String c s)) as [ds0|] eqn:E.
    + split; [done|]. intros []. apply matchLevelHere_Some in E as (post & H). eauto.
    + rewrite IH. split.
      * intros Hn (pre & ds & post & H). destruct pre as [|c' pre].
        -- assert (matchLevelHere (String c s) = Some ds) as E'
             by (apply matchLevelHere_Some; eauto).
           congruence.
        -- assert (c' = c) as -> by (destruct H as (H & _); by injection H).
           pose proof (proj1 (LevelAt_cons _ _ _ _ _) H) as H1. eauto.
      * intros Hn (pre & ds & post & H). apply Hn.
        exists (String c pre), ds, post. by apply LevelAt_cons.
Qed.

(** The capture is a non-empty run of digits: [parseInt] never sees
    anything else. *)
Lemma matchLevel_digits s ds :
  matchLevel s = Some ds -> ds <> EmptyString /\ allDigits ds = true.
Proof. intros (pre & post & (_ & ? & ? & _) & _)%matchLevel_first. done. Qed.

Lemma parseIntFrom_decimal acc ds :
  parseIntFrom acc ds = acc * 10 ^ Z.of_nat (String.length ds) + decimalValue ds.
Proof.
  revert acc. induction ds as [|c ds IH]; intros acc; simpl String.length.
  - simpl. lia.
  - cbn [parseIntFrom decimalValue]. rewrite IH.
    rewrite Nat2Z.inj_succ, Z.pow_succ_r by lia. lia.
Qed.

Lemma parseInt_decimal ds : parseInt ds = decimalValue ds.
Proof. unfold parseInt. rewrite parseIntFrom_decimal. lia. Qed.

End LevelPattern.

(** ** Severity and urgency classification *)

Lemma resultsSeverityCategory_cases (n : Z) :
  (8 <= n -> resultsSeverityCategory n = "critical")
  /\ (6 <= n < 8 -> resultsSeverityCategory n = "high")
  /\ (n < 6 -> resultsSeverityCategory n = "moderate").
Proof.
  unfold resultsSeverityCategory.
  destruct (Z.leb_spec 8 n), (Z.leb_spec 6 n); repeat split; intros; (done || lia).
Qed.

Lemma severityLevel_first (tier ds : string) :
  FirstLevel tier ds -> severityLevel (Some tier) = decimalValue ds.
Proof.
  intros H%first_matchLevel. unfold severityLevel. simpl. rewrite H.
  apply parseInt_decimal.
Qed.

Lemma severityLevel_default (tier : string) :
  ~ LevelOccurs tier -> severityLevel (Some tier) = 5.
Proof. intros H%matchLevel_None. unfold severityLevel. simpl. by rewrite H. Qed.

(** C2. The severity level of a tier string is the decimal value N of its
    first "Level N", and 5 when the string has no "Level N" (one of the
    two is the case); a level of 8 or more is critical, 6 or 7 is high,
    anything else is moderate.
    "Level 9" is critical, "Level 7" high, "Level 3" moderate, and a
    string without the pattern moderate. *)
Theorem severity_classification :
  (forall tier ds, FirstLevel tier ds -> severityLevel (Some tier) = decimalValue ds)
  /\ (forall tier, ~ LevelOccurs tier -> severityLevel (Some tier) = 5)
  /\ (forall tier, (exists ds, FirstLevel tier ds) \/ ~ LevelOccurs tier)
  /\ (forall n, 8 <= n -> resultsSeverityCategory n = "critical")
  /\ (forall n, 6 <= n < 8 -> resultsSeverityCategory n = "high")
  /\ (forall n, n < 6 -> resultsSeverityCategory n = "moderate")
  /\ resultsSeverityCategory (severityLevel (Some "Level 9")) = "critical"
  /\ resultsSeverityCategory (severityLevel (Some "Level 7")) = "high"
  /\ resultsSeverityCategory (severityLevel (Some "Level 3")) = "moderate"
  /\ (forall tier, ~ LevelOccurs tier ->
        resultsSeverityCategory (severityLevel (Some tier)) = "moderate").
Proof.
  split; [apply severityLevel_first|]. split; [apply severityLevel_default|].
  split.
  { intros tier. destruct (matchLevel tier) as [ds|] eqn:E.
    - left. exists ds. by apply matchLevel_first.
    - right. by apply matchLevel_None. }
  split; [intros n; apply resultsSeverityCategory_cases|].
  split; [intros n; apply resultsSeverityCategory_cases|].
  split; [intros n; apply resultsSeverityCategory_cases|].
  repeat (split; [reflexivity|]).
  intros tier H. by rewrite severityLevel_default.
Qed.

(** The tier "Level 7": its first "Level N" has N = 7, which is high; the
    tier "Severe" has no "Level N": level 5, moderate; 9 is critical and
    3 is moderate. *)
Lemma severity_classification_witness :
  FirstLevel "Level 7" "7"
  /\ severityLevel (Some "Level 7") = 7
  /\ resultsSeverityCategory 7 = "high"
  /\ ~ LevelOccurs "Severe"
  /\ severityLevel (Some "Severe") = 5
  /\ resultsSeverityCategory (severityLevel (Some "Severe")) = "moderate"
  /\ resultsSeverityCategory 9 = "critical"
  /\ resultsSeverityCategory 3 = "moderate".
Proof.
  assert (FirstLevel "Level 7" "7") as HF.
  { exists EmptyString, EmptyString. split.
    - repeat split; done.
    - intros; simpl; lia. }
  assert (~ LevelOccurs "Severe") as HN.
  { apply matchLevel_None. reflexivity. }
  destruct severity_classification as (H1 & H2 & _ & H3 & H4 & H5 & _ & _ & _ & H6).
  split; [exact HF|]. split; [exact (H1 "Level 7" "7" HF)|].
  split; [apply (H4 7); lia|]. split; [exact HN|].
  split; [exact (H2 "Severe" HN)|]. split; [exact (H6 "Severe" HN)|].
  split; [apply (H3 9); lia|apply (H5 3); lia].
Defined.

(** C10. The parse is a substring search that never fails to return: it
    finds a match exactly when "Level " followed by a digit occurs
    somewhere in the tier, and then takes the whole run of digits of the
    first occurrence ("Level 10" is 10, hence critical); without such a
    substring, and when the tier is absent, the level is 5, moderate. *)
Theorem severity_parse_is_substring_search :
  (forall tier, is_Some (severityMatch (Some tier)) <-> LevelOccurs tier)
  /\ (forall tier ds, severityMatch (Some tier) = Some ds ->
        exists pre post,
          tier = pre +:+ "Level " +:+ ds +:+ post
          /\ ds <> EmptyString /\ allDigits ds = true
          /\ startsWithDigit post = false
          /\ severityLevel (Some tier) = decimalValue ds)
  /\ severityLevel (Some "Level 10") = 10
  /\ resultsSeverityCategory (severityLevel (Some "Level 10")) = "critical"
  /\ reportSeverityClass (severityLevel (Some "Level 10")) = "severity-critical"
  /\ (forall tier, ~ LevelOccurs tier ->
        severityLevel (Some tier) = 5
        /\ resultsSeverityCategory (severityLevel (Some tier)) = "moderate")
  /\ severityLevel None = 5
  /\ resultsSeverityCategory (severityLevel None) = "moderate".
Proof.
  split.
  { intros tier. simpl. destruct (matchLevel tier) as [ds|] eqn:E.
    - split; [|by eauto]. intros _. apply LevelOccurs_LevelAt.
      destruct (matchLevel_first _ _ E) as (pre & post & H & _). eauto.
    - apply matchLevel_None in E. split; [by intros [? [=]]|done]. }
  split.
  { intros tier ds H. simpl in H.
    destruct (matchLevel_first _ _ H) as (pre & post & (? & ? & ? & ?) & _).
    exists pre, post. repeat (split; [done|]).
    unfold severityLevel. simpl. rewrite H. apply parseInt_decimal. }
  repeat (split; [reflexivity|]).
  split; [|done].
  intros tier H. by rewrite severityLevel_default.
Qed.

(** The tier "Tier: Level 10 (max)": the match is "10", read from the
    substring in the middle of the string. *)
Lemma severity_parse_is_substring_search_witness :
  severityMatch (Some "Tier: Level 10 (max)") = Some "10"
  /\ exists pre post,
       "Tier: Level 10 (max)" = pre +:+ "Level " +:+ "10" +:+ post
       /\ "10" <> EmptyString /\ allDigits "10" = true
       /\ startsWithDigit post = false
       /\ severityLevel (Some "Tier: Level 10 (max)") = decimalValue "10".
Proof.
  split; [reflexivity|].
  apply (proj1 (proj2 severity_parse_is_substring_search)). reflexivity.
Defined.

Lemma includes_high (u : string) :
  includes (toLowerCase u) "high" = true <-> ContainsIgnoringCase "high" u.
Proof. by apply includes_toLowerCase. Qed.

Lemma includes_immediate (u : string) :
  includes (toLowerCase u) "immediate" = true <-> ContainsIgnoringCase "immediate" u.
Proof. by apply includes_toLowerCase. Qed.

(** C3. In the results view the urgency category of a checklist document
    is decided by case-insensitive substring tests, in this order: "high"
    if the urgency contains "high"; otherwise "immediate" if it contains
    "immediate"; otherwise "medium". A string with both words is "high". *)
Theorem urgency_classification (u : string) :
  (ContainsIgnoringCase "high" u -> resultsUrgencyCategory u = "high")
  /\ (~ ContainsIgnoringCase "high" u -> ContainsIgnoringCase "immediate" u ->
        resultsUrgencyCategory u = "immediate")
  /\ (~ ContainsIgnoringCase "high" u -> ~ ContainsIgnoringCase "immediate" u ->
        resultsUrgencyCategory u = "medium")
  /\ (ContainsIgnoringCase "high" u -> ContainsIgnoringCase "immediate" u ->
        resultsUrgencyCategory u = "high")
  /\ resultsUrgencyCategory "High priority, immediate" = "high"
  /\ resultsUrgencyCategory "Immediate action" = "immediate"
  /\ resultsUrgencyCategory "Medium term" = "medium".
Proof.
  unfold resultsUrgencyCategory.
  pose proof (includes_high u) as Hh. pose proof (includes_immediate u) as Hi.
  destruct (includes (toLowerCase u) "high");
    destruct (includes (toLowerCase u) "immediate");
    repeat split; try reflexivity; intros; try done;
    solve [ exfalso; tauto | exfalso; intuition congruence ].
Qed.

(** "High priority, immediate" contains "High" and "immediate";
    "Immediate action" contains "Immediate" and no "high"; "Medium term"
    contains neither. *)
Lemma urgency_classification_witness :
  ContainsIgnoringCase "high" "High priority, immediate"
  /\ ContainsIgnoringCase "immediate" "High priority, immediate"
  /\ resultsUrgencyCategory "High priority, immediate" = "high"
  /\ ~ ContainsIgnoringCase "high" "Immediate action"
  /\ ContainsIgnoringCase "immediate" "Immediate action"
  /\ resultsUrgencyCategory "Immediate action" = "immediate"
  /\ ~ ContainsIgnoringCase "high" "Medium term"
  /\ ~ ContainsIgnoringCase "immediate" "Medium term"
  /\ resultsUrgencyCategory "Medium term" = "medium".
Proof.
  assert (ContainsIgnoringCase "high" "High priority, immediate") as Hh.
  { exists EmptyString, "High", " priority, immediate". split; [reflexivity|].
    apply cv_upper; [reflexivity|]. repeat constructor. }
  assert (ContainsIgnoringCase "immediate" "High priority, immediate") as Hi.
  { exists "High priority, ", "immediate", EmptyString. split; [reflexivity|].
    repeat constructor. }
  assert (~ ContainsIgnoringCase "high" "Immediate action") as Hnh.
  { intros H%includes_high. vm_compute in H. discriminate H. }
  assert (ContainsIgnoringCase "immediate" "Immediate action") as Hi'.
  { exists EmptyString, "Immediate", " action". split; [reflexivity|].
    apply cv_upper; [reflexivity|]. repeat constructor. }
  assert (~ ContainsIgnoringCase "high" "Medium term") as Hnh'.
  { intros H%includes_high. vm_compute in H. discriminate H. }
  assert (~ ContainsIgnoringCase "immediate" "Medium term") as Hni.
  { intros H%includes_immediate. vm_compute in H. discriminate H. }
  split; [exact Hh|]. split; [exact Hi|].
  split; [exact (proj1 (urgency_classification _) Hh)|].
  split; [exact Hnh|]. split; [exact Hi'|].
  split; [exact (proj1 (proj2 (urgency_classification _)) Hnh Hi')|].
  split; [exact Hnh'|]. split; [exact Hni|].
  exact (proj1 (proj2 (proj2 (urgency_classification _))) Hnh' Hni).
Defined.

(** ** The two renderings of one analysis *)

(** C1, as stated, fails: for a document whose urgency is "Immediate
    action" the results view assigns "immediate" and the report assigns no
    category. *)
Lemma report_urgency_differs :
  ~ (forall doc, In doc (smart_document_checklist (sampleAnalysis "Level 8")) ->
       reportUrgencyCategory (urgency doc) = resultsUrgencyCategory (urgency doc)).
Proof.
  intros H. specialize (H _ (or_introl eq_refl)). vm_compute in H. discriminate H.
Qed.

(** C1, amended. From one analysis the two renderings give the badge the
    same severity class, and the report marks a checklist document as
    "high" exactly when the results view does; the report has no category
    for the documents that the results view calls "immediate" or
    "medium". *)
Theorem renderings_agree (r : AnalysisResult) :
  resultsSeverityBadgeClass r = reportSeverityBadgeClass r
  /\ (forall doc, In doc (smart_document_checklist r) ->
        (reportUrgencyCategory (urgency doc) = "high"
           <-> resultsUrgencyCategory (urgency doc) = "high")
        /\ (resultsUrgencyCategory (urgency doc) <> "high" ->
              reportUrgencyCategory (urgency doc) = ""))
  /\ Forall2 (fun report results =>
                report = "doc-urgency high" <-> results = "doc-urgency urgency-high")
        (reportChecklist r) (resultsChecklist r).
Proof.
  split; [|split].
  - unfold resultsSeverityBadgeClass, reportSeverityBadgeClass,
      resultsSeverityCategory, reportSeverityClass.
    destruct (8 <=? _); [reflexivity|]. destruct (6 <=? _); reflexivity.
  - intros doc _. unfold reportUrgencyCategory, resultsUrgencyCategory.
    destruct (includes (toLowerCase (urgency doc)) "high"); [done|].
    destruct (includes (toLowerCase (urgency doc)) "immediate"); done.
  - unfold reportChecklist, resultsChecklist.
    induction (smart_document_checklist r) as [|doc docs IH]; constructor; [|exact IH].
    unfold reportUrgencyClass, resultsUrgencyClass,
      reportUrgencyCategory, resultsUrgencyCategory.
    destruct (includes (toLowerCase (urgency doc)) "high"); [done|].
    destruct (includes (toLowerCase (urgency doc)) "immediate"); done.
Qed.

Lemma renderings_agree_witness :
  let r := sampleAnalysis "Level 8" in
  let doc := {| document := "Registered Sale Deed";
                source := "Sub-Registrar Office";
                urgency := "Immediate action" |} in
  In doc (smart_document_checklist r)
  /\ (reportUrgencyCategory (urgency doc) = "high"
        <-> resultsUrgencyCategory (urgency doc) = "high")
  /\ (resultsUrgencyCategory (urgency doc) <> "high" ->
        reportUrgencyCategory (urgency doc) = "").
Proof.
  intros r doc.
  assert (In doc (smart_document_checklist r)) as Hin by (left; reflexivity).
  split; [exact Hin|].
  exact (proj1 (proj2 (renderings_agree r)) doc Hin).
Defined.

(** ** The answers object *)

Section Answers.

Implicit Types (m : AnswerMap) (k : string) (a : answer).

Lemma lookup_insert_answer_eq m k a : <[k := a]> m !! k = Some a.
Proof.
  unfold insert, lookup, answerMap_insert, answerMap_lookup.
  induction m as [|[k' a'] m IH]; simpl.
  - by rewrite decide_True.
  - destruct (decide (k = k')) as [->|Hne]; simpl.
    + by rewrite decide_True.
    + by rewrite decide_False.
Qed.

Lemma lookup_insert_answer_ne m k k' a : k <> k' -> <[k := a]> m !! k' = m !! k'.
Proof.
  unfold insert, lookup, answerMap_insert, answerMap_lookup. intros Hne.
  induction m as [|[k0 a0] m IH]; simpl.
  - by rewrite decide_False.
  - destruct (decide (k = k0)) as [->|Hne0]; simpl.
    + by rewrite !decide_False.
    + destruct (decide (k' = k0)); [done|apply IH].
Qed.

End Answers.

(** ** Effects and what they leave alone *)

Section Frames.

Implicit Types (w : World) (eff : Effect) (effs : list Effect) (e : Event).

Lemma performAll_cons w eff effs :
  performAll w (eff :: effs) = performAll (perform w eff) effs.
Proof. reflexivity. Qed.

(** Timers are only ever added, at the end. *)
Lemma perform_timers w eff : exists new, timers (perform w eff) = timers w ++ new.
Proof.
  destruct eff; simpl; try (exists []; by rewrite app_nil_r). by eexists.
Qed.

Lemma performAll_timers w effs : exists new, timers (performAll w effs) = timers w ++ new.
Proof.
  revert w. induction effs as [|eff effs IH]; intros w.
  - exists []. by rewrite app_nil_r.
  - rewrite performAll_cons. destruct (IH (perform w eff)) as [new2 ->].
    destruct (perform_timers w eff) as [new1 ->].
    exists (new1 ++ new2). by rewrite app_assoc.
Qed.

Lemma performAll_timer_kept w effs tid t :
  timers w !! tid = Some t -> timers (performAll w effs) !! tid = Some t.
Proof.
  intros H. destruct (performAll_timers w effs) as [new ->].
  by apply lookup_app_l_Some.
Qed.

(** No event but its own firing touches a timer: nothing cancels it. *)
Lemma step_timer_kept w e w' tid t :
  step w e = Some w' -> e <> timer_fires tid ->
  timers w !! tid = Some t -> timers w' !! tid = Some t.
Proof.
  intros Hstep Hne Ht. destruct e; simpl in Hstep.
  - destruct (render (state w)); try done. case_match; [|done].
    injection Hstep as <-. by apply performAll_timer_kept.
  - destruct (render (state w)); try done. case_match; [|done].
    injection Hstep as <-. by apply performAll_timer_kept.
  - destruct (render (state w)); try done.
    injection Hstep as <-. by apply performAll_timer_kept.
  - destruct (render (state w)); try done.
    injection Hstep as <-. by apply performAll_timer_kept.
  - destruct (render (state w)); try done.
    injection Hstep as <-. by apply performAll_timer_kept.
  - destruct (timers w !! tid0) as [t0|] eqn:E; [|done]. case_match; [|done].
    injection Hstep as <-. apply performAll_timer_kept. simpl.
    rewrite list_lookup_alter_ne; [done|congruence].
  - destruct (fetches w !! fid) as [p|]; [|done]. case_match; [|done].
    injection Hstep as <-. by apply performAll_timer_kept.
  - by injection Hstep as <-.
Qed.

Lemma run_timer_kept w es w' tid t :
  run w es = Some w' -> timer_fires tid ∉ es ->
  timers w !! tid = Some t -> timers w' !! tid = Some t.
Proof.
  revert w. induction es as [|e es IH]; intros w Hrun Hnot Ht; simpl in Hrun.
  - by injection Hrun as <-.
  - apply not_elem_of_cons in Hnot as [Hne Hnot].
    destruct (step w e) as [w1|] eqn:E; [|done].
    eapply IH; [done..|]. eapply step_timer_kept; eauto.
Qed.

(** A timer that has run stays so: it is one-shot. *)
Lemma step_timer_fired w e w' tid t :
  step w e = Some w' -> timers w !! tid = Some t -> fired t = true ->
  exists t', timers w' !! tid = Some t' /\ fired t' = true.
Proof.
  intros Hstep Ht Hf.
  assert (forall tid0, exists t', timers (markFired tid0 w) !! tid = Some t' /\ fired t' = true)
    as Hmark.
  { intros tid0. simpl. destruct (decide (tid0 = tid)) as [->|Hne].
    - rewrite list_lookup_alter_eq, Ht. by eexists.
    - rewrite list_lookup_alter_ne by done. eauto. }
  destruct e; simpl in Hstep;
    repeat (case_match; try done); injection Hstep as <-;
    try (eexists; split; [by apply performAll_timer_kept|done]).
  - destruct (Hmark tid0) as (t' & Ht' & Hf').
    eexists; split; [by apply performAll_timer_kept|done].
  - eauto.
Qed.

Lemma run_timer_fired w es w' tid t :
  run w es = Some w' -> timers w !! tid = Some t -> fired t = true ->
  step w' (timer_fires tid) = None.
Proof.
  revert w t. induction es as [|e es IH]; intros w t Hrun Ht Hf; simpl in Hrun.
  - injection Hrun as <-. simpl. by rewrite Ht, Hf.
  - destruct (step w e) as [w1|] eqn:E; [|done].
    destruct (step_timer_fired _ _ _ _ _ E Ht Hf) as (t' & Ht' & Hf'). eauto.
Qed.

Lemma run_app w es1 es2 :
  run w (es1 ++ es2) = run w es1 ≫= fun w' => run w' es2.
Proof.
  revert w. induction es1 as [|e es1 IH]; intros w; simpl; [done|].
  destruct (step w e); [apply IH|done].
Qed.

End Frames.

(** ** The deferred auto-advance *)

Section AutoAdvance.

Implicit Types (w : World) (e : Event) (es : list Event).

(** A click on an option is possible only in the form, on an option of
    the current question, and runs [handleSelect]. *)
Lemma step_click_option w value w1 :
  step w (click_option value) = Some w1 ->
  exists question,
    render (state w) = FormView question (error (state w))
    /\ QUESTIONS !! currentQuestion (state w) = Some question
    /\ value ∈ options question
    /\ w1 = performAll w (handleSelect (state w) question value).
Proof.
  unfold step, render.
  destruct (analysisResult (state w)); [done|].
  destruct (isAnalyzing (state w)); [done|].
  destruct (QUESTIONS !! currentQuestion (state w)) as [q|]; [|done].
  case_bool_decide; [|done]. intros [= <-]. by exists q.
Qed.

Lemma last_question :
  exists question,
    QUESTIONS !! (length QUESTIONS - 1)%nat = Some question
    /\ id question = "desired_outcome" /\ type question = select.
Proof. eexists. split; [reflexivity|]. split; reflexivity. Qed.

(** What [handleSelect] does to the world on a single-select question. *)
Lemma handleSelect_select w question value :
  type question = select ->
  let w1 := performAll w (handleSelect (state w) question value) in
  answers (state w1) = <[id question := AString value]> (answers (state w))
  /\ currentQuestion (state w1) = currentQuestion (state w)
  /\ clock w1 = clock w
  /\ fetches w1 = fetches w
  /\ timers w1 = timers w ++ [ {| due := clock w + 100;
                                 callback := {| cap_currentQuestion := currentQuestion (state w);
                                                cap_answers := answers (state w);
                                                cap_id := id question;
                                                cap_value := value |};
                                 fired := false |} ].
Proof. intros Hty. unfold handleSelect. rewrite Hty. by repeat split. Qed.

(** A pending timer fires once the clock has reached its due time. *)
Lemma step_timer_fires w tid t :
  timers w !! tid = Some t -> fired t = false -> (due t <= clock w)%nat ->
  step w (timer_fires tid) = Some (performAll (markFired tid w) (autoAdvance (callback t))).
Proof.
  intros Ht Hf Hdue. unfold step. rewrite Ht, Hf.
  apply Nat.leb_le in Hdue. by rewrite Hdue.
Qed.

Lemma step_timer_early w tid t :
  timers w !! tid = Some t -> (clock w < due t)%nat ->
  step w (timer_fires tid) = None.
Proof.
  intros Ht Hdue. unfold step. rewrite Ht.
  apply Nat.leb_gt in Hdue. rewrite Hdue. by destruct (fired t).
Qed.

Lemma markFired_lookup w tid t :
  timers w !! tid = Some t ->
  timers (markFired tid w) !! tid
  = Some {| due := due t; callback := callback t; fired := true |}.
Proof. intros Ht. simpl. by rewrite list_lookup_alter_eq, Ht. Qed.

End AutoAdvance.

(** C5. A click on an option of the last question stores the selection and
    schedules the deferred callback; whatever happens before the callback
    runs, it posts exactly the answers of the render of the click with the
    selection added, and sets [isAnalyzing]: the request is a POST of JSON
    to the analyze path, and its body is taken from the closure, not from
    the state at the time of the post. In the body the selection is under
    the id of the last question, and every other key reads as it did in
    the render of the click. *)
Theorem last_question_auto_advance (w w1 : World) (value : string) :
  currentQuestion (state w) = (length QUESTIONS - 1)%nat ->
  step w (click_option value) = Some w1 ->
  let tid := length (timers w) in
  let finalAnswers := <["desired_outcome" := AString value]> (answers (state w)) in
  answers (state w1) = finalAnswers
  /\ finalAnswers !! "desired_outcome" = Some (AString value)
  /\ (forall k, k <> "desired_outcome" -> finalAnswers !! k = answers (state w) !! k)
  /\ forall es w2,
       run w1 es = Some w2 -> timer_fires tid ∉ es ->
       (clock w + 100 <= clock w2)%nat ->
       exists w3,
         step w2 (timer_fires tid) = Some w3
         /\ fetches w3
            = fetches w2 ++ [ {| request := {| req_path := "/api/v1/case/analyze";
                                               req_method := "POST";
                                               req_content_type := "application/json";
                                               req_body := finalAnswers |};
                                 issuedBy := bySubmitCaseWithAnswer;
                                 settled := false |} ]
         /\ (req_body ∘ request <$> fetches w3)
            = (req_body ∘ request <$> fetches w2) ++ [ finalAnswers ]
         /\ isAnalyzing (state w3) = true
         /\ error (state w3) = None
         /\ answers (state w3) = answers (state w2)
         /\ (analysisResult (state w2) = None ->
               submissionPhase (state w3) = submitting).
Proof.
  intros Hlast Hstep tid finalAnswers.
  destruct (step_click_option _ _ _ Hstep) as (q & _ & Hq & _ & ->).
  destruct last_question as (q' & Hq' & Hid & Hty).
  rewrite Hlast, Hq' in Hq. injection Hq as ->.
  destruct (handleSelect_select w q value Hty) as (Hans & _ & _ & _ & Htimers).
  rewrite Hid in Hans, Htimers.
  split; [exact Hans|]. split; [apply lookup_insert_answer_eq|].
  split; [intros k Hk; by apply lookup_insert_answer_ne|].
  intros es w2 Hrun Hnot Hclock.
  set (t := {| due := clock w + 100;
               callback := {| cap_currentQuestion := currentQuestion (state w);
                              cap_answers := answers (state w);
                              cap_id := "desired_outcome";
                              cap_value := value |};
               fired := false |}) in *.
  assert (timers w2 !! tid = Some t) as Ht.
  { eapply run_timer_kept; [done..|]. rewrite Htimers. apply list_lookup_middle. done. }
  eexists. split; [by apply step_timer_fires|].
  unfold autoAdvance. cbn [callback t cap_currentQuestion cap_id cap_value cap_answers].
  rewrite Hlast, Nat.ltb_irrefl.
  split; [reflexivity|].
  split; [unfold performAll; simpl; by rewrite fmap_app|].
  split; [reflexivity|]. split; [reflexivity|].
  split; [reflexivity|].
  intros Hres. unfold submissionPhase. unfold performAll. simpl. by rewrite Hres.
Qed.

Example eleven_answered :
  exists w, run initialWorld answerFirstEleven = Some w
    /\ currentQuestion (state w) = 11%nat
    /\ answers (state w) = elevenAnswers
    /\ fetches w = [].
Proof. eexists. split; [vm_compute; reflexivity|]. repeat split; vm_compute; reflexivity. Qed.

(** On the last question: the selection, then 40 ms, another option of
    the same question, and 60 ms more. The state then holds the second
    pick; the post of the first timer carries the first one, with the
    eleven answers of the moment of the click. *)
Lemma last_question_auto_advance_witness :
  exists w w1 w2 w3,
    run initialWorld answerFirstEleven = Some w
    /\ currentQuestion (state w) = 11%nat
    /\ step w (click_option "I want to sell and exit") = Some w1
    /\ run w1 thenAnotherOutcome = Some w2
    /\ answers (state w2) !! "desired_outcome"
       = Some (AString "I want to keep the land and use it")
    /\ step w2 (timer_fires 10) = Some w3
    /\ (req_body ∘ request <$> fetches w3)
       = [ <["desired_outcome" := AString "I want to sell and exit"]> elevenAnswers ]
    /\ (req_method ∘ request <$> fetches w3) = [ "POST" ].
Proof.
  assert (forall tid, timer_fires tid ∉ thenAnotherOutcome) as Hnot.
  { intros tid. unfold thenAnotherOutcome. rewrite !not_elem_of_cons.
    repeat split; try discriminate. apply not_elem_of_nil. }
  assert (exists w w1 w2,
            run initialWorld answerFirstEleven = Some w
            /\ step w (click_option "I want to sell and exit") = Some w1
            /\ run w1 thenAnotherOutcome = Some w2
            /\ currentQuestion (state w) = (length QUESTIONS - 1)%nat
            /\ (clock w + 100 <=? clock w2)%nat = true
            /\ length (timers w) = 10%nat
            /\ fetches w2 = []
            /\ answers (state w) = elevenAnswers
            /\ answers (state w2) !! "desired_outcome"
               = Some (AString "I want to keep the land and use it"))
    as (w & w1 & w2 & Hrun & E1 & E2 & Hlast & Hclock & Hlen & Hnone & Hans & Hstate).
  { eexists _, _, _. split; [vm_compute; reflexivity|]. split; [vm_compute; reflexivity|].
    split; [vm_compute; reflexivity|]. split; [vm_compute; reflexivity|].
    split; [vm_compute; reflexivity|]. split; [vm_compute; reflexivity|].
    split; [vm_compute; reflexivity|]. split; vm_compute; reflexivity. }
  destruct (last_question_auto_advance w w1 _ Hlast E1) as (_ & _ & _ & H).
  destruct (H _ w2 E2 (Hnot _) (proj1 (Nat.leb_le _ _) Hclock))
    as (w3 & Hfire & Hfetch & Hbody & _).
  exists w, w1, w2, w3.
  split. { exact Hrun. }
  split. { exact Hlast. }
  split. { exact E1. }
  split. { exact E2. }
  split. { exact Hstate. }
  rewrite Hlen in Hfire.
  split. { exact Hfire. }
  split. { rewrite Hbody, Hnone, Hans. reflexivity. }
  rewrite Hfetch, Hnone. reflexivity.
Defined.

(** C9. On a single-select question that is not the last, a click on an
    option schedules one timer, 100 ms ahead. No later event removes or
    changes it: it cannot run before its time, it can run at any moment
    from then on, whatever the user did in between, and it then sets the
    question index to the index of the render of the click plus one. Once
    it has run it never runs again. *)
Theorem auto_advance_not_cancellable
    (w w1 : World) (question : Question) (value : string) :
  QUESTIONS !! currentQuestion (state w) = Some question ->
  type question = select ->
  (currentQuestion (state w) < length QUESTIONS - 1)%nat ->
  step w (click_option value) = Some w1 ->
  let tid := length (timers w) in
  let t := {| due := clock w + 100;
              callback := {| cap_currentQuestion := currentQuestion (state w);
                             cap_answers := answers (state w);
                             cap_id := id question;
                             cap_value := value |};
              fired := false |} in
  timers w1 = timers w ++ [ t ]
  /\ forall es w2,
       run w1 es = Some w2 -> timer_fires tid ∉ es ->
       timers w2 !! tid = Some t
       /\ ((clock w2 < clock w + 100)%nat -> step w2 (timer_fires tid) = None)
       /\ ((clock w + 100 <= clock w2)%nat ->
             exists w3,
               step w2 (timer_fires tid) = Some w3
               /\ currentQuestion (state w3) = (currentQuestion (state w) + 1)%nat
               /\ answers (state w3) = answers (state w2)
               /\ fetches w3 = fetches w2
               /\ forall es' w4, run w3 es' = Some w4 ->
                    step w4 (timer_fires tid) = None).
Proof.
  intros Hq Hty Hlt Hstep tid t.
  destruct (step_click_option _ _ _ Hstep) as (q & _ & Hq' & _ & ->).
  rewrite Hq in Hq'. injection Hq' as <-.
  destruct (handleSelect_select w question value Hty) as (_ & _ & _ & _ & Htimers).
  split; [exact Htimers|].
  intros es w2 Hrun Hnot.
  assert (timers w2 !! tid = Some t) as Ht.
  { eapply run_timer_kept; [done..|]. rewrite Htimers. by apply list_lookup_middle. }
  split; [exact Ht|]. split.
  - intros Hearly. by eapply step_timer_early.
  - intros Hdue. eexists. split; [by apply step_timer_fires|].
    unfold autoAdvance. cbn [callback t cap_currentQuestion].
    apply Nat.ltb_lt in Hlt. rewrite Hlt.
    split; [reflexivity|]. split; [reflexivity|]. split; [reflexivity|].
    intros es' w4 Hrun'.
    eapply run_timer_fired; [exact Hrun'| |].
    + apply performAll_timer_kept. by apply markFired_lookup.
    + reflexivity.
Qed.

(** On the fourth question: the selection, then two clicks on Back and
    150 ms; the user is at the second question when the timer runs, and is
    taken to the fifth. *)
Lemma auto_advance_not_cancellable_witness :
  let w := worldAfter answerFirstThree in
  let w1 := worldAfter afterFourthSelection in
  let w2 := worldAfter (afterFourthSelection ++ thenBackTwice) in
  exists question w3,
    QUESTIONS !! currentQuestion (state w) = Some question
    /\ type question = select
    /\ currentQuestion (state w) = 3%nat
    /\ step w (click_option "Neighbor") = Some w1
    /\ run w1 thenBackTwice = Some w2
    /\ currentQuestion (state w2) = 1%nat
    /\ step w2 (timer_fires 3) = Some w3
    /\ currentQuestion (state w3) = 4%nat.
Proof.
  intros w w1 w2.
  assert (timer_fires (length (timers w)) ∉ thenBackTwice) as Hnot.
  { unfold thenBackTwice. rewrite !not_elem_of_cons.
    repeat split; try discriminate. apply not_elem_of_nil. }
  destruct (QUESTIONS !! currentQuestion (state w)) as [question|] eqn:Hq.
  2: { vm_compute in Hq. discriminate Hq. }
  assert (type question = select) as Hty.
  { vm_compute in Hq. injection Hq as <-. reflexivity. }
  assert (currentQuestion (state w) = 3%nat) as Hidx.
  { vm_compute. reflexivity. }
  assert (currentQuestion (state w) < length QUESTIONS - 1)%nat as Hlt.
  { rewrite Hidx. vm_compute. lia. }
  assert (length (timers w) = 3%nat) as Hlen.
  { vm_compute. reflexivity. }
  assert (clock w + 100 <= clock w2)%nat as Hclock.
  { vm_compute. lia. }
  assert (currentQuestion (state w2) = 1%nat) as Hidx2.
  { vm_compute. reflexivity. }
  assert (step w (click_option "Neighbor") = Some w1) as E1.
  { vm_compute. reflexivity. }
  assert (run w1 thenBackTwice = Some w2) as E2.
  { vm_compute. reflexivity. }
  destruct (auto_advance_not_cancellable w w1 question _ Hq Hty Hlt E1) as (_ & H).
  destruct (H _ w2 E2 Hnot) as (_ & _ & H3).
  destruct (H3 Hclock) as (w3 & Hfire & Hnext & _).
  exists question, w3.
  split. { reflexivity. }
  split. { exact Hty. }
  split. { exact Hidx. }
  split. { exact E1. }
  split. { exact E2. }
  split. { exact Hidx2. }
  rewrite Hlen in Hfire. split. { exact Hfire. }
  rewrite Hnext, Hidx. reflexivity.
Defined.

(** ** Submission *)


Lemma resume_no_fetch who o w :
  fetches (performAll w (resume who o)) = fetches w
  /\ timers (performAll w (resume who o)) = timers w.
Proof.
  destruct who, o as [cause|status [r|cause]]; simpl; try done;
    destruct (ok status); done.
Qed.

Lemma step_fetch_settles w fid p o :
  fetches w !! fid = Some p -> settled p = false ->
  step w (fetch_settles fid o)
  = Some (performAll (markSettled fid w) (resume (issuedBy p) o)).
Proof. intros Hp Hs. unfold step. by rewrite Hp, Hs. Qed.



(** After the failure the form is shown again with the message, and a
    click on "Analyze Case" posts the same twelve answers. *)
Example retry_after_failure :
  let w := worldAfter (answerAllTwelve ++ [ fetch_settles 0 networkDown; click_next ]) in
  request <$> fetches w = [ analyzeRequest twelveAnswers; analyzeRequest twelveAnswers ]
  /\ settled <$> fetches w = [ true; false ]
  /\ answers (state w) = twelveAnswers
  /\ submissionPhase (state w) = submitting.
Proof. vm_compute. done. Qed.

(** ** Starting a new case *)

(** The successful continuation stores the result and leaves
    [isAnalyzing] as the prologue set it. *)
Lemma success_keeps_isAnalyzing w fid p status r :
  fetches w !! fid = Some p -> settled p = false -> ok status = true ->
  exists w',
    step w (fetch_settles fid (Responded status (Parsed r))) = Some w'
    /\ analysisResult (state w') = Some r
    /\ isAnalyzing (state w') = isAnalyzing (state w)
    /\ render (state w') = ResultsView r.
Proof.
  intros Hp Hs Hok. eexists. split; [by apply step_fetch_settles|].
  destruct (issuedBy p); simpl; rewrite Hok; done.
Qed.

(** In the loading view with nothing pending, no control is on screen and
    no callback is left: only time passes. *)
Lemma loading_step w e w' :
  render (state w) = LoadingView -> quiescent w -> step w e = Some w' ->
  state w' = state w /\ quiescent w'.
Proof.
  intros Hview [Ht Hf] Hstep. destruct e; unfold step in Hstep;
    rewrite ?Hview in Hstep; try done.
  - destruct (timers w !! tid) as [t|] eqn:E; [|done].
    rewrite (proj1 (Forall_lookup _ _) Ht _ _ E) in Hstep. done.
  - destruct (fetches w !! fid) as [p|] eqn:E; [|done].
    rewrite (proj1 (Forall_lookup _ _) Hf _ _ E) in Hstep. done.
  - by injection Hstep as <-.
Qed.

Lemma loading_forever w es w' :
  render (state w) = LoadingView -> quiescent w -> run w es = Some w' ->
  state w' = state w.
Proof.
  revert w. induction es as [|e es IH]; intros w Hview Hq Hrun; simpl in Hrun.
  - by injection Hrun as <-.
  - destruct (step w e) as [w1|] eqn:E; [|done].
    destruct (loading_step _ _ _ Hview Hq E) as [Hst Hq1].
    rewrite <- Hst. apply IH; [by rewrite Hst|done..].
Qed.

(** C7, what the code does. "Start New Case" empties the answers, resets
    the index and drops the result, and it does not touch [isAnalyzing],
    which the submission set and its successful continuation left set:
    the component shows the loading view, not the first question, and
    with nothing pending it shows it for ever. *)
Theorem start_new_case_shows_loading (w : World) (r : AnalysisResult) :
  render (state w) = ResultsView r -> isAnalyzing (state w) = true ->
  exists w',
    step w click_start_new_case = Some w'
    /\ answers (state w') = ∅
    /\ currentQuestion (state w') = 0%nat
    /\ analysisResult (state w') = None
    /\ isAnalyzing (state w') = true
    /\ render (state w') = LoadingView
    /\ submissionPhase (state w') = submitting
    /\ (quiescent w ->
          forall es w'', run w' es = Some w'' -> render (state w'') = LoadingView).
Proof.
  intros Hview Han. eexists. unfold step at 1. rewrite Hview.
  split; [reflexivity|].
  assert (render (state (performAll w startNewCase)) = LoadingView) as Hload.
  { unfold render, performAll. simpl. by rewrite Han. }
  repeat (split; [first [reflexivity | exact Han | exact Hload
                        | unfold submissionPhase, performAll; simpl; by rewrite Han]|]).
  intros Hq es w'' Hrun.
  by rewrite (loading_forever _ _ _ Hload Hq Hrun).
Qed.

(** The whole session: twelve answers, a 200 response, "Start New Case".
    Nothing is pending any more, and the loading view is there to stay. *)
Lemma start_new_case_shows_loading_witness :
  let r := sampleAnalysis "Level 8" in
  let w := worldAfter (answerAllTwelve ++ [ fetch_settles 0 (Responded 200 (Parsed r)) ]) in
  render (state w) = ResultsView r /\ isAnalyzing (state w) = true /\ quiescent w
  /\ exists w',
       step w click_start_new_case = Some w'
       /\ answers (state w') = ∅
       /\ currentQuestion (state w') = 0%nat
       /\ render (state w') = LoadingView
       /\ forall es w'', run w' es = Some w'' -> render (state w'') = LoadingView.
Proof.
  intros r w.
  assert (render (state w) = ResultsView r) as Hview.
  { vm_compute. reflexivity. }
  assert (isAnalyzing (state w) = true) as Han.
  { vm_compute. reflexivity. }
  assert (quiescent w) as Hq.
  { split; vm_compute; repeat constructor. }
  split. { exact Hview. }
  split. { exact Han. }
  split. { exact Hq. }
  destruct (start_new_case_shows_loading w r Hview Han)
    as (w' & Hstep & Hans & Hidx & _ & _ & Hload & _ & Hever).
  exists w'. repeat (split; [assumption|]). exact (Hever Hq).
Defined.

(** ** The answers invariant *)

Section Invariant.

Implicit Types (w : World) (q : Question) (m : AnswerMap) (v k : string).

Lemma question_ids_distinct q q' :
  q ∈ QUESTIONS -> q' ∈ QUESTIONS -> id q = id q' -> q = q'.
Proof.
  assert (NoDup (id <$> QUESTIONS)) as Hnd.
  { compute_done. }
  revert Hnd. generalize QUESTIONS. intros l Hnd Hq Hq' Hid.
  induction l as [|x l IH]; [by apply elem_of_nil in Hq|].
  rewrite fmap_cons in Hnd. apply NoDup_cons in Hnd as [Hx Hnd].
  apply elem_of_cons in Hq as [->|Hq]; apply elem_of_cons in Hq' as [->|Hq'].
  - done.
  - exfalso. apply Hx. rewrite Hid. by apply list_elem_of_fmap_2.
  - exfalso. apply Hx. rewrite <- Hid. by apply list_elem_of_fmap_2.
  - by apply IH.
Qed.

Lemma arrayIncludes_true (l : list string) v : arrayIncludes l v = true <-> v ∈ l.
Proof.
  unfold arrayIncludes, string_eqb. rewrite existsb_exists. split.
  - intros (x & Hx & Heq). apply bool_decide_eq_true in Heq as ->.
    by apply list_elem_of_In.
  - intros Hv. exists v. split; [by apply list_elem_of_In|].
    by apply bool_decide_eq_true.
Qed.

Lemma arrayWithout_spec (l : list string) v x :
  x ∈ arrayWithout l v <-> x ∈ l /\ x <> v.
Proof.
  unfold arrayWithout, string_eqb. rewrite !list_elem_of_In, filter_In.
  rewrite negb_true_iff, bool_decide_eq_false. done.
Qed.

Lemma handleSelect_answers w q v :
  answers (state (performAll w (handleSelect (state w) q v))) = selected (state w) q v.
Proof.
  unfold selected, handleSelect.
  destruct (type q); [done|].
  destruct (answers (state w) !! id q) as [[[|c s]|l]|]; try done.
  - destruct (includes _ _); done.
  - destruct (arrayIncludes _ _); done.
Qed.

(** [handleSelect] writes the property of the current question only. *)
Lemma selected_other st q v k :
  k <> id q -> selected st q v !! k = answers st !! k.
Proof.
  intros Hne. unfold selected, handleSelect.
  destruct (type q); [by rewrite lookup_insert_answer_ne|].
  destruct (answers st !! id q) as [[[|c s]|l]|]; try by rewrite lookup_insert_answer_ne.
  - destruct (includes _ _); [done|by rewrite lookup_insert_answer_ne].
  - destruct (arrayIncludes _ _); by rewrite lookup_insert_answer_ne.
Qed.

Lemma selected_well_typed st q v :
  q ∈ QUESTIONS -> v ∈ options q ->
  answersWellTyped (answers st) -> answersWellTyped (selected st q v).
Proof.
  intros Hq Hv Hwt k a Hk.
  destruct (decide (k = id q)) as [->|Hne].
  2: { rewrite selected_other in Hk by done. by apply Hwt. }
  exists q. split; [done|]. split; [done|].
  revert Hk. unfold selected, handleSelect, answerWellTyped.
  destruct (type q) eqn:Hty.
  { rewrite lookup_insert_answer_eq. by intros [= <-]. }
  destruct (answers st !! id q) as [a0|] eqn:Hcur.
  2: { rewrite lookup_insert_answer_eq. intros [= <-].
       split; [apply NoDup_singleton|by apply Forall_singleton]. }
  destruct (Hwt _ _ Hcur) as (q' & Hq' & Hid & Hty').
  assert (q' = q) as -> by by apply question_ids_distinct.
  unfold answerWellTyped in Hty'. rewrite Hty in Hty'.
  destruct a0 as [s|l]; [done|]. destruct Hty' as [Hnd Hall].
  destruct (arrayIncludes l v) eqn:Hinc; rewrite lookup_insert_answer_eq; intros [= <-].
  - split.
    + by apply NoDup_ListNoDup, List.NoDup_filter, NoDup_ListNoDup.
    + apply Forall_forall. intros x [Hx _]%arrayWithout_spec.
      by eapply Forall_forall in Hall.
  - split.
    + apply NoDup_app. split; [done|]. split; [|apply NoDup_singleton].
      intros x Hx ->%list_elem_of_singleton.
      apply arrayIncludes_true in Hx. congruence.
    + apply Forall_app. split; [done|by apply Forall_singleton].
Qed.

(** What an event does to the answers: nothing, a reset, or a selection
    on the question on screen. *)
Lemma step_answers w e w' :
  step w e = Some w' ->
  answers (state w') = answers (state w)
  \/ answers (state w') = ∅
  \/ exists v q,
       e = click_option v
       /\ render (state w) = FormView q (error (state w))
       /\ QUESTIONS !! currentQuestion (state w) = Some q
       /\ v ∈ options q
       /\ answers (state w') = selected (state w) q v.
Proof.
  intros Hstep. destruct e.
  - destruct (step_click_option _ _ _ Hstep) as (q & Hview & Hq & Hv & ->).
    right; right. exists value, q. by rewrite handleSelect_answers.
  - left. unfold step in Hstep. destruct (render (state w)); try done.
    destruct (canProceed _ _); [|done]. injection Hstep as <-.
    unfold handleNext. by destruct (_ <? _)%nat.
  - left. unfold step in Hstep. destruct (render (state w)); try done.
    injection Hstep as <-. unfold handleBack. by destruct (_ <? _)%nat.
  - right; left. unfold step in Hstep. destruct (render (state w)); try done.
    by injection Hstep as <-.
  - left. unfold step in Hstep. destruct (render (state w)); try done.
    by injection Hstep as <-.
  - left. unfold step in Hstep. destruct (timers w !! tid) as [t|]; [|done].
    destruct (_ && _); [|done]. injection Hstep as <-.
    unfold autoAdvance. by destruct (_ <? _)%nat.
  - left. unfold step in Hstep. destruct (fetches w !! fid) as [p|]; [|done].
    destruct (negb _); [|done]. injection Hstep as <-.
    destruct (issuedBy p), o as [cause|status [r|cause]]; simpl; try done;
      by destruct (ok status).
  - left. by injection Hstep as <-.
Qed.

Lemma run_snoc w es e w' :
  run w (es ++ [e]) = Some w' <-> exists w0, run w es = Some w0 /\ step w0 e = Some w'.
Proof.
  rewrite run_app. destruct (run w es) as [w0|]; simpl.
  - destruct (step w0 e) as [w1|] eqn:E; split.
    + intros [= <-]. eauto.
    + intros (? & [= <-] & H). congruence.
    + done.
    + intros (? & [= <-] & H). congruence.
  - split; [done|]. by intros (? & ? & _).
Qed.

Lemma elem_of_lookup_question (i : nat) q : QUESTIONS !! i = Some q -> q ∈ QUESTIONS.
Proof. apply list_elem_of_lookup_2. Qed.

Lemma reachable_well_typed es w :
  run initialWorld es = Some w -> answersWellTyped (answers (state w)).
Proof.
  revert w. induction es as [|e es IH] using rev_ind; intros w.
  - intros [= <-] k a Hk. done.
  - intros (w0 & Hrun & Hstep)%run_snoc. specialize (IH _ Hrun).
    destruct (step_answers _ _ _ Hstep) as [->|[->|(v & q & _ & _ & Hq & Hv & ->)]].
    + done.
    + intros k a Hk. done.
    + apply selected_well_typed; [by eapply elem_of_lookup_question|done..].
Qed.

Lemma selectionMade_snoc es e k : selectionMade es k -> selectionMade (es ++ [e]) k.
Proof.
  intros (es1 & v & es2 & w & q & err & -> & ?).
  exists es1, v, (es2 ++ [e]), w, q, err. split; [|done].
  by rewrite <- app_assoc.
Qed.

Lemma reachable_keys_selected es w k :
  run initialWorld es = Some w -> is_Some (answers (state w) !! k) ->
  selectionMade es k.
Proof.
  revert w. induction es as [|e es IH] using rev_ind; intros w.
  - intros [= <-] [a Ha]. done.
  - intros (w0 & Hrun & Hstep)%run_snoc Hk.
    destruct (step_answers _ _ _ Hstep) as [E|[E|(v & q & -> & Hview & Hq & Hv & E)]];
      rewrite E in Hk.
    + apply selectionMade_snoc. by eapply IH.
    + by destruct Hk.
    + destruct (decide (k = id q)) as [->|Hne].
      * exists es, v, [], w0, q, (error (state w0)). done.
      * rewrite selected_other in Hk by done.
        apply selectionMade_snoc. by eapply IH.
Qed.

End Invariant.

(** C4, as stated, fails: after the only selected option of the
    multi-select question is switched off, the key is still there and its
    value is the empty array. *)
Lemma empty_selection_keeps_key :
  exists w,
    run initialWorld toggleWillTwice = Some w
    /\ answers (state w) !! "documents_held" = Some (AArray [])
    /\ ~ (forall k l, answers (state w) !! k = Some (AArray l) -> l <> []).
Proof.
  eexists. split; [vm_compute; reflexivity|]. split; [reflexivity|].
  intros H. by apply (H "documents_held" []).
Qed.

(** C4, amended. After every sequence of events: a key of the answers is
    the id of a question for which the user clicked an option while it was
    on screen; the value of a single-select question is one of its
    options, the value of a multi-select question is a duplicate-free
    array of its options. Switching off the only selected option of a
    multi-select question leaves the key with the empty array, which
    [canProceed] treats as no answer. *)
Theorem answers_invariant (es : list Event) (w : World) :
  run initialWorld es = Some w ->
  (forall k, is_Some (answers (state w) !! k) -> selectionMade es k)
  /\ answersWellTyped (answers (state w))
  /\ (forall question err value,
        render (state w) = FormView question err ->
        type question = multiselect ->
        value ∈ options question ->
        answers (state w) !! id question = Some (AArray [ value ]) ->
        exists w',
          step w (click_option value) = Some w'
          /\ answers (state w') !! id question = Some (AArray [])
          /\ canProceed (state w') question = false).
Proof.
  intros Hrun. split; [|split].
  - intros k Hk. by eapply reachable_keys_selected.
  - by eapply reachable_well_typed.
  - intros q err v Hview Hty Hv Hcur. eexists.
    unfold step at 1. rewrite Hview, bool_decide_eq_true_2 by done.
    split; [reflexivity|].
    assert (selected (state w) q v = <[id q := AArray []]> (answers (state w))) as Hsel.
    { unfold selected, handleSelect. rewrite Hty, Hcur.
      unfold arrayIncludes, arrayWithout, string_eqb. simpl.
      by rewrite !bool_decide_eq_true_2. }
    unfold canProceed. rewrite Hty, handleSelect_answers, Hsel.
    by rewrite lookup_insert_answer_eq.
Qed.

(** The run that switches "Will" on: the key is there because of that
    click, and a second click on "Will" leaves the empty array. *)
Lemma answers_invariant_witness :
  let es := take 21 answerFirstEleven ++ [ click_option "Will" ] in
  let w := worldAfter es in
  run initialWorld es = Some w
  /\ selectionMade es "documents_held"
  /\ answersWellTyped (answers (state w))
  /\ exists question w',
       QUESTIONS !! 7%nat = Some question
       /\ step w (click_option "Will") = Some w'
       /\ answers (state w') !! id question = Some (AArray [])
       /\ canProceed (state w') question = false.
Proof.
  intros es w.
  assert (run initialWorld es = Some w) as Hrun.
  { vm_compute. reflexivity. }
  destruct (answers_invariant es w Hrun) as (Hkeys & Hwt & Htoggle).
  split. { exact Hrun. }
  split. { apply Hkeys. vm_compute. eauto. }
  split. { exact Hwt. }
  assert (exists question,
            QUESTIONS !! 7%nat = Some question
            /\ type question = multiselect
            /\ id question = "documents_held"
            /\ "Will" ∈ options question) as (question & Hq & Hty & Hid & Hopt).
  { eexists. split; [reflexivity|]. split; [reflexivity|]. split; [reflexivity|].
    compute_done. }
  assert (render (state w) = FormView question None) as Hview.
  { assert (analysisResult (state w) = None) as Hres by (vm_compute; reflexivity).
    assert (isAnalyzing (state w) = false) as Han by (vm_compute; reflexivity).
    assert (currentQuestion (state w) = 7%nat) as Hidx by (vm_compute; reflexivity).
    assert (error (state w) = None) as Herr by (vm_compute; reflexivity).
    unfold render. rewrite Hres, Han, Hidx, Hq, Herr. reflexivity. }
  assert (answers (state w) !! id question = Some (AArray [ "Will" ])) as Hcur.
  { rewrite Hid. vm_compute. reflexivity. }
  destruct (Htoggle question None "Will" Hview Hty Hopt Hcur) as (w' & Hstep & Hempty & Hcan).
  exists question, w'. split; [exact Hq|]. split; [exact Hstep|].
  split; [exact Hempty|exact Hcan].
Defined.

(** ** The question index *)

Lemma step_index_in_range w e w' :
  step w e = Some w' -> indexInRange w -> indexInRange w'.
Proof.
  intros Hstep [Hidx Hcap]. destruct e; unfold step in Hstep.
  - destruct (render (state w)) as [| |q err|]; try done.
    case_bool_decide; [|done]. injection Hstep as <-.
    unfold handleSelect. destruct (type q).
    + split; [done|]. apply Forall_app. split; [done|]. by apply Forall_singleton.
    + destruct (answers (state w) !! id q) as [[[|c s]|l]|]; try done.
      * by destruct (includes _ _).
      * by destruct (arrayIncludes _ _).
  - destruct (render (state w)); try done. destruct (canProceed _ _); [|done].
    injection Hstep as <-. unfold handleNext.
    destruct (_ <? _)%nat eqn:E; [|done].
    apply Nat.ltb_lt in E. split; [|done].
    unfold performAll. simpl in *. lia.
  - destruct (render (state w)); try done. injection Hstep as <-.
    unfold handleBack. destruct (_ <? _)%nat; [|done].
    split; [|done]. unfold performAll. simpl in *. lia.
  - destruct (render (state w)); try done. injection Hstep as <-.
    split; [|done]. unfold performAll. simpl. lia.
  - destruct (render (state w)); try done. by injection Hstep as <-.
  - destruct (timers w !! tid) as [t|] eqn:Et; [|done].
    destruct (_ && _); [|done]. injection Hstep as <-.
    assert (Forall (fun t => (cap_currentQuestion (callback t) < length QUESTIONS)%nat)
              (timers (markFired tid w))) as Hcap'.
    { simpl. apply Forall_alter; [done|]. intros t0 _. simpl.
      intros H. exact H. }
    unfold autoAdvance. destruct (_ <? _)%nat eqn:E; [|done].
    apply Nat.ltb_lt in E. split; [|done].
    unfold performAll. simpl in *. lia.
  - destruct (fetches w !! fid) as [p|]; [|done]. destruct (negb _); [|done].
    injection Hstep as <-.
    destruct (issuedBy p), o as [cause|status [r|cause]]; simpl; try done;
      by destruct (ok status).
  - by injection Hstep as <-.
Qed.

Lemma reachable_index_in_range es w :
  run initialWorld es = Some w -> indexInRange w.
Proof.
  assert (forall w0, indexInRange w0 -> run w0 es = Some w -> indexInRange w) as H.
  { induction es as [|e es IH]; intros w0 Hinv Hrun; simpl in Hrun.
    - by injection Hrun as <-.
    - destruct (step w0 e) as [w1|] eqn:E; [|done].
      eapply IH; [|done]. by eapply step_index_in_range. }
  apply H. split; [vm_compute; lia|constructor].
Qed.

(** The form is never broken: in a reachable world the component shows
    the results, the loading view or a question. *)
Lemma reachable_not_broken es w :
  run initialWorld es = Some w -> render (state w) <> BrokenView.
Proof.
  intros [Hidx _]%reachable_index_in_range. unfold render.
  destruct (analysisResult (state w)); [done|].
  destruct (isAnalyzing (state w)); [done|].
  destruct (QUESTIONS !! currentQuestion (state w)) eqn:E; [done|].
  apply lookup_ge_None in E. lia.
Qed.

(** ** End to end *)

(** C8, as stated, fails: the catalog has twelve questions. After eleven
    answers the twelfth question is on screen, nothing has been posted,
    and "Analyze Case" is disabled. *)
Lemma eleven_answers_do_not_submit :
  length QUESTIONS <> 11%nat
  /\ exists w question,
       run initialWorld answerFirstEleven = Some w
       /\ length (answers (state w)) = 11%nat
       /\ render (state w) = FormView question None
       /\ id question = "desired_outcome"
       /\ fetches w = []
       /\ step w click_next = None.
Proof.
  split; [vm_compute; lia|].
  eexists _, _. split; [vm_compute; reflexivity|].
  repeat split; reflexivity.
Qed.

Lemma run_cons_Some w e w' es : step w e = Some w' -> run w (e :: es) = run w' es.
Proof. intros H. simpl. by rewrite H. Qed.

Lemma run_click_option w question err value es :
  render (state w) = FormView question err ->
  value ∈ options question ->
  run w (click_option value :: es)
  = run (performAll w (handleSelect (state w) question value)) es.
Proof.
  intros Hview Hv. apply run_cons_Some. unfold step.
  by rewrite Hview, bool_decide_eq_true_2.
Qed.

Ltac run_one :=
  first
    [ erewrite run_click_option; [| vm_compute; reflexivity | eassumption ]
    | erewrite run_cons_Some; [| vm_compute; reflexivity ] ].

Example answerAllTwelve_in_turn :
  answerAllTwelve
  = answerInTurn 0 QUESTIONS
      [ "Maharashtra"; "Agricultural Land"; "I am in possession"; "Neighbor";
        "They are blocking my access/pathway"; "Don't Know"; "My name"; "Will";
        "No legal action yet"; "No immediate threat"; "3-12 years ago";
        "I want to sell and exit" ].
Proof. reflexivity. Qed.

Lemma answer_all_in_turn (picks : list string) :
  Forall2 (fun q v => v ∈ options q) QUESTIONS picks ->
  exists w,
    run initialWorld (answerInTurn 0 QUESTIONS picks) = Some w
    /\ fetches w = [ {| request := analyzeRequest (answersOf QUESTIONS picks);
                        issuedBy := bySubmitCaseWithAnswer;
                        settled := false |} ]
    /\ state w = {| currentQuestion := 11;
                    answers := answersOf QUESTIONS picks;
                    isAnalyzing := true;
                    analysisResult := None;
                    error := None |}.
Proof.
  unfold QUESTIONS. intros H.
  repeat match goal with
         | H : Forall2 _ (_ :: _) _ |- _ =>
             apply Forall2_cons_inv_l in H as (? & ? & ? & H & ->)
         | H : Forall2 _ [] _ |- _ => apply Forall2_nil_inv_l in H as ->
         end.
  cbn [answerInTurn answerEvents type app].
  repeat run_one.
  eexists. split; [reflexivity|]. split; vm_compute; reflexivity.
Qed.

Lemma answersOf_keys (qs : list Question) (picks : list string) :
  length qs = length picks -> (answersOf qs picks).*1 = id <$> qs.
Proof.
  revert picks. induction qs as [|q qs IH]; intros [|v picks] Hlen; try done.
  unfold answersOf. simpl. f_equal. apply IH. by injection Hlen.
Qed.

(** C8, amended. The catalog has twelve questions. When the user answers
    all twelve in turn, whatever option is chosen for each, the deferred
    callback of the last selection posts the twelve answers; when the
    response is 200 with a result whose tier is "Level 8", the results
    view shows that result, and the badge is critical in the results view
    and in the report. *)
Theorem twelve_answers_level_8_critical (picks : list string) (r : AnalysisResult) :
  Forall2 (fun q v => v ∈ options q) QUESTIONS picks ->
  severity_tier (case_analysis r) = Some "Level 8" ->
  length QUESTIONS = 12%nat
  /\ exists w1 w2,
       run initialWorld (answerInTurn 0 QUESTIONS picks) = Some w1
       /\ (req_body ∘ request <$> fetches w1) = [ answersOf QUESTIONS picks ]
       /\ (answersOf QUESTIONS picks).*1 = id <$> QUESTIONS
       /\ submissionPhase (state w1) = submitting
       /\ step w1 (fetch_settles 0 (Responded 200 (Parsed r))) = Some w2
       /\ render (state w2) = ResultsView r
       /\ submissionPhase (state w2) = succeeded
       /\ resultsSeverityBadgeClass r = "severity-badge severity-critical"
       /\ reportSeverityBadgeClass r = "severity-badge severity-critical".
Proof.
  intros Hpicks Htier. split; [reflexivity|].
  destruct (answer_all_in_turn picks Hpicks) as (w1 & Hrun & Hfetch & Hstate).
  eexists w1, _. split; [exact Hrun|].
  split. { by rewrite Hfetch. }
  split. { apply answersOf_keys. by eapply Forall2_length. }
  split. { by rewrite Hstate. }
  split. { unfold step. rewrite Hfetch. reflexivity. }
  split. { reflexivity. }
  split. { reflexivity. }
  unfold resultsSeverityBadgeClass, reportSeverityBadgeClass. rewrite Htier.
  split; reflexivity.
Qed.

Lemma twelve_answers_level_8_critical_witness :
  let r := sampleAnalysis "Level 8" in
  Forall2 (fun q v => v ∈ options q) QUESTIONS twelvePicks
  /\ severity_tier (case_analysis r) = Some "Level 8"
  /\ answerInTurn 0 QUESTIONS twelvePicks = answerAllTwelve
  /\ answersOf QUESTIONS twelvePicks = twelveAnswers
  /\ exists w1 w2,
       run initialWorld (answerInTurn 0 QUESTIONS twelvePicks) = Some w1
       /\ step w1 (fetch_settles 0 (Responded 200 (Parsed r))) = Some w2
       /\ render (state w2) = ResultsView r
       /\ resultsSeverityBadgeClass r = "severity-badge severity-critical"
       /\ reportSeverityBadgeClass r = "severity-badge severity-critical".
Proof.
  intros r.
  assert (Forall2 (fun q v => v ∈ options q) QUESTIONS twelvePicks) as Hpicks.
  { unfold QUESTIONS, twelvePicks. repeat constructor; compute_done. }
  split. { exact Hpicks. }
  split. { reflexivity. }
  split. { reflexivity. }
  split. { reflexivity. }
  destruct (twelve_answers_level_8_critical twelvePicks r Hpicks eq_refl)
    as (_ & w1 & w2 & Hrun & _ & _ & _ & Hstep & Hview & _ & Hres & Hrep).
  exists w1, w2. repeat split; assumption.
Defined.

(** * Further properties of the wizard *)

(** ** Selecting and toggling options *)

Section Selection.

Implicit Types (w : World) (st : State) (q : Question) (v : string).

Lemma render_form_state st q err :
  render st = FormView q err ->
  QUESTIONS !! currentQuestion st = Some q /\ q ∈ QUESTIONS
  /\ analysisResult st = None /\ isAnalyzing st = false
  /\ err = error st.
Proof.
  unfold render. destruct (analysisResult st); [done|].
  destruct (isAnalyzing st); [done|].
  destruct (QUESTIONS !! currentQuestion st) as [q'|] eqn:E; [|done].
  intros [= -> ->]. repeat split; try done. by eapply elem_of_lookup_question.
Qed.

Lemma render_form_question w q err :
  render (state w) = FormView q err ->
  QUESTIONS !! currentQuestion (state w) = Some q /\ q ∈ QUESTIONS
  /\ analysisResult (state w) = None /\ isAnalyzing (state w) = false
  /\ err = error (state w).
Proof. apply render_form_state. Qed.

Lemma options_not_empty_string q v : q ∈ QUESTIONS -> v ∈ options q -> v <> EmptyString.
Proof.
  assert (Forall (fun q => Forall (fun o => o <> EmptyString) (options q)) QUESTIONS) as H.
  { compute_done. }
  intros Hq Hv. eapply Forall_forall in H; [|exact Hq].
  eapply Forall_forall in H; [|exact Hv]. done.
Qed.

(** The click of [step] is the click on a button of the current render. *)
Lemma clickOptionOf_current w v :
  step w (click_option v) = clickOptionOf (state w) w v.
Proof. reflexivity. Qed.

Lemma clickOptionOf_Some st w v w1 q err :
  render st = FormView q err ->
  clickOptionOf st w v = Some w1 ->
  v ∈ options q /\ w1 = performAll w (handleSelect st q v).
Proof.
  unfold clickOptionOf. intros ->. case_bool_decide; [|done]. by intros [= <-].
Qed.

End Selection.

(** X1. A click on an option button of a single-select question, drawn by
    the render of [st]. The answers become those of that render with the
    option under the id of the question: the option is then the selected
    one and the only one of that question, Next is enabled for it, and
    every other key reads as in that render, so an answer given since
    then is lost. The question index stays, and one timer of 100 ms
    is set, which holds the index and the answers of that render. When
    the render is the current one this is the click of [step]. *)
Theorem select_option_selects
    (st : State) (w w1 : World) (question : Question) (err : option string)
    (value : string) :
  render st = FormView question err ->
  type question = select ->
  clickOptionOf st w value = Some w1 ->
  answers (state w1) = <[id question := AString value]> (answers st)
  /\ isSelected (state w1) question value = true
  /\ (forall other, other <> value -> isSelected (state w1) question other = false)
  /\ canProceed (state w1) question = true
  /\ (forall k, k <> id question -> answers (state w1) !! k = answers st !! k)
  /\ currentQuestion (state w1) = currentQuestion (state w)
  /\ timers w1
     = timers w ++ [ {| due := clock w + 100;
                        callback := {| cap_currentQuestion := currentQuestion st;
                                       cap_answers := answers st;
                                       cap_id := id question;
                                       cap_value := value |};
                        fired := false |} ]
  /\ (st = state w -> step w (click_option value) = Some w1).
Proof.
  intros Hview Hty Hclick.
  destruct (render_form_state _ _ _ Hview) as (_ & Hin & _).
  destruct (clickOptionOf_Some _ _ _ _ _ _ Hview Hclick) as [Hv Hw1].
  assert (answers (state w1) = <[id question := AString value]> (answers st)
          /\ currentQuestion (state w1) = currentQuestion (state w)
          /\ timers w1
             = timers w ++ [ {| due := clock w + 100;
                                callback := {| cap_currentQuestion := currentQuestion st;
                                               cap_answers := answers st;
                                               cap_id := id question;
                                               cap_value := value |};
                                fired := false |} ]) as (Hans & Hidx & Htimers).
  { rewrite Hw1. unfold handleSelect. rewrite Hty. by repeat split. }
  split; [exact Hans|].
  unfold isSelected, canProceed. rewrite Hty, Hans, lookup_insert_answer_eq.
  unfold string_eqb. split; [by apply bool_decide_eq_true|].
  split; [intros other Hne; by apply bool_decide_eq_false|].
  split.
  { pose proof (options_not_empty_string _ _ Hin Hv) as Hne.
    destruct value; [done|reflexivity]. }
  split; [intros k Hk; by apply lookup_insert_answer_ne|].
  split; [exact Hidx|]. split; [exact Htimers|].
  intros ->. by rewrite clickOptionOf_current.
Qed.

(** The first question is answered with "Maharashtra" and the index moves
    on. While the first question leaves the screen, "Kerala" is clicked
    on it: the answer to the first question changes, the index stays at
    the second question, and Next is not enabled there. *)
Lemma select_option_selects_witness :
  exists w0 w w1 first second,
    run initialWorld firstAnswered = Some w0
    /\ run w0 thenAdvanced = Some w
    /\ render (state w0) = FormView first None
    /\ render (state w) = FormView second None
    /\ type first = select
    /\ clickOptionOf (state w0) w "Kerala" = Some w1
    /\ answers (state w1) !! "location" = Some (AString "Kerala")
    /\ isSelected (state w1) first "Kerala" = true
    /\ canProceed (state w1) first = true
    /\ currentQuestion (state w1) = 1%nat
    /\ canProceed (state w1) second = false.
Proof.
  assert (exists w0 w w1 first second,
            run initialWorld firstAnswered = Some w0
            /\ run w0 thenAdvanced = Some w
            /\ render (state w0) = FormView first None
            /\ render (state w) = FormView second None
            /\ type first = select
            /\ id first = "location"
            /\ clickOptionOf (state w0) w "Kerala" = Some w1
            /\ currentQuestion (state w) = 1%nat
            /\ canProceed (state w1) second = false)
    as (w0 & w & w1 & first & second & Hrun0 & Hrun & Hview0 & Hview & Hty & Hid
        & Hclick & Hidx & Hnext).
  { eexists _, _, _, _, _. split; [vm_compute; reflexivity|].
    split; [vm_compute; reflexivity|]. split; [vm_compute; reflexivity|].
    split; [vm_compute; reflexivity|]. split; [vm_compute; reflexivity|].
    split; [vm_compute; reflexivity|]. split; [vm_compute; reflexivity|].
    split; vm_compute; reflexivity. }
  destruct (select_option_selects _ _ _ _ _ _ Hview0 Hty Hclick)
    as (Hans & Hsel & _ & Hcan & _ & Hcur & _).
  exists w0, w, w1, first, second.
  split; [exact Hrun0|]. split; [exact Hrun|]. split; [exact Hview0|].
  split; [exact Hview|]. split; [exact Hty|]. split; [exact Hclick|].
  split; [rewrite Hans, Hid; apply lookup_insert_answer_eq|].
  split; [exact Hsel|]. split; [exact Hcan|].
  split; [by rewrite Hcur|exact Hnext].
Defined.

Section Toggle.

Implicit Types (w : World) (st : State) (q : Question) (v : string) (l : list string).

Lemma arrayIncludes_false l v : arrayIncludes l v = false <-> v ∉ l.
Proof.
  rewrite <- arrayIncludes_true. destruct (arrayIncludes l v); split; congruence.
Qed.

Lemma arrayIncludes_iff l l' v v' :
  (v ∈ l <-> v' ∈ l') -> arrayIncludes l v = arrayIncludes l' v'.
Proof.
  intros H. destruct (arrayIncludes l' v') eqn:E.
  - apply arrayIncludes_true, H. by apply arrayIncludes_true.
  - apply arrayIncludes_false. rewrite H. by apply arrayIncludes_false.
Qed.

(** Under the id of a multi-select question, well-typed answers hold
    nothing or an array. *)
Lemma multiselect_stored st q :
  answersWellTyped (answers st) -> q ∈ QUESTIONS -> type q = multiselect ->
  answers st !! id q = None
  \/ exists l, answers st !! id q = Some (AArray l).
Proof.
  intros Hwt Hq Hty. destruct (answers st !! id q) as [a|] eqn:E; [|by left].
  right. destruct (Hwt _ _ E) as (q' & Hq' & Hid & Ha).
  assert (q' = q) as -> by by apply question_ids_distinct.
  unfold answerWellTyped in Ha. rewrite Hty in Ha. destruct a; [done|by eexists].
Qed.

(** What [handleSelect] does on a multi-select question: one [setAnswers],
    of the array with the option switched. *)
Lemma handleSelect_multiselect st q v :
  answersWellTyped (answers st) -> q ∈ QUESTIONS -> type q = multiselect ->
  exists l l',
    (answers st !! id q = None /\ l = [] \/ answers st !! id q = Some (AArray l))
    /\ handleSelect st q v = [ setAnswers (<[id q := AArray l']> (answers st)) ]
    /\ (forall x, x ∈ l' <-> if decide (x = v) then x ∉ l else x ∈ l).
Proof.
  intros Hwt Hq Hty. unfold handleSelect. rewrite Hty.
  destruct (multiselect_stored _ _ Hwt Hq Hty) as [E|[l E]]; rewrite E.
  - exists [], [v]. split; [by left|]. split; [done|].
    intros x. rewrite list_elem_of_singleton. case_decide.
    + split; [intros _; apply not_elem_of_nil|done].
    + split; [done|by intros ?%elem_of_nil].
  - destruct (arrayIncludes l v) eqn:Hinc.
    + exists l, (arrayWithout l v). split; [by right|]. split; [done|].
      intros x. rewrite arrayWithout_spec. apply arrayIncludes_true in Hinc.
      case_decide; [subst; tauto|tauto].
    + exists l, (l ++ [v]). split; [by right|]. split; [done|].
      intros x. rewrite elem_of_app, list_elem_of_singleton.
      apply arrayIncludes_false in Hinc.
      case_decide; [subst; tauto|tauto].
Qed.

End Toggle.

(** X2. A click on an option button of a multi-select question, drawn by
    the render of [st], whose answers have the shape of the catalog. The
    option is switched with respect to that render and no other option of
    the question is; Next is enabled for the question exactly when some
    option is then selected; every other key reads as in that render;
    nothing is scheduled or posted and the index stays. Since the handler
    reads the render and not the component, a second click on the same
    button of the same render changes nothing more: on the current
    render, which is drawn anew after each click, clicks alternate; on a
    question that is leaving the screen they do not. *)
Theorem toggle_option_switches
    (st : State) (w w1 : World) (question : Question) (err : option string)
    (value : string) :
  answersWellTyped (answers st) ->
  render st = FormView question err ->
  type question = multiselect ->
  clickOptionOf st w value = Some w1 ->
  isSelected (state w1) question value = negb (isSelected st question value)
  /\ (forall other, other <> value ->
        isSelected (state w1) question other = isSelected st question other)
  /\ (canProceed (state w1) question = true
        <-> exists v, isSelected (state w1) question v = true)
  /\ (forall k, k <> id question -> answers (state w1) !! k = answers st !! k)
  /\ timers w1 = timers w
  /\ fetches w1 = fetches w
  /\ currentQuestion (state w1) = currentQuestion (state w)
  /\ (forall w2, clickOptionOf st w1 value = Some w2 -> state w2 = state w1)
  /\ (st = state w -> step w (click_option value) = Some w1).
Proof.
  intros Hwt Hview Hty Hclick.
  assert (st = state w -> step w (click_option value) = Some w1) as Hcurrent
    by (intros ->; by rewrite clickOptionOf_current).
  destruct (render_form_state _ _ _ Hview) as (_ & Hin & _).
  destruct (clickOptionOf_Some _ _ _ _ _ _ Hview Hclick) as [Hv ->].
  destruct (handleSelect_multiselect st question value Hwt Hin Hty)
    as (l & l' & Hcur & Heq & Hl').
  rewrite Heq in Hcurrent |- *.
  assert (forall x, isSelected st question x = arrayIncludes l x) as Hbefore.
  { intros x. unfold isSelected. rewrite Hty.
    destruct Hcur as [[-> ->] | ->]; reflexivity. }
  assert (forall x, isSelected
                      (state (performAll w
                                [ setAnswers (<[id question := AArray l']> (answers st)) ]))
                      question x
                    = arrayIncludes l' x) as Hafter.
  { intros x. unfold isSelected, performAll. simpl.
    by rewrite Hty, lookup_insert_answer_eq. }
  split.
  { rewrite Hafter, Hbefore. destruct (arrayIncludes l value) eqn:E; simpl.
    - apply arrayIncludes_false. rewrite Hl', decide_True by done.
      apply arrayIncludes_true in E. tauto.
    - apply arrayIncludes_true. rewrite Hl', decide_True by done.
      by apply arrayIncludes_false. }
  split.
  { intros other Hne. rewrite Hafter, Hbefore. apply arrayIncludes_iff.
    by rewrite Hl', decide_False. }
  split.
  { unfold canProceed, performAll. simpl. rewrite Hty, lookup_insert_answer_eq.
    split.
    - destruct l' as [|x l']; [done|]. intros _. exists x.
      rewrite Hafter. apply arrayIncludes_true. by left.
    - intros [v Hsel]. rewrite Hafter in Hsel. apply arrayIncludes_true in Hsel.
      by destruct l'; [apply elem_of_nil in Hsel|]. }
  split.
  { intros k Hk. unfold performAll. simpl.
    apply lookup_insert_answer_ne. congruence. }
  split; [reflexivity|]. split; [reflexivity|]. split; [reflexivity|].
  split.
  { intros w2 Hclick2.
    destruct (clickOptionOf_Some _ _ _ _ _ _ Hview Hclick2) as [_ ->].
    by rewrite Heq. }
  exact Hcurrent.
Qed.

(** "Will" is selected on the multi-select question and Next is clicked.
    While the question leaves the screen, "None" is clicked on it twice:
    the first click selects it, the second does not take it back. On the
    current render the same two clicks select it and take it back. *)
Lemma toggle_option_switches_witness :
  exists w0 w w1 question,
    run initialWorld willSelected = Some w0
    /\ step w0 click_next = Some w
    /\ render (state w0) = FormView question None
    /\ type question = multiselect
    /\ clickOptionOf (state w0) w "None" = Some w1
    /\ isSelected (state w0) question "None" = false
    /\ isSelected (state w1) question "None" = true
    /\ isSelected (state w1) question "Will" = true
    /\ currentQuestion (state w1) = 8%nat
    /\ (forall w2, clickOptionOf (state w0) w1 "None" = Some w2 ->
          isSelected (state w2) question "None" = true)
    /\ run w0 [ click_option "None"; click_option "None" ] = Some w0.
Proof.
  assert (exists w0 w w1 question,
            run initialWorld willSelected = Some w0
            /\ step w0 click_next = Some w
            /\ render (state w0) = FormView question None
            /\ type question = multiselect
            /\ clickOptionOf (state w0) w "None" = Some w1
            /\ isSelected (state w0) question "None" = false
            /\ isSelected (state w0) question "Will" = true
            /\ currentQuestion (state w) = 8%nat
            /\ run w0 [ click_option "None"; click_option "None" ] = Some w0)
    as (w0 & w & w1 & question & Hrun0 & Hnext & Hview & Hty & Hclick & Hnone & Hwill
        & Hidx & Htwice).
  { eexists _, _, _, _. split; [vm_compute; reflexivity|].
    split; [vm_compute; reflexivity|]. split; [vm_compute; reflexivity|].
    split; [vm_compute; reflexivity|]. split; [vm_compute; reflexivity|].
    split; [vm_compute; reflexivity|]. split; [vm_compute; reflexivity|].
    split; vm_compute; reflexivity. }
  pose proof (reachable_well_typed _ _ Hrun0) as Hwt.
  destruct (toggle_option_switches _ _ _ _ _ _ Hwt Hview Hty Hclick)
    as (Hflip & Hother & _ & _ & _ & _ & Hcur & Hagain & _).
  assert (isSelected (state w1) question "None" = true) as Hsel
    by (rewrite Hflip, Hnone; reflexivity).
  exists w0, w, w1, question.
  split; [exact Hrun0|]. split; [exact Hnext|]. split; [exact Hview|].
  split; [exact Hty|]. split; [exact Hclick|]. split; [exact Hnone|].
  split; [exact Hsel|].
  split; [rewrite Hother; [exact Hwill|discriminate]|].
  split; [by rewrite Hcur|].
  split; [|exact Htwice].
  intros w2 Hclick2. by rewrite (Hagain w2 Hclick2).
Defined.

(** ** Moving between questions *)

(** X3. Back is available whenever a question is on screen. On the first
    question it changes nothing in the component and asks the router for
    "/home"; on any other question it goes back by exactly one and keeps
    the answers, the error, the timers and the requests. Next followed by
    Back brings the component back to where it was. *)
Theorem back_and_next (w : World) (question : Question) (err : option string) :
  render (state w) = FormView question err ->
  (exists w',
     step w click_back = Some w'
     /\ answers (state w') = answers (state w)
     /\ error (state w') = error (state w)
     /\ timers w' = timers w /\ fetches w' = fetches w
     /\ (currentQuestion (state w) = 0%nat ->
           state w' = state w /\ navigations w' = navigations w ++ [ "/home" ])
     /\ ((0 < currentQuestion (state w))%nat ->
           S (currentQuestion (state w')) = currentQuestion (state w)
           /\ navigations w' = navigations w))
  /\ (forall w1,
        (currentQuestion (state w) < length QUESTIONS - 1)%nat ->
        step w click_next = Some w1 ->
        currentQuestion (state w1) = S (currentQuestion (state w))
        /\ answers (state w1) = answers (state w)
        /\ step w1 click_back = Some w).
Proof.
  intros Hview. destruct (render_form_question _ _ _ Hview) as (Hq & _ & Hres & Han & _).
  split.
  - eexists. unfold step at 1. rewrite Hview. split; [reflexivity|].
    unfold handleBack. destruct (0 <? currentQuestion (state w))%nat eqn:E.
    + apply Nat.ltb_lt in E. repeat (split; [reflexivity|]). split; [lia|].
      intros _. unfold performAll. simpl. split; [lia|done].
    + apply Nat.ltb_ge in E. repeat (split; [reflexivity|]). split; [|lia].
      intros _. done.
  - intros w1 Hlt Hnext. unfold step in Hnext. rewrite Hview in Hnext.
    destruct (canProceed (state w) question); [|done]. injection Hnext as <-.
    unfold handleNext. pose proof Hlt as Hlt'. apply Nat.ltb_lt in Hlt'. rewrite Hlt'.
    split; [unfold performAll; simpl; lia|]. split; [reflexivity|].
    assert (exists q', QUESTIONS !! (currentQuestion (state w) + 1)%nat = Some q')
      as [q' Hq'].
    { apply lookup_lt_is_Some. lia. }
    unfold step, render, performAll. simpl. rewrite Hres, Han, Hq'.
    unfold handleBack. simpl.
    replace (0 <? currentQuestion (state w) + 1)%nat with true
      by (symmetry; apply Nat.ltb_lt; lia).
    unfold performAll. simpl.
    replace (currentQuestion (state w) + 1 - 1)%nat with (currentQuestion (state w)) by lia.
    by destruct w as [[] ? ? ? ? ?].
Qed.

(** On the second question, with its answer given: Back leads to the
    first question, and Next and Back lead back to the second. *)
Lemma back_and_next_witness :
  let w := worldAfter (take 4 answerFirstEleven) in
  exists question w' w1,
    render (state w) = FormView question None
    /\ currentQuestion (state w) = 1%nat
    /\ step w click_back = Some w'
    /\ currentQuestion (state w') = 0%nat
    /\ step w click_next = Some w1
    /\ currentQuestion (state w1) = 2%nat
    /\ step w1 click_back = Some w.
Proof.
  intros w.
  assert (currentQuestion (state w) = 1%nat) as Hidx by (vm_compute; reflexivity).
  destruct (step w click_next) as [w1|] eqn:E.
  2: { vm_compute in E. discriminate E. }
  eassert (render (state w) = FormView _ None) as Hview by (vm_compute; reflexivity).
  destruct (back_and_next w _ None Hview) as ((w' & Hback & _ & _ & _ & _ & _ & Hdec) & Hnext).
  destruct (Hnext w1) as (Hinc & _ & Hround); [rewrite Hidx; vm_compute; lia|exact E|].
  eexists _, w', w1. split; [exact Hview|]. split; [exact Hidx|].
  split; [exact Hback|]. split.
  { destruct Hdec as [Hdec _]; [rewrite Hidx; lia|]. rewrite Hidx in Hdec. lia. }
  split; [reflexivity|]. split; [by rewrite Hinc, Hidx|exact Hround].
Defined.

(** X4. From the start, whatever happens, the question index stays inside
    the catalog, and so does the index kept by every timer: the form
    always has a question to show, with a label for its part and at least
    one option, and the progress text reads "n of 12" with n from 1 to
    12. *)
Theorem question_index_in_range (es : list Event) (w : World) :
  run initialWorld es = Some w ->
  (currentQuestion (state w) < length QUESTIONS)%nat
  /\ Forall (fun t => (cap_currentQuestion (callback t) < length QUESTIONS)%nat) (timers w)
  /\ render (state w) <> BrokenView
  /\ (1 <= currentQuestion (state w) + 1 <= 12)%nat
  /\ forall question err,
       render (state w) = FormView question err ->
       is_Some (PART_LABELS (part question)) /\ options question <> [].
Proof.
  intros Hrun. destruct (reachable_index_in_range _ _ Hrun) as [Hidx Hcap].
  split; [exact Hidx|]. split; [exact Hcap|].
  split; [by eapply reachable_not_broken|].
  split; [change (length QUESTIONS) with 12%nat in Hidx; lia|].
  intros q err (_ & Hin & _)%render_form_question.
  assert (Forall (fun q => is_Some (PART_LABELS (part q)) /\ options q <> []) QUESTIONS) as H.
  { unfold QUESTIONS.
    repeat (apply Forall_cons_2; [split; [by eexists|done]|]). apply Forall_nil_2. }
  by eapply Forall_forall in H.
Qed.

Lemma question_index_in_range_witness :
  let w := worldAfter answerFirstEleven in
  run initialWorld answerFirstEleven = Some w
  /\ currentQuestion (state w) = 11%nat
  /\ (currentQuestion (state w) < length QUESTIONS)%nat
  /\ render (state w) <> BrokenView.
Proof.
  intros w.
  assert (run initialWorld answerFirstEleven = Some w) as Hrun by (vm_compute; reflexivity).
  destruct (question_index_in_range _ _ Hrun) as (H1 & _ & H3 & _).
  split; [exact Hrun|]. split; [vm_compute; reflexivity|]. split; [exact H1|exact H3].
Defined.

(** ** The text of the next steps *)

Section NextSteps.

Implicit Types (s ds ws rest : string).

Lemma dropSpaces_app ws rest :
  allSpaces ws = true -> startsWithSpace rest = false -> dropSpaces (ws +:+ rest) = rest.
Proof.
  intros Hws Hrest. induction ws as [|c ws IH].
  - rewrite app_empty_l. destruct rest as [|c rest]; [done|].
    simpl in *. by rewrite Hrest.
  - simpl in Hws. apply andb_true_iff in Hws as [Hc Hws].
    rewrite app_cons. simpl. rewrite Hc. by apply IH.
Qed.

Lemma dropSpaces_split s :
  exists ws, s = ws +:+ dropSpaces s /\ allSpaces ws = true
             /\ startsWithSpace (dropSpaces s) = false.
Proof.
  induction s as [|c s (ws & Hs & Hws & Hrest)].
  - by exists EmptyString.
  - simpl. destruct (isSpace c) eqn:Hc.
    + exists (String c ws). rewrite app_cons, <- Hs. simpl. by rewrite Hc, Hws.
    + exists EmptyString. rewrite app_empty_l. simpl. by rewrite Hc.
Qed.

Lemma takeDigits_numeral ds rest :
  ds <> EmptyString -> allDigits ds = true ->
  takeDigits (ds +:+ "." +:+ rest) = (ds, "." +:+ rest).
Proof. intros _ Hds. by apply takeDigits_complete. Qed.

Lemma stripNumeral_numeral ds rest :
  ds <> EmptyString -> allDigits ds = true ->
  stripNumeral (ds +:+ "." +:+ rest) = dropSpaces rest.
Proof.
  intros Hne Hds. unfold stripNumeral. rewrite takeDigits_numeral by done.
  by destruct ds.
Qed.

Lemma stripNumeral_changed s :
  stripNumeral s = s \/ NumeralPrefix s.
Proof.
  unfold stripNumeral. destruct (takeDigits s) as [ds r] eqn:E.
  apply takeDigits_sound in E as (-> & Hds & _).
  destruct ds as [|d ds]; [by left|].
  destruct r as [|c r]; [by left|].
  destruct (Ascii.eqb_spec c ".") as [->|Hne].
  - right. by exists (String d ds), r.
  - left. destruct c as [[] [] [] [] [] [] [] []]; done.
Qed.

End NextSteps.

(** X5. What [step.replace(/^\d+\.\s*/, '')] returns for a next step.
    When the step starts with a numeral and a period, the numeral, the
    period and all the white space after them are removed and the rest is
    returned as it is; any other step (a bullet, "1)", a numeral after a
    blank) is returned unchanged. The result is always a tail of the
    step, and a shorter one when there was a numeral. *)
Theorem next_step_text :
  (forall ds ws rest,
     ds <> EmptyString -> allDigits ds = true ->
     allSpaces ws = true -> startsWithSpace rest = false ->
     stripNumeral (ds +:+ "." +:+ ws +:+ rest) = rest)
  /\ (forall s, ~ NumeralPrefix s -> stripNumeral s = s)
  /\ (forall s, NumeralPrefix s ->
        (String.length (stripNumeral s) < String.length s)%nat)
  /\ (forall s, exists removed, s = removed +:+ stripNumeral s).
Proof.
  split.
  { intros ds ws rest Hne Hds Hws Hrest.
    rewrite stripNumeral_numeral by done. by apply dropSpaces_app. }
  split.
  { intros s Hn. by destruct (stripNumeral_changed s). }
  assert (forall a b, String.length (a +:+ b) = (String.length a + String.length b)%nat)
    as Hlen.
  { intros a b. induction a as [|c a IH]; [done|]. rewrite app_cons. simpl. by rewrite IH. }
  split.
  { intros s (ds & rest & Hne & Hds & ->).
    rewrite stripNumeral_numeral by done.
    destruct (dropSpaces_split rest) as (ws & Hrest & _).
    rewrite Hrest at 2. rewrite !Hlen. simpl. lia. }
  { intros s. destruct (stripNumeral_changed s) as [->|(ds & rest & Hne & Hds & ->)].
    - by exists EmptyString.
    - rewrite stripNumeral_numeral by done.
      destruct (dropSpaces_split rest) as (ws & Hrest & _).
      exists (ds +:+ "." +:+ ws).
      assert (forall a b c, (a +:+ b) +:+ c = a +:+ b +:+ c) as Hassoc.
      { intros a b c. induction a as [|x a IH]; [done|].
        rewrite !app_cons. by rewrite IH. }
      rewrite !Hassoc. by rewrite <- Hrest. }
Qed.

(** "12.  Talk to a lawyer" loses the numeral and both blanks; a bullet
    is not a numeral and stays. *)
Lemma next_step_text_witness :
  stripNumeral "12.  Talk to a lawyer" = "Talk to a lawyer"
  /\ ~ NumeralPrefix "- Talk to a lawyer"
  /\ stripNumeral "- Talk to a lawyer" = "- Talk to a lawyer"
  /\ NumeralPrefix "1. 2. Wait"
  /\ (String.length (stripNumeral "1. 2. Wait") < String.length "1. 2. Wait")%nat.
Proof.
  destruct next_step_text as (H1 & H2 & H3 & _).
  assert (~ NumeralPrefix "- Talk to a lawyer") as Hn.
  { intros (ds & rest & Hne & Hds & Heq). destruct ds as [|d ds]; [done|].
    rewrite app_cons in Heq. injection Heq as <- _. discriminate Hds. }
  assert (NumeralPrefix "1. 2. Wait") as Hp.
  { by exists "1", " 2. Wait". }
  split; [exact (H1 "12" "  " "Talk to a lawyer" ltac:(done) eq_refl eq_refl eq_refl)|].
  split; [exact Hn|]. split; [exact (H2 _ Hn)|]. split; [exact Hp|exact (H3 _ Hp)].
Defined.

(** ** The keys of the answers object *)

Section AnswerKeys.

Implicit Types (m : AnswerMap) (k : string) (a : answer) (st : State) (w : World).

Lemma insert_answer_keys m k a :
  (<[k := a]> m).*1 = (if decide (k ∈ m.*1) then m.*1 else m.*1 ++ [ k ]).
Proof.
  unfold insert, answerMap_insert.
  induction m as [|[k0 a0] m IH].
  - reflexivity.
  - cbn [insertAnswer]. destruct (decide (k = k0)) as [->|Hne].
    + rewrite decide_True; [done|]. rewrite fmap_cons. by left.
    + rewrite !fmap_cons, IH. cbn [fst].
      destruct (decide (k ∈ m.*1)) as [Hin|Hout].
      * rewrite decide_True; [done|by right].
      * rewrite decide_False; [done|]. by intros [?|?]%elem_of_cons.
Qed.

(** On answers of the shape of the catalog, [handleSelect] writes the
    property of its question, whatever the type of the question. *)
Lemma handleSelect_writes st w q v :
  answersWellTyped (answers st) -> q ∈ QUESTIONS ->
  exists a,
    answers (state (performAll w (handleSelect st q v))) = <[id q := a]> (answers st).
Proof.
  intros Hwt Hq. destruct (type q) eqn:Hty.
  - unfold handleSelect. rewrite Hty. by eexists.
  - destruct (handleSelect_multiselect st q v Hwt Hq Hty) as (l & l' & _ & -> & _).
    by eexists.
Qed.

Lemma catalog_keys_plain : Forall plainKey (id <$> QUESTIONS).
Proof.
  unfold plainKey, inheritedNames.
  let l := eval vm_compute in (id <$> QUESTIONS) in change (id <$> QUESTIONS) with l.
  repeat (apply Forall_cons_2;
          [split; [reflexivity|];
           intros H; repeat (apply elem_of_cons in H as [H|H]; [discriminate H|]);
           by apply elem_of_nil in H|]).
  apply Forall_nil_2.
Qed.

End AnswerKeys.

(** X9. The answers keep the order in which the questions were first
    answered. A click on an option button, drawn by the render of [st]
    whose answers have the shape of the catalog, writes the property of
    its question into the answers of that render: a question that was
    answered keeps its place among the keys, a question answered for the
    first time goes last, and the other keys read as before. The ids of
    the catalog are not integer-like and not names that every object
    inherits, so the keys of the object are listed in this order, and a
    key that was not written reads as undefined. *)
Theorem answering_keeps_key_order
    (st : State) (w w1 : World) (question : Question) (err : option string)
    (value : string) :
  answersWellTyped (answers st) ->
  render st = FormView question err ->
  clickOptionOf st w value = Some w1 ->
  (answers (state w1)).*1
  = (if decide (id question ∈ (answers st).*1)
     then (answers st).*1
     else (answers st).*1 ++ [ id question ])
  /\ is_Some (answers (state w1) !! id question)
  /\ (forall q, q ∈ QUESTIONS -> id q <> id question ->
        answers (state w1) !! id q = answers st !! id q)
  /\ (forall q, q ∈ QUESTIONS ->
        (answers (state w1) !! id q = None <-> id q ∉ (answers (state w1)).*1))
  /\ Forall plainKey (id <$> QUESTIONS).
Proof.
  intros Hwt Hview Hclick.
  destruct (render_form_state _ _ _ Hview) as (_ & Hin & _).
  destruct (clickOptionOf_Some _ _ _ _ _ _ Hview Hclick) as [Hv ->].
  destruct (handleSelect_writes st w question value Hwt Hin) as [a ->].
  split; [apply insert_answer_keys|].
  split; [rewrite lookup_insert_answer_eq; by eexists|].
  split; [intros q _ Hne; apply lookup_insert_answer_ne; congruence|].
  split; [|apply catalog_keys_plain].
  intros q _. generalize (<[id question := a]> (answers st)). intros m.
  unfold lookup, answerMap_lookup.
  induction m as [|[k0 a0] m IH]; simpl.
  - split; [intros _; apply not_elem_of_nil|done].
  - destruct (decide (id q = k0)) as [->|Hne].
    + split; [done|]. intros []. by left.
    + rewrite IH. rewrite not_elem_of_cons. tauto.
Qed.

(** The first question is answered, then the second; after two clicks on
    Back the first is answered again: "location" stays the first key. *)
Lemma answering_keeps_key_order_witness :
  exists w w1 question,
    run initialWorld twoAnswersThenBack = Some w
    /\ render (state w) = FormView question None
    /\ id question = "location"
    /\ (answers (state w)).*1 = [ "location"; "property_type" ]
    /\ step w (click_option "Kerala") = Some w1
    /\ (answers (state w1)).*1 = [ "location"; "property_type" ]
    /\ answers (state w1) !! "location" = Some (AString "Kerala").
Proof.
  assert (exists w w1 question,
            run initialWorld twoAnswersThenBack = Some w
            /\ render (state w) = FormView question None
            /\ id question = "location"
            /\ (answers (state w)).*1 = [ "location"; "property_type" ]
            /\ step w (click_option "Kerala") = Some w1
            /\ answers (state w1) !! "location" = Some (AString "Kerala"))
    as (w & w1 & question & Hrun & Hview & Hid & Hkeys & Hstep & Hval).
  { eexists _, _, _. split; [vm_compute; reflexivity|].
    split; [vm_compute; reflexivity|]. split; [vm_compute; reflexivity|].
    split; [vm_compute; reflexivity|]. split; vm_compute; reflexivity. }
  pose proof (reachable_well_typed _ _ Hrun) as Hwt.
  destruct (answering_keeps_key_order (state w) w w1 _ _ _ Hwt Hview Hstep)
    as (Horder & _).
  exists w, w1, question.
  split; [exact Hrun|]. split; [exact Hview|]. split; [exact Hid|].
  split; [exact Hkeys|]. split; [exact Hstep|]. split; [|exact Hval].
  rewrite Horder, Hid, Hkeys. reflexivity.
Defined.

(** ** Requests and the error message *)

(** X6. A pending request settles once. The outcomes are: [fetch]
    rejects; the response is not ok; the response is ok and its body is
    not JSON; the response is ok and its body parses to an analysis of the
    shape that the results view reads; the response is ok and its body
    parses to a falsy value. (A body that parses to another truthy value
    is not covered.) For an analysis, the result is stored and the
    results view shows it. For a falsy value nothing is shown and nothing
    is reported: the result stays empty, [isAnalyzing] and [error] stay as
    they are, so that the loading view stays when [isAnalyzing] was set.
    In every other case the fixed message is set, [isAnalyzing] is cleared
    and the cause is logged. Always the answers, the index, the timers and
    the other requests are untouched, and the request cannot settle a
    second time. *)
Theorem request_settles_once (w : World) (fid : nat) (p : Pending) :
  fetches w !! fid = Some p -> settled p = false ->
  (forall o, exists w',
     step w (fetch_settles fid o) = Some w'
     /\ answers (state w') = answers (state w)
     /\ currentQuestion (state w') = currentQuestion (state w)
     /\ timers w' = timers w
     /\ fetches w' !! fid = Some (markedSettled p)
     /\ (forall fid', fid' <> fid -> fetches w' !! fid' = fetches w !! fid')
     /\ match storedResult o with
        | Some result =>
            analysisResult (state w') = Some result
            /\ render (state w') = ResultsView result
            /\ error (state w') = error (state w)
            /\ isAnalyzing (state w') = isAnalyzing (state w)
            /\ console w' = console w
        | None =>
            analysisResult (state w') = analysisResult (state w)
            /\ error (state w') = Some "Failed to analyze case. Please try again."
            /\ isAnalyzing (state w') = false
            /\ console w' = console w ++ [ ("Analysis error:", caughtError o) ]
        end
     /\ (forall o', step w' (fetch_settles fid o') = None)
     /\ settleFalsy w' fid = None)
  /\ (exists w',
        settleFalsy w fid = Some w'
        /\ answers (state w') = answers (state w)
        /\ currentQuestion (state w') = currentQuestion (state w)
        /\ timers w' = timers w
        /\ fetches w' !! fid = Some (markedSettled p)
        /\ (forall fid', fid' <> fid -> fetches w' !! fid' = fetches w !! fid')
        /\ analysisResult (state w') = None
        /\ error (state w') = error (state w)
        /\ isAnalyzing (state w') = isAnalyzing (state w)
        /\ console w' = console w
        /\ (isAnalyzing (state w) = true -> render (state w') = LoadingView)
        /\ (forall o', step w' (fetch_settles fid o') = None)
        /\ settleFalsy w' fid = None).
Proof.
  intros Hp Hs. split.
  - intros o. eexists. split; [by apply step_fetch_settles|].
    assert (forall effs,
              fetches (performAll (markSettled fid w) effs) = fetches (markSettled fid w)
              -> fetches (performAll (markSettled fid w) effs) !! fid
                 = Some (markedSettled p)) as Hfid.
    { intros effs ->. simpl. by rewrite list_lookup_alter_eq, Hp. }
    destruct (resume_no_fetch (issuedBy p) o (markSettled fid w)) as [Hf Ht].
    assert (forall o', step (performAll (markSettled fid w) (resume (issuedBy p) o))
                            (fetch_settles fid o') = None) as Hagain.
    { intros o'. unfold step. by rewrite (Hfid _ Hf). }
    assert (settleFalsy (performAll (markSettled fid w) (resume (issuedBy p) o)) fid = None)
      as Hfalsy.
    { unfold settleFalsy. by rewrite (Hfid _ Hf). }
    destruct (issuedBy p), o as [cause|status [r|cause]]; simpl;
      try destruct (ok status) eqn:Hok; simpl;
      (split; [reflexivity|]); (split; [reflexivity|]); (split; [reflexivity|]);
      (split; [by rewrite list_lookup_alter_eq, Hp|]);
      (split; [by intros fid' Hne; rewrite list_lookup_alter_ne|]);
      (split; [by repeat split|]);
      (split; [intros o'; specialize (Hagain o'); revert Hagain; simpl; rewrite ?Hok; done|]);
      revert Hfalsy; simpl; rewrite ?Hok; done.
  - eexists. split; [unfold settleFalsy; by rewrite Hp, Hs|].
    unfold performAll. simpl.
    split; [reflexivity|]. split; [reflexivity|]. split; [reflexivity|].
    split; [by rewrite list_lookup_alter_eq, Hp|].
    split; [by intros fid' Hne; rewrite list_lookup_alter_ne|].
    split; [reflexivity|]. split; [reflexivity|]. split; [reflexivity|].
    split; [reflexivity|].
    split; [intros Han; unfold render; simpl; by rewrite Han|].
    split.
    + intros o'. unfold step. simpl. by rewrite list_lookup_alter_eq, Hp.
    + unfold settleFalsy. simpl. by rewrite list_lookup_alter_eq, Hp.
Qed.

(** Twelve answers are posted. A 200 response whose body is not JSON takes
    the failure path. A 200 response whose body is [null] leaves the
    loading view on screen with no message, and since nothing is pending
    any more the view never changes. *)
Lemma request_settles_once_witness :
  exists w w1 w2,
    run initialWorld answerAllTwelve = Some w
    /\ fetches w !! 0%nat = Some pendingSubmission
    /\ step w (fetch_settles 0 (Responded 200 (Unparsable "SyntaxError: Unexpected token <")))
       = Some w1
    /\ error (state w1) = Some "Failed to analyze case. Please try again."
    /\ isAnalyzing (state w1) = false
    /\ console w1 = [ ("Analysis error:", "SyntaxError: Unexpected token <") ]
    /\ settleFalsy w 0 = Some w2
    /\ render (state w2) = LoadingView
    /\ error (state w2) = None
    /\ forall es w3, run w2 es = Some w3 -> render (state w3) = LoadingView.
Proof.
  assert (exists w w2,
            run initialWorld answerAllTwelve = Some w
            /\ fetches w !! 0%nat = Some pendingSubmission
            /\ isAnalyzing (state w) = true
            /\ error (state w) = None
            /\ console w = []
            /\ settleFalsy w 0 = Some w2
            /\ quiescent w2)
    as (w & w2 & Hrun & Hp & Han & Herr & Hcon & Hfalsy & Hquiet).
  { eexists _, _. split; [vm_compute; reflexivity|]. split; [vm_compute; reflexivity|].
    split; [vm_compute; reflexivity|]. split; [vm_compute; reflexivity|].
    split; [vm_compute; reflexivity|]. split; [vm_compute; reflexivity|].
    split; repeat constructor. }
  destruct (request_settles_once w 0 pendingSubmission Hp eq_refl) as [Hsettle Hnull].
  destruct (Hsettle (Responded 200 (Unparsable "SyntaxError: Unexpected token <")))
    as (w1 & Hstep & _ & _ & _ & _ & _ & (_ & Herr1 & Han1 & Hlog) & _).
  destruct Hnull as (w2' & Hfalsy' & _ & _ & _ & _ & _ & _ & Herr2 & _ & _ & Hview & _).
  rewrite Hfalsy in Hfalsy'. injection Hfalsy' as <-.
  exists w, w1, w2.
  split; [exact Hrun|]. split; [exact Hp|]. split; [exact Hstep|].
  split; [exact Herr1|]. split; [exact Han1|].
  split; [rewrite Hlog, Hcon; reflexivity|].
  split; [exact Hfalsy|]. split; [exact (Hview Han)|].
  split; [by rewrite Herr2|].
  intros es w3 Hrun3.
  rewrite (loading_forever _ _ _ (Hview Han) Hquiet Hrun3). exact (Hview Han).
Defined.

Section ErrorFrame.

Implicit Types (w : World) (e : Event).

Lemma handleSelect_error w q v :
  error (state (performAll w (handleSelect (state w) q v))) = error (state w).
Proof.
  unfold handleSelect. destruct (type q); [done|].
  destruct (answers (state w) !! id q) as [[[|c s]|l]|]; try done.
  - by destruct (includes _ _).
  - by destruct (arrayIncludes _ _).
Qed.

End ErrorFrame.

(** X7. The error message changes only when a request is posted, which
    clears it, or when a request settles in failure, which sets the fixed
    message. Selecting, going back, "Start New Case", time, and a Next or
    a timer that posts nothing leave it as it is. *)
Theorem error_changes_with_requests (w w' : World) (e : Event) :
  step w e = Some w' ->
  error (state w') <> error (state w) ->
  (length (fetches w') = S (length (fetches w)) /\ error (state w') = None)
  \/ (exists fid o, e = fetch_settles fid o
                   /\ storedResult o = None
                   /\ error (state w') = Some "Failed to analyze case. Please try again.").
Proof.
  intros Hstep Hchg. destruct e; unfold step in Hstep.
  - destruct (render (state w)); try done. case_bool_decide; [|done].
    injection Hstep as <-. by rewrite handleSelect_error in Hchg.
  - destruct (render (state w)); try done. destruct (canProceed _ _); [|done].
    injection Hstep as <-. unfold handleNext in *.
    destruct (_ <? _)%nat; [done|]. left.
    unfold performAll. simpl. by rewrite length_app, Nat.add_comm.
  - destruct (render (state w)); try done. injection Hstep as <-.
    unfold handleBack in Hchg. by destruct (_ <? _)%nat.
  - destruct (render (state w)); try done. by injection Hstep as <-.
  - destruct (render (state w)); try done. by injection Hstep as <-.
  - destruct (timers w !! tid) as [t|]; [|done]. destruct (_ && _); [|done].
    injection Hstep as <-. unfold autoAdvance in *.
    destruct (_ <? _)%nat; [done|]. left.
    unfold performAll. simpl. by rewrite length_app, Nat.add_comm.
  - destruct (fetches w !! fid) as [p|]; [|done]. destruct (negb _); [|done].
    injection Hstep as <-. right. exists fid, o.
    destruct (issuedBy p), o as [cause|status [r|cause]]; simpl in *;
      try destruct (ok status); simpl in *; done.
  - by injection Hstep as <-.
Qed.

(** After a failure the form shows the message; a click on Back keeps it
    (the theorem read backwards), and the retry clears it. *)
Lemma error_changes_with_requests_witness :
  let w := worldAfter (answerAllTwelve ++ [ fetch_settles 0 networkDown ]) in
  exists w',
    step w click_next = Some w'
    /\ error (state w) = Some "Failed to analyze case. Please try again."
    /\ error (state w') <> error (state w)
    /\ length (fetches w') = S (length (fetches w))
    /\ error (state w') = None.
Proof.
  intros w. destruct (step w click_next) as [w'|] eqn:E.
  2: { vm_compute in E. discriminate E. }
  assert (error (state w') <> error (state w)) as Hchg.
  { vm_compute in E. injection E as <-. vm_compute. discriminate. }
  exists w'. split; [reflexivity|]. split; [vm_compute; reflexivity|].
  split; [exact Hchg|].
  destruct (error_changes_with_requests w w' click_next E Hchg)
    as [[Hlen Herr]|(fid & o & Heq & _)]; [split; [exact Hlen|exact Herr]|discriminate Heq].
Defined.

(** ** The keys that reach the server *)

Section Keys.

Implicit Types (w : World) (m : AnswerMap) (k : string) (a : answer).

Lemma keysOk_empty : keysOk ∅.
Proof. split; [constructor|]. by intros k ?%elem_of_nil. Qed.

Lemma keysOk_insert m k a :
  keysOk m -> k ∈ (id <$> QUESTIONS) -> keysOk (<[k := a]> m).
Proof.
  intros [Hnd Hsub] Hk. unfold keysOk. rewrite insert_answer_keys.
  case_decide as Hin; [done|]. split.
  - apply NoDup_app. split; [done|]. split; [|apply NoDup_singleton].
    by intros x Hx ->%list_elem_of_singleton.
  - intros x [Hx | ->%list_elem_of_singleton]%elem_of_app; auto.
Qed.

Lemma keysOk_length m : keysOk m -> (length m <= length QUESTIONS)%nat.
Proof.
  intros [Hnd Hsub].
  rewrite <- (length_fmap fst m), <- (length_fmap id QUESTIONS).
  apply submseteq_length. by apply NoDup_submseteq.
Qed.

Lemma question_id_in_catalog (i : nat) q :
  QUESTIONS !! i = Some q -> id q ∈ (id <$> QUESTIONS).
Proof. intros H. apply list_elem_of_fmap_2. by eapply elem_of_lookup_question. Qed.

Lemma keysOk_selected (st : State) q v :
  keysOk (answers st) -> id q ∈ (id <$> QUESTIONS) -> keysOk (selected st q v).
Proof.
  intros Hok Hq. unfold selected, handleSelect. destruct (type q).
  - by apply keysOk_insert.
  - destruct (answers st !! id q) as [[[|c s]|l]|]; try by apply keysOk_insert.
    + destruct (includes _ _); [done|by apply keysOk_insert].
    + destruct (arrayIncludes _ _); by apply keysOk_insert.
Qed.

Lemma handleSelect_timers w q v :
  timers (performAll w (handleSelect (state w) q v)) = timers w
  \/ timers (performAll w (handleSelect (state w) q v))
     = timers w ++ [ {| due := clock w + 100;
                        callback := {| cap_currentQuestion := currentQuestion (state w);
                                       cap_answers := answers (state w);
                                       cap_id := id q;
                                       cap_value := v |};
                        fired := false |} ].
Proof.
  unfold handleSelect. destruct (type q); [by right|]. left.
  destruct (answers (state w) !! id q) as [[[|c s]|l]|]; try done.
  - by destruct (includes _ _).
  - by destruct (arrayIncludes _ _).
Qed.

Lemma handleSelect_fetches w q v :
  fetches (performAll w (handleSelect (state w) q v)) = fetches w.
Proof.
  unfold handleSelect. destruct (type q); [done|].
  destruct (answers (state w) !! id q) as [[[|c s]|l]|]; try done.
  - by destruct (includes _ _).
  - by destruct (arrayIncludes _ _).
Qed.

Lemma step_keys w e w' : step w e = Some w' -> keysInvariant w -> keysInvariant w'.
Proof.
  intros Hstep (Hans & Htim & Hfet). destruct e; unfold step in Hstep.
  - destruct (render (state w)) as [| |q err|] eqn:Hview; try done.
    case_bool_decide; [|done]. injection Hstep as <-.
    apply render_form_question in Hview as (Hq%question_id_in_catalog & _).
    split; [|split].
    + rewrite handleSelect_answers. by apply keysOk_selected.
    + destruct (handleSelect_timers w q value) as [->| ->]; [done|].
      apply Forall_app. split; [done|]. by apply Forall_singleton.
    + by rewrite handleSelect_fetches.
  - destruct (render (state w)); try done. destruct (canProceed _ _); [|done].
    injection Hstep as <-. unfold handleNext. destruct (_ <? _)%nat; [done|].
    split; [done|]. split; [done|].
    unfold performAll. simpl. apply Forall_app. split; [done|]. by apply Forall_singleton.
  - destruct (render (state w)); try done. injection Hstep as <-.
    unfold handleBack. by destruct (_ <? _)%nat.
  - destruct (render (state w)); try done. injection Hstep as <-.
    split; [apply keysOk_empty|done].
  - destruct (render (state w)); try done. by injection Hstep as <-.
  - destruct (timers w !! tid) as [t|] eqn:Et; [|done]. destruct (_ && _); [|done].
    injection Hstep as <-.
    pose proof (proj1 (Forall_lookup _ _) Htim _ _ Et) as [Hcap Hid].
    assert (Forall (fun t => keysOk (cap_answers (callback t))
                             /\ cap_id (callback t) ∈ (id <$> QUESTIONS))
              (timers (markFired tid w))) as Htim'.
    { simpl. apply Forall_alter; [done|]. intros t0 _ H. exact H. }
    unfold autoAdvance. destruct (_ <? _)%nat; [done|].
    split; [done|]. split; [done|].
    unfold performAll. simpl. apply Forall_app. split; [done|].
    apply Forall_singleton. simpl. by apply keysOk_insert.
  - destruct (fetches w !! fid) as [p|] eqn:Ep; [|done]. destruct (negb _); [|done].
    injection Hstep as <-.
    destruct (resume_no_fetch (issuedBy p) o (markSettled fid w)) as [Hf Ht].
    split; [|split].
    + destruct (issuedBy p), o as [cause|status [r|cause]]; simpl; try done;
        by destruct (ok status).
    + by rewrite Ht.
    + rewrite Hf. simpl. apply Forall_alter; [done|]. intros p0 _ H. exact H.
  - by injection Hstep as <-.
Qed.

Lemma reachable_keys es w : run initialWorld es = Some w -> keysInvariant w.
Proof.
  assert (forall w0, keysInvariant w0 -> run w0 es = Some w -> keysInvariant w) as H.
  { induction es as [|e es IH]; intros w0 Hinv Hrun; simpl in Hrun.
    - by injection Hrun as <-.
    - destruct (step w0 e) as [w1|] eqn:E; [|done].
      eapply IH; [|done]. by eapply step_keys. }
  apply H. split; [apply keysOk_empty|]. split; constructor.
Qed.

End Keys.

(** X8. From the start, whatever happens, the answers object has at most
    one property per question of the catalog and nothing else, hence at
    most twelve; the same holds for the body of every request that was
    posted. *)
Theorem answer_keys_invariant (es : list Event) (w : World) :
  run initialWorld es = Some w ->
  NoDup (answers (state w)).*1
  /\ (forall k, k ∈ (answers (state w)).*1 -> k ∈ (id <$> QUESTIONS))
  /\ (length (answers (state w)) <= 12)%nat
  /\ Forall (fun p => NoDup (req_body (request p)).*1
                      /\ (forall k, k ∈ (req_body (request p)).*1 -> k ∈ (id <$> QUESTIONS))
                      /\ (length (req_body (request p)) <= 12)%nat) (fetches w).
Proof.
  intros (Hans & _ & Hfet)%reachable_keys.
  split; [apply Hans|]. split; [apply Hans|].
  split; [by apply keysOk_length in Hans|].
  eapply Forall_impl; [exact Hfet|]. intros p Hp.
  split; [apply Hp|]. split; [apply Hp|]. by apply keysOk_length in Hp.
Qed.

Lemma answer_keys_invariant_witness :
  let w := worldAfter answerAllTwelve in
  run initialWorld answerAllTwelve = Some w
  /\ (answers (state w)).*1 = id <$> QUESTIONS
  /\ NoDup (answers (state w)).*1
  /\ (length (answers (state w)) <= 12)%nat.
Proof.
  intros w.
  assert (run initialWorld answerAllTwelve = Some w) as Hrun by (vm_compute; reflexivity).
  destruct (answer_keys_invariant _ _ Hrun) as (H1 & _ & H3 & _).
  split; [exact Hrun|]. split; [vm_compute; reflexivity|]. split; [exact H1|exact H3].
Defined.

(** ** Clicks on a question that is leaving the screen *)

Section LeavingClicks.

Implicit Types (w : World) (st : State) (q : Question) (v : string) (past : list World).

Lemma handleSelect_selected st w q v :
  answersWellTyped (answers st) -> q ∈ QUESTIONS ->
  answers (state (performAll w (handleSelect st q v))) = selected st q v.
Proof.
  intros Hwt Hq. unfold selected. destruct (type q) eqn:Hty.
  - unfold handleSelect. by rewrite Hty.
  - destruct (handleSelect_multiselect st q v Hwt Hq Hty) as (l & l' & _ & -> & _).
    reflexivity.
Qed.

Lemma handleSelect_frames st w q v :
  answersWellTyped (answers st) -> q ∈ QUESTIONS ->
  let w1 := performAll w (handleSelect st q v) in
  currentQuestion (state w1) = currentQuestion (state w)
  /\ fetches w1 = fetches w
  /\ (timers w1 = timers w
      \/ timers w1
         = timers w ++ [ {| due := clock w + 100;
                            callback := {| cap_currentQuestion := currentQuestion st;
                                           cap_answers := answers st;
                                           cap_id := id q;
                                           cap_value := v |};
                            fired := false |} ]).
Proof.
  intros Hwt Hq. destruct (type q) eqn:Hty.
  - unfold handleSelect. rewrite Hty. split; [done|]. split; [done|]. by right.
  - destruct (handleSelect_multiselect st q v Hwt Hq Hty) as (l & l' & _ & -> & _).
    split; [done|]. split; [done|]. by left.
Qed.

Lemma step_shape w e w' : step w e = Some w' -> shapeInvariant w -> shapeInvariant w'.
Proof.
  intros Hstep (Hwt & Hkeys & Hidx). split; [|split].
  - destruct (step_answers _ _ _ Hstep) as [->|[->|(v & q & _ & _ & Hq & Hv & ->)]].
    + done.
    + by intros k a Hk.
    + apply selected_well_typed; [by eapply elem_of_lookup_question|done..].
  - by eapply step_keys.
  - by eapply step_index_in_range.
Qed.

(** A click on a question that is leaving the screen keeps the shape, when
    the render that drew it had the shape. *)
Lemma leaving_click_shape w0 w v w' :
  shapeInvariant w0 -> shapeInvariant w ->
  clickOptionOf (state w0) w v = Some w' -> shapeInvariant w'.
Proof.
  intros (Hwt0 & (Hkeys0 & _ & _) & [Hidx0 _]) (Hwt & (Hkeys & Htim & Hfet) & [Hidx Hcap]).
  unfold clickOptionOf. destruct (render (state w0)) as [| |q err|] eqn:Hview; try done.
  case_bool_decide as Hv; [|done]. intros [= <-].
  destruct (render_form_state _ _ _ Hview) as (_ & Hq & _).
  pose proof (question_id_in_catalog _ _ (proj1 (render_form_state _ _ _ Hview))) as Hid.
  destruct (handleSelect_frames (state w0) w q v Hwt0 Hq) as (Hcur & Hfetches & Htimers).
  split; [|split; [split; [|split]|split]].
  - rewrite handleSelect_selected by done. by apply selected_well_typed.
  - rewrite handleSelect_selected by done. by apply keysOk_selected.
  - destruct Htimers as [-> | ->]; [done|].
    apply Forall_app. split; [done|]. by apply Forall_singleton.
  - by rewrite Hfetches.
  - by rewrite Hcur.
  - destruct Htimers as [-> | ->]; [done|].
    apply Forall_app. split; [done|]. by apply Forall_singleton.
Qed.

Lemma runFrom_shape past w acts w' :
  Forall shapeInvariant past -> shapeInvariant w ->
  runFrom past w acts = Some w' -> shapeInvariant w'.
Proof.
  revert past w. induction acts as [|[e|n v] acts IH]; intros past w Hpast Hw Hrun;
    simpl in Hrun.
  - by injection Hrun as <-.
  - destruct (step w e) as [w1|] eqn:E; [|done].
    eapply IH; [|by eapply step_shape|exact Hrun].
    apply Forall_app. split; [done|]. by apply Forall_singleton.
  - destruct (past !! n) as [w0|] eqn:En; [|done].
    destruct (render (state w)); try done.
    destruct (clickOptionOf (state w0) w v) as [w1|] eqn:E; [|done].
    eapply IH; [| |exact Hrun].
    + apply Forall_app. split; [done|]. by apply Forall_singleton.
    + eapply leaving_click_shape; [|exact Hw|exact E].
      by eapply Forall_lookup_1.
Qed.

Lemma runFrom_act past w es : runFrom past w (act <$> es) = run w es.
Proof.
  revert past w. induction es as [|e es IH]; intros past w; simpl; [done|].
  destruct (step w e); [apply IH|done].
Qed.

Lemma shape_initial : shapeInvariant initialWorld.
Proof.
  split; [by intros k a Hk|]. split.
  - split; [apply keysOk_empty|]. split; constructor.
  - split; [vm_compute; lia|constructor].
Qed.

End LeavingClicks.

(** X17. The shape of the answers and the range of the index hold also
    when the clicks on a question that is leaving the screen are counted
    in. After any sequence of events and of such clicks, by the handlers
    of any earlier render: the answers hold, under distinct ids of the
    catalog, one option of a single-select question or a duplicate-free
    array of options of a multi-select question; the same keys are in
    every posted body; the index, and the index held by every timer, is
    within the catalog, so that a question is there to be shown. The
    sequences of events alone are among these runs. *)
Theorem shape_kept_with_leaving_clicks (acts : list Action) (w : World) :
  runFrom [] initialWorld acts = Some w ->
  answersWellTyped (answers (state w))
  /\ NoDup (answers (state w)).*1
  /\ (forall k, k ∈ (answers (state w)).*1 -> k ∈ (id <$> QUESTIONS))
  /\ Forall (fun p => NoDup (req_body (request p)).*1
                      /\ (forall k, k ∈ (req_body (request p)).*1 -> k ∈ (id <$> QUESTIONS)))
       (fetches w)
  /\ (currentQuestion (state w) < length QUESTIONS)%nat
  /\ Forall (fun t => (cap_currentQuestion (callback t) < length QUESTIONS)%nat) (timers w)
  /\ render (state w) <> BrokenView
  /\ (forall es, runFrom [] initialWorld (act <$> es) = run initialWorld es).
Proof.
  intros Hrun.
  destruct (runFrom_shape [] initialWorld acts w (Forall_nil_2 _) shape_initial Hrun)
    as (Hwt & (Hkeys & _ & Hfet) & [Hidx Hcap]).
  split; [exact Hwt|]. split; [apply Hkeys|]. split; [apply Hkeys|].
  split; [eapply Forall_impl; [exact Hfet|]; intros p Hp; split; apply Hp|].
  split; [exact Hidx|]. split; [exact Hcap|].
  split; [|intros es; apply runFrom_act].
  unfold render. destruct (analysisResult (state w)); [done|].
  destruct (isAnalyzing (state w)); [done|].
  destruct (QUESTIONS !! currentQuestion (state w)) eqn:E; [done|].
  apply lookup_ge_None in E. lia.
Qed.

(** The first question is answered with "Maharashtra"; while it leaves
    the screen "Kerala" is clicked on it, and the timer of that click
    runs: the answer is "Kerala", the second question is on screen. *)
Lemma shape_kept_with_leaving_clicks_witness :
  exists w,
    runFrom [] initialWorld leavingClick = Some w
    /\ answers (state w) = <["location" := AString "Kerala"]> ∅
    /\ currentQuestion (state w) = 1%nat
    /\ answersWellTyped (answers (state w))
    /\ render (state w) <> BrokenView.
Proof.
  assert (exists w,
            runFrom [] initialWorld leavingClick = Some w
            /\ answers (state w) = <["location" := AString "Kerala"]> ∅
            /\ currentQuestion (state w) = 1%nat)
    as (w & Hrun & Hans & Hidx).
  { eexists. split; [vm_compute; reflexivity|]. split; vm_compute; reflexivity. }
  destruct (shape_kept_with_leaving_clicks _ _ Hrun) as (Hwt & _ & _ & _ & _ & _ & Hview & _).
  exists w. split; [exact Hrun|]. split; [exact Hans|]. split; [exact Hidx|].
  split; [exact Hwt|exact Hview].
Defined.

(** * Properties of the login page *)

(** ** The phone input *)

Section PhoneInput.

Import LoginPage.

Implicit Types (s raw : string) (n : nat).

Lemma removeNonDigits_digits s : allDigits (removeNonDigits s) = true.
Proof.
  induction s as [|c s IH]; [done|]. simpl. destruct (isDigit c) eqn:E; [|done].
  simpl. by rewrite E.
Qed.

Lemma removeNonDigits_id s : allDigits s = true -> removeNonDigits s = s.
Proof.
  induction s as [|c s IH]; [done|]. simpl.
  intros [-> Hs]%andb_true_iff. by rewrite IH.
Qed.

Lemma sliceFromStart_digits n s : allDigits s = true -> allDigits (sliceFromStart n s) = true.
Proof.
  revert s. induction n as [|n IH]; intros [|c s]; try done. simpl.
  intros [-> Hs]%andb_true_iff. by apply IH.
Qed.

Lemma sliceFromStart_length n s :
  String.length (sliceFromStart n s) = Nat.min n (String.length s).
Proof.
  revert s. induction n as [|n IH]; intros [|c s]; try done. simpl. by rewrite IH.
Qed.

Lemma sliceFromStart_id n s : (String.length s <= n)%nat -> sliceFromStart n s = s.
Proof.
  revert s. induction n as [|n IH]; intros [|c s]; simpl; try done; try lia.
  intros H. rewrite IH; [done|lia].
Qed.

Lemma sliceFromStart_prefix n s : exists rest, s = sliceFromStart n s +:+ rest.
Proof.
  revert s. induction n as [|n IH]; intros [|c s]; try by eexists.
  destruct (IH s) as [rest Hrest]. exists rest. simpl. rewrite app_cons. by f_equal.
Qed.

End PhoneInput.

(** X10. What the phone input stores for any typed or pasted text: only
    digits, at most ten of them, namely the first digits of the text in
    their order. Text that is already at most ten digits is stored as it
    is, and storing is idempotent. *)
Theorem phone_input_sanitized (raw : string) :
  allDigits (LoginPage.sanitizePhone raw) = true
  /\ (String.length (LoginPage.sanitizePhone raw) <= 10)%nat
  /\ (exists rest,
        LoginPage.removeNonDigits raw = LoginPage.sanitizePhone raw +:+ rest)
  /\ ((10 <= String.length (LoginPage.removeNonDigits raw))%nat ->
        String.length (LoginPage.sanitizePhone raw) = 10%nat)
  /\ (allDigits raw = true -> (String.length raw <= 10)%nat ->
        LoginPage.sanitizePhone raw = raw)
  /\ LoginPage.sanitizePhone (LoginPage.sanitizePhone raw) = LoginPage.sanitizePhone raw.
Proof.
  unfold LoginPage.sanitizePhone.
  assert (allDigits (LoginPage.sliceFromStart 10 (LoginPage.removeNonDigits raw)) = true)
    as Hd by apply sliceFromStart_digits, removeNonDigits_digits.
  assert (String.length (LoginPage.sliceFromStart 10 (LoginPage.removeNonDigits raw)) <= 10)%nat
    as Hl by (rewrite sliceFromStart_length; lia).
  split; [exact Hd|]. split; [exact Hl|].
  split; [apply sliceFromStart_prefix|].
  split; [intros H; rewrite sliceFromStart_length; lia|].
  split.
  - intros Hraw Hlen. rewrite removeNonDigits_id by done. by apply sliceFromStart_id.
  - rewrite (removeNonDigits_id _ Hd). by apply sliceFromStart_id.
Qed.

(** A pasted number with country code and blanks. *)
Lemma phone_input_sanitized_witness :
  LoginPage.sanitizePhone "+91 98765 43210" = "9198765432"
  /\ (10 <= String.length (LoginPage.removeNonDigits "+91 98765 43210"))%nat
  /\ String.length (LoginPage.sanitizePhone "+91 98765 43210") = 10%nat
  /\ allDigits "9876543210" = true
  /\ LoginPage.sanitizePhone "9876543210" = "9876543210".
Proof.
  destruct (phone_input_sanitized "+91 98765 43210") as (_ & _ & _ & H10 & _).
  destruct (phone_input_sanitized "9876543210") as (_ & _ & _ & _ & Hid & _).
  split; [reflexivity|].
  assert (10 <= String.length (LoginPage.removeNonDigits "+91 98765 43210"))%nat as Hlen
    by (vm_compute; lia).
  split; [exact Hlen|]. split; [exact (H10 Hlen)|]. split; [reflexivity|].
  apply Hid; [reflexivity|vm_compute; lia].
Defined.

(** ** Steps of the page *)

Section LoginSteps.

Import LoginPage.

Implicit Types (w : World) (e : Event) (es : list Event) (cells : list string).

Lemma string_length_app (a b : string) :
  String.length (a +:+ b) = (String.length a + String.length b)%nat.
Proof. induction a as [|c a IH]; [done|]. rewrite app_cons. simpl. by rewrite IH. Qed.

Lemma login_run_app w es1 es2 :
  run w (es1 ++ es2) = run w es1 ≫= fun w' => run w' es2.
Proof.
  revert w. induction es1 as [|e es1 IH]; intros w; simpl; [done|].
  destruct (next w e); [apply IH|done].
Qed.

Lemma login_run_snoc w es e w' :
  run w (es ++ [e]) = Some w' <-> exists w0, run w es = Some w0 /\ next w0 e = Some w'.
Proof.
  rewrite login_run_app. destruct (run w es) as [w0|]; simpl.
  - destruct (next w0 e) as [w1|] eqn:E; split.
    + intros [= <-]. eauto.
    + intros (? & [= <-] & H). congruence.
    + done.
    + intros (? & [= <-] & H). congruence.
  - split; [done|]. by intros (? & ? & _).
Qed.

(** Induction over the worlds the page can reach. *)
Lemma login_reachable_ind (P : World -> Prop) :
  P initialWorld ->
  (forall w e w', P w -> next w e = Some w' -> P w') ->
  forall es w, run initialWorld es = Some w -> P w.
Proof.
  intros H0 Hstep es. induction es as [|e es IH] using rev_ind; intros w Hrun.
  - by injection Hrun as <-.
  - apply login_run_snoc in Hrun as (w0 & Hrun & Hnext). eauto.
Qed.

(** *** The cells of the code *)

Lemma join_length cells :
  String.length (join cells) = foldr (fun c n => (String.length c + n)%nat) 0%nat cells.
Proof.
  induction cells as [|c cells IH]; [done|]. simpl. by rewrite string_length_app, IH.
Qed.

Lemma cells_sum_le cells :
  Forall (fun c => (String.length c <= 1)%nat) cells ->
  (foldr (fun c n => (String.length c + n)%nat) 0%nat cells <= length cells)%nat.
Proof. induction 1; simpl; lia. Qed.

Lemma cells_sum_full cells :
  Forall (fun c => (String.length c <= 1)%nat) cells ->
  foldr (fun c n => (String.length c + n)%nat) 0%nat cells = length cells ->
  Forall (fun c => String.length c = 1%nat) cells.
Proof.
  induction 1 as [|c cells Hc Hcs IH]; simpl; [constructor|].
  intros Hsum. pose proof (cells_sum_le _ Hcs). constructor; [lia|]. apply IH. lia.
Qed.

Lemma cells_sum_complete cells :
  Forall (fun c => String.length c = 1%nat) cells ->
  foldr (fun c n => (String.length c + n)%nat) 0%nat cells = length cells.
Proof. induction 1 as [|c cells Hc Hcs IH]; simpl; [done|]. lia. Qed.

Lemma join_complete cells :
  cellsOk cells -> (String.length (join cells) = 6%nat <-> otpComplete cells).
Proof.
  intros [Hlen Hcs]. rewrite join_length. split.
  - intros Hsum. split; [done|]. apply cells_sum_full; [done|]. by rewrite Hlen.
  - intros [_ Hfull]. by rewrite cells_sum_complete.
Qed.

Lemma every_filled cells :
  Forall (fun c => (String.length c <= 1)%nat) cells ->
  (forallb truthy cells = true <-> Forall (fun c => String.length c = 1%nat) cells).
Proof.
  induction 1 as [|c cells Hc Hcs IH]; simpl.
  - split; [constructor|done].
  - rewrite andb_true_iff, IH, Forall_cons. unfold truthy.
    destruct (String.length c) as [|[|n]]; simpl; [|tauto|lia].
    split; [by intros []|]. intros [? _]. lia.
Qed.

Lemma every_complete cells :
  cellsOk cells -> (forallb truthy cells = true <-> otpComplete cells).
Proof.
  intros [Hlen Hcs]. unfold otpComplete. rewrite every_filled by done. tauto.
Qed.

Lemma complete_cellsOk cells : otpComplete cells -> cellsOk cells.
Proof.
  intros [Hlen H]. split; [done|]. eapply Forall_impl; [exact H|]. simpl. lia.
Qed.

Lemma cellsOk_insert cells (i : nat) (v : string) :
  cellsOk cells -> (String.length v <= 1)%nat -> cellsOk (<[i := v]> cells).
Proof.
  intros [Hlen Hcs] Hv. split; [by rewrite length_insert|]. by apply Forall_insert.
Qed.

(** *** What one event does *)

Lemma handleOtpChange_state w (index : nat) (value : string) :
  (String.length value <= 1)%nat ->
  state (performAll w (handleOtpChange (state w) index value))
  = {| step := step (state w); phone := phone (state w);
       otp := <[index := value]> (otp (state w));
       loading := loading (state w); error := error (state w) |}.
Proof.
  intros Hv. unfold handleOtpChange. rewrite (proj2 (Nat.ltb_ge _ _) Hv).
  by destruct (truthy value && (index <? 5)%nat).
Qed.

Lemma next_Next w e w' : next w e = Some w' <-> Next w e w'.
Proof.
  split.
  - destruct e; simpl.
    + destruct (step (state w)) eqn:Hs; [|done..]. intros [= <-]. by constructor.
    + destruct (step (state w)) eqn:Hs; [|done..]. intros [= <-].
      unfold handlePhoneSubmit.
      destruct (String.length (phone (state w)) =? 10)%nat eqn:E; simpl.
      * apply phone_accepted; [done|]. by apply Nat.eqb_eq.
      * apply phone_rejected; [done|]. by apply Nat.eqb_neq.
    + destruct (step (state w)) eqn:Hs; [done| |done].
      destruct (index <? length (otp (state w)))%nat eqn:Hi; [|done].
      apply Nat.ltb_lt in Hi. intros [= <-].
      destruct (1 <? String.length value)%nat eqn:Hv.
      * unfold handleOtpChange. rewrite Hv. simpl.
        apply Nat.ltb_lt in Hv. destruct w. by apply cell_ignored.
      * pose proof Hv as Hv'. apply Nat.ltb_ge in Hv'.
        unfold otpEffect, handleOtpSubmit. rewrite handleOtpChange_state by done.
        cbn [otp step phone]. rewrite Hs.
        destruct (forallb truthy (<[index := value]> (otp (state w)))) eqn:Hall; simpl.
        -- destruct (String.length (join (<[index := value]> (otp (state w)))) =? 6)%nat
             eqn:E; simpl.
           ++ apply code_completed; try done. by apply Nat.eqb_eq.
           ++ apply code_miscounted; try done. by apply Nat.eqb_neq.
        -- by apply cell_typed.
    + destruct (step (state w)) eqn:Hs; [done| |done].
      destruct (index <? length (otp (state w)))%nat eqn:Hi; [|done].
      apply Nat.ltb_lt in Hi. intros [= <-]. by constructor.
    + destruct (step (state w)) eqn:Hs; [done| |done]. intros [= <-].
      unfold handleOtpSubmit.
      destruct (String.length (join (otp (state w))) =? 6)%nat eqn:E; simpl.
      * apply code_accepted; [done|]. by apply Nat.eqb_eq.
      * apply code_rejected; [done|]. by apply Nat.eqb_neq.
    + destruct (step (state w)) eqn:Hs; [done| |done]. intros [= <-]. by constructor.
    + destruct (timers w !! tid) as [t|] eqn:Ht; [|done].
      destruct (fired t) eqn:Hf; [done|]. simpl.
      destruct (due t <=? clock w)%nat eqn:Hd; [|done].
      apply Nat.leb_le in Hd. intros [= <-]. by constructor.
    + intros [= <-]. constructor.
  - intros H. destruct H; unfold next.
    + by rewrite H.
    + rewrite H. unfold handlePhoneSubmit. by rewrite (proj2 (Nat.eqb_neq _ _) H0).
    + rewrite H. unfold handlePhoneSubmit. by rewrite (proj2 (Nat.eqb_eq _ _) H0).
    + rewrite H. rewrite (proj2 (Nat.ltb_lt _ _) H0). unfold handleOtpChange.
      rewrite (proj2 (Nat.ltb_lt _ _) H1). by destruct w.
    + rewrite H, (proj2 (Nat.ltb_lt _ _) H0), (proj2 (Nat.ltb_ge _ _) H1).
      unfold otpEffect. rewrite handleOtpChange_state by done.
      cbn [otp step]. by rewrite H2.
    + rewrite H, (proj2 (Nat.ltb_lt _ _) H0), (proj2 (Nat.ltb_ge _ _) H1).
      unfold otpEffect, handleOtpSubmit. rewrite handleOtpChange_state by done.
      cbn [otp step phone]. by rewrite H2, H, (proj2 (Nat.eqb_eq _ _) H3).
    + rewrite H, (proj2 (Nat.ltb_lt _ _) H0), (proj2 (Nat.ltb_ge _ _) H1).
      unfold otpEffect, handleOtpSubmit. rewrite handleOtpChange_state by done.
      cbn [otp step phone]. by rewrite H2, H, (proj2 (Nat.eqb_neq _ _) H3).
    + rewrite H. by rewrite (proj2 (Nat.ltb_lt _ _) H0).
    + rewrite H. unfold handleOtpSubmit. by rewrite (proj2 (Nat.eqb_neq _ _) H0).
    + rewrite H. unfold handleOtpSubmit. by rewrite (proj2 (Nat.eqb_eq _ _) H0).
    + by rewrite H.
    + rewrite H, H0. simpl. by rewrite (proj2 (Nat.leb_le _ _) H1).
    + done.
Qed.

End LoginSteps.

Ltac otp_change Hv :=
  unfold LoginPage.handleOtpChange; rewrite (proj2 (Nat.ltb_ge _ _) Hv);
  destruct (LoginPage.truthy _ && (_ <? 5)%nat); simpl.

Section LoginInvariants.

Import LoginPage.

Implicit Types (w : World) (e : Event) (es : list Event) (cells : list string).

Lemma login_history_ind (P : list Event -> World -> Prop) :
  P [] initialWorld ->
  (forall es w e w',
     run initialWorld es = Some w -> P es w -> Next w e w' -> P (es ++ [e]) w') ->
  forall es w, run initialWorld es = Some w -> P es w.
Proof.
  intros H0 Hstep es. induction es as [|e es IH] using rev_ind; intros w Hrun.
  - by injection Hrun as <-.
  - apply login_run_snoc in Hrun as (w0 & Hrun & Hnext).
    apply next_Next in Hnext. eauto.
Qed.

Lemma once_now (P : World -> Prop) es w :
  run initialWorld es = Some w -> P w -> once P es.
Proof. intros Hrun HP. exists es, [], w. by rewrite app_nil_r. Qed.

Lemma once_later (P : World -> Prop) es es' : once P es -> once P (es ++ es').
Proof.
  intros (es1 & es2 & w0 & -> & Hrun & HP). exists es1, (es2 ++ es'), w0.
  by rewrite app_assoc.
Qed.

Lemma elem_of_marked (tid : nat) (ts : list Timer) (t' : Timer) :
  t' ∈ alter (fun t => {| due := due t; callback := callback t; fired := true |}) tid ts ->
  exists t, t ∈ ts /\ callback t = callback t' /\ due t = due t'.
Proof.
  intros (i & Hi)%list_elem_of_lookup_1. destruct (decide (i = tid)) as [->|Hne].
  - rewrite list_lookup_alter_eq in Hi. destruct (ts !! tid) as [t|] eqn:Ht; [|done].
    simpl in Hi.
    injection Hi as <-. exists t. split; [by eapply list_elem_of_lookup_2|]. by split.
  - rewrite list_lookup_alter_ne in Hi by done. exists t'.
    split; [by eapply list_elem_of_lookup_2|]. by split.
Qed.

(** *** What the page stores and passes on *)

Lemma sanitizePhone_ok raw : phoneOk (sanitizePhone raw).
Proof.
  split.
  - apply sliceFromStart_digits, removeNonDigits_digits.
  - unfold sanitizePhone. rewrite sliceFromStart_length. lia.
Qed.

Lemma next_dataOk w e w' : Next w e w' -> dataOk w -> dataOk w'.
Proof.
  intros HN (Hp & Hc & Ht & Hl).
  destruct HN as [raw Hs|Hs Hlen|Hs Hlen|i v Hs Hi Hv|i v Hs Hi Hv Hall
    |i v Hs Hi Hv Hall Hj|i v Hs Hi Hv Hall Hj|i key Hs Hi|Hs Hj|Hs Hj|Hs
    |tid t Hlk Hf Hd|ms].
  - split; [apply sanitizePhone_ok|done].
  - done.
  - split; [done|]. split; [done|]. split; [|done]. simpl.
    intros t p [Hin | ->%list_elem_of_singleton]%elem_of_app; [eauto|done].
  - done.
  - otp_change Hv; (split; [done|]); (split; [by apply cellsOk_insert|done]).
  - otp_change Hv; (split; [done|]); (split; [by apply cellsOk_insert|]);
      (split; [|done]);
      intros t p [Hin | ->%list_elem_of_singleton]%elem_of_app; eauto;
      by intros [= <-].
  - otp_change Hv; (split; [done|]); (split; [by apply cellsOk_insert|done]).
  - unfold handleOtpKeyDown. by destruct (_ && _ && _).
  - done.
  - split; [done|]. split; [done|]. split; [|done]. simpl.
    intros t p [Hin | ->%list_elem_of_singleton]%elem_of_app; [eauto|].
    by intros [= <-].
  - done.
  - assert (forall t' p, t' ∈ timers (markFired tid w) ->
                         callback t' = afterOtpDelay p -> phoneOk p) as Ht'.
    { simpl. intros t' p (t0 & Hin & Hcb & _)%elem_of_marked Hcb'.
      apply (Ht t0 p Hin). congruence. }
    destruct (callback t) as [|p|] eqn:Hcb; simpl.
    + done.
    + split; [done|]. split; [done|]. split.
      * intros t' q [Hin | ->%list_elem_of_singleton]%elem_of_app; [eauto|done].
      * intros u [Hin | ->%list_elem_of_singleton]%elem_of_app; [eauto|].
        exists p. split; [done|]. eapply Ht; [|exact Hcb]. by eapply list_elem_of_lookup_2.
    + done.
  - done.
Qed.

Lemma reachable_dataOk es w : run initialWorld es = Some w -> dataOk w.
Proof.
  revert es w. apply login_reachable_ind.
  - split; [by split; [|simpl; lia]|]. split.
    + split; [done|]. repeat constructor.
    + split; [intros t p Hin|intros u Hin]; by apply elem_of_nil in Hin.
  - intros w e w' Hw Hnext%next_Next. by eapply next_dataOk.
Qed.

End LoginInvariants.

(** X11. What the login page stores and passes on, whatever is typed,
    pasted or clicked and whenever the timers run: the phone number is at
    most ten digits, the code has six cells of at most one code unit each,
    and every call of [login] carries [+91] followed by at most ten digits,
    with [verified] set. *)
Theorem login_data_invariant (es : list LoginPage.Event) (w : LoginPage.World) :
  LoginPage.run LoginPage.initialWorld es = Some w ->
  LoginPage.phoneOk (LoginPage.phone (LoginPage.state w))
  /\ LoginPage.cellsOk (LoginPage.otp (LoginPage.state w))
  /\ Forall (fun u => exists p,
               u = {| LoginPage.user_phone := "+91" +:+ p; LoginPage.verified := true |}
               /\ LoginPage.phoneOk p)
       (LoginPage.logins w).
Proof.
  intros (Hp & Hc & _ & Hl)%reachable_dataOk. split; [done|]. split; [done|].
  by apply Forall_forall.
Qed.

(** Arithmetic on the two delays, with the delay kept abstract. *)
Ltac delay_lia :=
  simpl in *; change 3000%nat with (1500 + 1500)%nat in *;
  generalize dependent 1500%nat; intros; lia.

Section LoginHistory.

Import LoginPage.

Implicit Types (w : World) (e : Event) (es : list Event) (cells : list string).

(** *** Delays *)

Lemma next_timingOk w e w' : Next w e w' -> timingOk w -> timingOk w'.
Proof.
  intros HN (Hstep & Hotp & Hph & Hlog).
  destruct HN as [raw Hs|Hs Hlen|Hs Hlen|i v Hs Hi Hv|i v Hs Hi Hv Hall
    |i v Hs Hi Hv Hall Hj|i v Hs Hi Hv Hall Hj|i key Hs Hi|Hs Hj|Hs Hj|Hs
    |tid t Hlk Hf Hd|ms].
  - by split.
  - by split.
  - split; [exact Hstep|]. split; [|split; [|exact Hlog]]; simpl.
    + intros t p [Hin | ->%list_elem_of_singleton]%elem_of_app;
        [exact (Hotp _ _ Hin)|simpl; intros [=]].
    + intros t [Hin | ->%list_elem_of_singleton]%elem_of_app;
        [exact (Hph _ Hin)|intros _; delay_lia].
  - by split.
  - otp_change Hv; by split.
  - assert (1500 <= clock w)%nat as Hclock by (apply Hstep; congruence).
    otp_change Hv; (split; [exact Hstep|]); (split; [|split; [|exact Hlog]]).
    all: try (intros t p [Hin | ->%list_elem_of_singleton]%elem_of_app;
              [exact (Hotp _ _ Hin)|intros _; delay_lia]).
    all: intros t [Hin | ->%list_elem_of_singleton]%elem_of_app;
      [exact (Hph _ Hin)|simpl; intros [=]].
  - otp_change Hv; by split.
  - unfold handleOtpKeyDown. destruct (_ && _ && _); by split.
  - by split.
  - assert (1500 <= clock w)%nat as Hclock by (apply Hstep; congruence).
    split; [exact Hstep|]. split; [|split; [|exact Hlog]]; simpl.
    + intros t p [Hin | ->%list_elem_of_singleton]%elem_of_app;
        [exact (Hotp _ _ Hin)|intros _; delay_lia].
    + intros t [Hin | ->%list_elem_of_singleton]%elem_of_app;
        [exact (Hph _ Hin)|simpl; intros [=]].
  - split; [by intros []|]. split; [exact Hotp|]. split; [exact Hph|exact Hlog].
  - assert (t ∈ timers w) as Hin by (by eapply list_elem_of_lookup_2).
    assert (forall t' p, t' ∈ timers (markFired tid w) ->
                         callback t' = afterOtpDelay p -> 3000 <= due t')%nat as Hotp'.
    { simpl. intros t' p (t0 & Hin0 & Hcb & Hdue)%elem_of_marked Hcb'.
      rewrite <- Hdue. apply (Hotp t0 p Hin0). congruence. }
    assert (forall t', t' ∈ timers (markFired tid w) ->
                       callback t' = afterPhoneDelay -> 1500 <= due t')%nat as Hph'.
    { simpl. intros t' (t0 & Hin0 & Hcb & Hdue)%elem_of_marked Hcb'.
      rewrite <- Hdue. apply (Hph t0 Hin0). congruence. }
    destruct (callback t) as [|p|] eqn:Hcb; simpl.
    + specialize (Hph t Hin Hcb). split; [intros _; delay_lia|].
      split; [exact Hotp'|]. split; [exact Hph'|exact Hlog].
    + specialize (Hotp t p Hin Hcb). split; [intros _; delay_lia|]. split; [|split].
      * intros t' q [Hin' | ->%list_elem_of_singleton]%elem_of_app;
          [exact (Hotp' _ _ Hin')|simpl; intros [=]].
      * intros t' [Hin' | ->%list_elem_of_singleton]%elem_of_app;
          [exact (Hph' _ Hin')|simpl; intros [=]].
      * intros _. delay_lia.
    + split; [exact Hstep|]. split; [exact Hotp'|]. split; [exact Hph'|exact Hlog].
  - split; [intros H; specialize (Hstep H); delay_lia|]. split; [exact Hotp|].
    split; [exact Hph|]. intros H; specialize (Hlog H); delay_lia.
Qed.

Lemma reachable_timingOk es w : run initialWorld es = Some w -> timingOk w.
Proof.
  revert es w. apply login_reachable_ind.
  - split; [done|]. split; [intros t p Hin; by apply elem_of_nil in Hin|].
    split; [intros t Hin; by apply elem_of_nil in Hin|done].
  - intros w e w' Hw Hnext%next_Next. by eapply next_timingOk.
Qed.

(** *** What has gone before *)

Lemma timers_not_nil_snoc (ts : list Timer) (t : Timer) : ts ++ [t] <> [].
Proof. by destruct ts. Qed.

Lemma reachable_phoneHistory es w : run initialWorld es = Some w -> phoneHistory es w.
Proof.
  revert es w. apply login_history_ind.
  - intros [H|H]; done.
  - intros es w e w' Hrun IH HN.
    pose proof (reachable_dataOk _ _ Hrun) as ((Hdig & _) & _).
    assert (step (state w) <> phone_step \/ timers w <> [] ->
            once phoneEntered (es ++ [e])) as Hold
      by (intros H; apply once_later, IH, H).
    unfold phoneHistory.
    destruct HN as [raw Hs|Hs Hlen|Hs Hlen|i v Hs Hi Hv|i v Hs Hi Hv Hall
      |i v Hs Hi Hv Hall Hj|i v Hs Hi Hv Hall Hj|i key Hs Hi|Hs Hj|Hs Hj|Hs
      |tid t Hlk Hf Hd|ms].
    + done.
    + done.
    + intros _. apply once_later. by eapply once_now.
    + done.
    + intros _. apply Hold. left. congruence.
    + intros _. apply Hold. left. congruence.
    + intros _. apply Hold. left. congruence.
    + intros _. apply Hold. left. congruence.
    + done.
    + intros _. apply Hold. left. congruence.
    + intros _. apply Hold. left. congruence.
    + intros _. apply Hold. right. intros Hnil. by rewrite Hnil in Hlk.
    + done.
Qed.

Lemma reachable_codeHistory es w : run initialWorld es = Some w -> codeHistory es w.
Proof.
  revert es w. apply login_history_ind.
  - split; [intros t p Hin|intros u Hin]; by apply elem_of_nil in Hin.
  - intros es w e w' Hrun [IHt IHl] HN.
    pose proof (reachable_dataOk _ _ Hrun) as (_ & Hcells & _).
    assert (run initialWorld (es ++ [e]) = Some w') as Hrun'.
    { apply login_run_snoc. exists w. split; [done|]. by apply next_Next. }
    assert (forall t p, t ∈ timers w -> callback t = afterOtpDelay p ->
                        once (codeEntered p) (es ++ [e])) as Ht
      by (intros t p Hin Hcb; eapply once_later, IHt; eauto).
    assert (forall u, u ∈ logins w ->
              exists p, u = {| user_phone := "+91" +:+ p; verified := true |}
                        /\ once (codeEntered p) (es ++ [e])) as Hl.
    { intros u Hin. destruct (IHl u Hin) as (p & -> & Honce).
      exists p. split; [done|]. by apply once_later. }
    destruct HN as [raw Hs|Hs Hlen|Hs Hlen|i v Hs Hi Hv|i v Hs Hi Hv Hall
      |i v Hs Hi Hv Hall Hj|i v Hs Hi Hv Hall Hj|i key Hs Hi|Hs Hj|Hs Hj|Hs
      |tid t Hlk Hf Hd|ms].
    + done.
    + done.
    + split; [|done]. simpl.
      intros t p [Hin | ->%list_elem_of_singleton]%elem_of_app; [eauto|done].
    + done.
    + by otp_change Hv.
    + match goal with |- codeHistory _ ?W =>
        assert (codeEntered (phone (state w)) W) as Hnow;
        [|assert (forall t, t ∈ timers W ->
                    t ∈ timers w \/ callback t = afterOtpDelay (phone (state w))) as Hts]
      end.
      { unfold codeEntered.
        otp_change Hv; (split; [done|]); (split; [|done]);
          (apply every_complete; [by apply cellsOk_insert|done]). }
      { otp_change Hv; intros t [Hin | ->%list_elem_of_singleton]%elem_of_app;
          [by left|by right|by left|by right]. }
      split; [|otp_change Hv; exact Hl].
      intros t p Hin Hcb. destruct (Hts t Hin) as [Hold|Hnew].
      * by eapply Ht.
      * rewrite Hnew in Hcb. injection Hcb as <-. by eapply once_now.
    + by otp_change Hv.
    + unfold handleOtpKeyDown. by destruct (_ && _ && _).
    + done.
    + split; [|done]. simpl.
      intros t p [Hin | ->%list_elem_of_singleton]%elem_of_app; [eauto|].
      intros [= <-]. apply once_later. eapply once_now; [done|].
      split; [done|]. split; [|done]. by apply join_complete.
    + done.
    + assert (forall t' p, t' ∈ timers (markFired tid w) ->
                callback t' = afterOtpDelay p ->
                once (codeEntered p) (es ++ [timer_fires tid])) as Ht'.
      { simpl. intros t' p (t0 & Hin0 & Hcb & _)%elem_of_marked Hcb'.
        apply (Ht t0 p Hin0). congruence. }
      destruct (callback t) as [|p|] eqn:Hcb; simpl.
      * done.
      * split.
        -- intros t' q [Hin' | ->%list_elem_of_singleton]%elem_of_app; [eauto|done].
        -- intros u [Hin | ->%list_elem_of_singleton]%elem_of_app; [eauto|].
           exists p. split; [done|]. eapply Ht; [|exact Hcb].
           by eapply list_elem_of_lookup_2.
      * done.
    + done.
Qed.

Lemma logins_need_timers es w :
  run initialWorld es = Some w -> logins w <> [] -> timers w <> [].
Proof.
  revert es w.
  apply (login_reachable_ind (fun w => logins w <> [] -> timers w <> [])); [done|].
  intros w e w' IH HN%next_Next.
  destruct HN as [raw Hs|Hs Hlen|Hs Hlen|i v Hs Hi Hv|i v Hs Hi Hv Hall
    |i v Hs Hi Hv Hall Hj|i v Hs Hi Hv Hall Hj|i key Hs Hi|Hs Hj|Hs Hj|Hs
    |tid t Hlk Hf Hd|ms]; try done.
  - intros _. apply timers_not_nil_snoc.
  - by otp_change Hv.
  - intros _. otp_change Hv; apply timers_not_nil_snoc.
  - by otp_change Hv.
  - unfold handleOtpKeyDown. by destruct (_ && _ && _).
  - intros _. apply timers_not_nil_snoc.
  - intros _. destruct (callback t); simpl; try apply timers_not_nil_snoc.
    all: intros Hnil%(f_equal length); rewrite length_alter in Hnil;
      apply lookup_lt_Some in Hlk; simpl in Hnil; lia.
Qed.

End LoginHistory.

(** X12. [login] is called only for a code that was complete: every call
    carries [+91] and the number [p] that was on the page at a moment of
    the run when the code form showed six filled cells; at a moment of the
    run a number of exactly ten digits was on the phone form; and no call
    comes sooner than the two delays of 1500 ms. *)
Theorem login_needs_phone_and_code
  (es : list LoginPage.Event) (w : LoginPage.World) (u : LoginPage.UserData) :
  LoginPage.run LoginPage.initialWorld es = Some w ->
  u ∈ LoginPage.logins w ->
  (exists p, u = {| LoginPage.user_phone := "+91" +:+ p; LoginPage.verified := true |}
             /\ LoginPage.once (LoginPage.codeEntered p) es)
  /\ LoginPage.once LoginPage.phoneEntered es
  /\ (3000 <= LoginPage.clock w)%nat.
Proof.
  intros Hrun Hin.
  assert (LoginPage.logins w <> []) as Hne by (intros Hnil; rewrite Hnil in Hin;
                                                by apply elem_of_nil in Hin).
  split; [|split].
  - by apply (reachable_codeHistory _ _ Hrun).
  - apply (reachable_phoneHistory _ _ Hrun). right. by eapply logins_need_timers.
  - destruct (reachable_timingOk _ _ Hrun) as (_ & _ & _ & Hlog). exact (Hlog Hne).
Qed.

(** X15. The code form is shown only after a number of exactly ten digits
    was on the phone form, and not before the delay of 1500 ms is over. *)
Theorem code_step_needs_phone (es : list LoginPage.Event) (w : LoginPage.World) :
  LoginPage.run LoginPage.initialWorld es = Some w ->
  LoginPage.step (LoginPage.state w) <> LoginPage.phone_step ->
  LoginPage.once LoginPage.phoneEntered es /\ (1500 <= LoginPage.clock w)%nat.
Proof.
  intros Hrun Hstep. split.
  - apply (reachable_phoneHistory _ _ Hrun). by left.
  - destruct (reachable_timingOk _ _ Hrun) as (Hclock & _). exact (Hclock Hstep).
Qed.

Section LoginVerification.

Import LoginPage.

Implicit Types (w : World) (e : Event) (es : list Event) (cells : list string).

Lemma next_timer_kept w e w' (tid : nat) (t : Timer) :
  Next w e w' -> e <> timer_fires tid ->
  timers w !! tid = Some t -> timers w' !! tid = Some t.
Proof.
  intros HN Hne Ht.
  destruct HN as [raw Hs|Hs Hlen|Hs Hlen|i v Hs Hi Hv|i v Hs Hi Hv Hall
    |i v Hs Hi Hv Hall Hj|i v Hs Hi Hv Hall Hj|i key Hs Hi|Hs Hj|Hs Hj|Hs
    |tid' t' Hlk Hf Hd|ms]; try done.
  - by apply lookup_app_l_Some.
  - by otp_change Hv.
  - otp_change Hv; by apply lookup_app_l_Some.
  - by otp_change Hv.
  - unfold handleOtpKeyDown. by destruct (_ && _ && _).
  - by apply lookup_app_l_Some.
  - assert (timers (markFired tid' w) !! tid = Some t) as Ht'.
    { simpl. rewrite list_lookup_alter_ne; [done|]. congruence. }
    destruct (callback t'); simpl; try done; by apply lookup_app_l_Some.
Qed.

Lemma run_timer_waits w es w1 (tid : nat) (t : Timer) :
  run w es = Some w1 -> timer_fires tid ∉ es ->
  timers w !! tid = Some t -> timers w1 !! tid = Some t.
Proof.
  revert w. induction es as [|e es IH]; intros w Hrun Hnot Ht; simpl in Hrun.
  - by injection Hrun as <-.
  - destruct (next w e) as [w0|] eqn:Hnext; [|done].
    apply not_elem_of_cons in Hnot as [Hne Hnot].
    apply (IH w0 Hrun Hnot). apply next_Next in Hnext.
    eapply next_timer_kept; [exact Hnext|congruence|exact Ht].
Qed.

End LoginVerification.

(** X13. When the code form is submitted, or a cell of the code is typed
    in, the verification starts exactly if all six cells are then filled:
    one timer of 1500 ms is added, which holds the number on the page, the
    spinner is on and the error is cleared. Otherwise no timer is added
    and the spinner is as before; the submit sets the error message, the
    typing leaves the error as it was. Neither calls [login] or leaves the
    code form. *)
Theorem verification_starts_when_code_complete
  (es : list LoginPage.Event) (w w' : LoginPage.World) (e : LoginPage.Event) :
  LoginPage.run LoginPage.initialWorld es = Some w ->
  LoginPage.next w e = Some w' ->
  LoginPage.mayStartVerification e ->
  LoginPage.step (LoginPage.state w') = LoginPage.otp_step
  /\ LoginPage.phone (LoginPage.state w') = LoginPage.phone (LoginPage.state w)
  /\ LoginPage.logins w' = LoginPage.logins w
  /\ (LoginPage.otpComplete (LoginPage.otp (LoginPage.state w')) ->
        LoginPage.timers w'
        = LoginPage.timers w
          ++ [ LoginPage.verificationTimer (LoginPage.clock w)
                 (LoginPage.phone (LoginPage.state w)) ]
        /\ LoginPage.loading (LoginPage.state w') = true
        /\ LoginPage.error (LoginPage.state w') = EmptyString)
  /\ (~ LoginPage.otpComplete (LoginPage.otp (LoginPage.state w')) ->
        LoginPage.timers w' = LoginPage.timers w
        /\ LoginPage.loading (LoginPage.state w') = LoginPage.loading (LoginPage.state w)
        /\ LoginPage.error (LoginPage.state w')
           = match e with
             | LoginPage.submit_otp => "Please enter the complete 6-digit OTP"
             | _ => LoginPage.error (LoginPage.state w)
             end).
Proof.
  intros Hrun HN%next_Next Hmay.
  pose proof (reachable_dataOk _ _ Hrun) as (_ & Hcells & _).
  destruct Hmay as [-> | (i & v & -> & Hv)]; inversion HN; subst.
  - pose proof (proj1 (join_complete _ Hcells)) as Hjoin.
    simpl. split; [done|]. split; [done|]. split; [done|]. split; [|done].
    intros Hfull. exfalso. apply join_complete in Hfull; done.
  - pose proof (proj2 (join_complete _ Hcells)) as Hjoin.
    simpl. split; [done|]. split; [done|]. split; [done|]. split; [done|].
    intros Hnot. exfalso. apply Hnot. by apply join_complete.
  - lia.
  - assert (~ LoginPage.otpComplete (<[i := v]> (LoginPage.otp (LoginPage.state w))))
      as Hnot.
    { intros Hfull%every_complete; [congruence|by apply cellsOk_insert]. }
    otp_change Hv; (split; [done|]); (split; [done|]); (split; [done|]);
      (split; [done|]); done.
  - assert (LoginPage.otpComplete (<[i := v]> (LoginPage.otp (LoginPage.state w))))
      as Hfull by (apply every_complete; [by apply cellsOk_insert|done]).
    otp_change Hv; (split; [done|]); (split; [done|]); (split; [done|]);
      (split; [done|]); done.
  - exfalso.
    assert (LoginPage.otpComplete (<[i := v]> (LoginPage.otp (LoginPage.state w))))
      as Hfull by (apply every_complete; [by apply cellsOk_insert|done]).
    apply join_complete in Hfull; [done|by apply cellsOk_insert].
Qed.

(** X14. A verification that has started cannot be called off: whatever
    happens on the page before its timer runs (Resend, a new number, other
    cells, time), the timer stays as it was set, and when its 1500 ms are
    over it can run: it then calls [login] with the number it captured,
    not the number then on the page, and sets the timer of the redirect,
    2000 ms ahead. It runs once. *)
Theorem verification_cannot_be_cancelled
  (w w1 : LoginPage.World) (es : list LoginPage.Event) (tid now : nat) (p : string) :
  LoginPage.timers w !! tid = Some (LoginPage.verificationTimer now p) ->
  LoginPage.run w es = Some w1 ->
  LoginPage.timer_fires tid ∉ es ->
  LoginPage.timers w1 !! tid = Some (LoginPage.verificationTimer now p)
  /\ ((now + 1500 <= LoginPage.clock w1)%nat ->
      exists w2,
        LoginPage.next w1 (LoginPage.timer_fires tid) = Some w2
        /\ LoginPage.logins w2
           = LoginPage.logins w1
             ++ [ {| LoginPage.user_phone := "+91" +:+ p; LoginPage.verified := true |} ]
        /\ LoginPage.timers w2
           = LoginPage.timers (LoginPage.markFired tid w1)
             ++ [ {| LoginPage.due := LoginPage.clock w1 + 2000;
                     LoginPage.callback := LoginPage.redirectHome;
                     LoginPage.fired := false |} ]
        /\ LoginPage.next w2 (LoginPage.timer_fires tid) = None).
Proof.
  intros Ht Hrun Hnot.
  pose proof (run_timer_waits _ _ _ _ _ Hrun Hnot Ht) as Ht1.
  split; [exact Ht1|]. intros Hdue. eexists. split.
  { unfold LoginPage.next. rewrite Ht1. cbn [LoginPage.fired LoginPage.due
      LoginPage.callback LoginPage.verificationTimer negb andb].
    rewrite (proj2 (Nat.leb_le _ _) Hdue). reflexivity. }
  cbn [LoginPage.resume LoginPage.callback LoginPage.verificationTimer].
  split; [reflexivity|]. split; [reflexivity|].
  unfold LoginPage.next.
  match goal with |- context [LoginPage.timers ?W !! tid] =>
    assert (LoginPage.timers W !! tid
            = Some {| LoginPage.due := now + 1500;
                      LoginPage.callback := LoginPage.afterOtpDelay p;
                      LoginPage.fired := true |}) as Hfired
  end.
  { simpl. apply lookup_app_l_Some. by rewrite list_lookup_alter_eq, Ht1. }
  by rewrite Hfired.
Qed.

Section LoginFocus.

Import LoginPage.

Implicit Types (w : World) (e : Event) (es : list Event) (cells : list string).

Lemma truthy_not_empty (s : string) : truthy s = true <-> s <> EmptyString.
Proof. by destruct s. Qed.

(** The cell on which an event calls [focus], if any. *)
Lemma next_focused w e w' :
  Next w e w' ->
  focused w' = focused w
  \/ (exists i v, e = type_otp i v /\ v <> EmptyString /\ (String.length v <= 1)%nat
                  /\ (i < 5)%nat /\ focused w' = focused w ++ [ (i + 1)%nat ])
  \/ (exists i, e = keydown_otp i "Backspace" /\ otp (state w) !! i = Some EmptyString
                /\ (0 < i < length (otp (state w)))%nat
                /\ focused w' = focused w ++ [ (i - 1)%nat ]).
Proof.
  intros HN.
  destruct HN as [raw Hs|Hs Hlen|Hs Hlen|i v Hs Hi Hv|i v Hs Hi Hv Hall
    |i v Hs Hi Hv Hall Hj|i v Hs Hi Hv Hall Hj|i key Hs Hi|Hs Hj|Hs Hj|Hs
    |tid t Hlk Hf Hd|ms]; try (by left).
  - unfold handleOtpChange. rewrite (proj2 (Nat.ltb_ge _ _) Hv).
    destruct (truthy v && (i <? 5)%nat) eqn:E; [|by left].
    apply andb_true_iff in E as [Hv'%truthy_not_empty Hi'%Nat.ltb_lt].
    right. left. by exists i, v.
  - unfold handleOtpChange. rewrite (proj2 (Nat.ltb_ge _ _) Hv).
    destruct (truthy v && (i <? 5)%nat) eqn:E; [|by left].
    apply andb_true_iff in E as [Hv'%truthy_not_empty Hi'%Nat.ltb_lt].
    right. left. by exists i, v.
  - unfold handleOtpChange. rewrite (proj2 (Nat.ltb_ge _ _) Hv).
    destruct (truthy v && (i <? 5)%nat) eqn:E; [|by left].
    apply andb_true_iff in E as [Hv'%truthy_not_empty Hi'%Nat.ltb_lt].
    right. left. by exists i, v.
  - unfold handleOtpKeyDown.
    destruct (bool_decide (key = "Backspace")
              && negb (truthy (default EmptyString (otp (state w) !! i)))
              && (0 <? i)%nat) eqn:E; [|by left].
    apply andb_true_iff in E as [[Hkey%bool_decide_eq_true Hcell]%andb_true_iff Hpos%Nat.ltb_lt].
    right. right. exists i. subst key. split; [done|].
    destruct (lookup_lt_is_Some_2 _ _ Hi) as [c Hc]. rewrite Hc in Hcell |- *.
    simpl in Hcell. destruct c; [|done]. by repeat split.
  - destruct (callback t); by left.
Qed.

End LoginFocus.

(** X16. The calls of [focus] that the page makes. [handleOtpChange] and
    [handleOtpKeyDown] are the only handlers that call it, and they call
    it on one of the six cells only, so that the reference is never
    missing for want of a cell: typing a code unit in one of the first
    five cells calls it on the next cell, Backspace in an empty cell
    other than the first calls it on the cell before, and no other event
    calls it. (The focus that [autoFocus] gives to the phone input and to
    the first cell when their form is mounted is not such a call.) *)
Theorem focus_calls_stay_in_cells (es : list LoginPage.Event) (w : LoginPage.World) :
  LoginPage.run LoginPage.initialWorld es = Some w ->
  Forall (fun i => (i < 6)%nat) (LoginPage.focused w)
  /\ forall e w', LoginPage.next w e = Some w' ->
       LoginPage.focused w' = LoginPage.focused w
       \/ (exists i v, e = LoginPage.type_otp i v /\ v <> EmptyString
                       /\ (String.length v <= 1)%nat /\ (i < 5)%nat
                       /\ LoginPage.focused w' = LoginPage.focused w ++ [ (i + 1)%nat ])
       \/ (exists i, e = LoginPage.keydown_otp i "Backspace"
                     /\ LoginPage.otp (LoginPage.state w) !! i = Some EmptyString
                     /\ (0 < i < 6)%nat
                     /\ LoginPage.focused w' = LoginPage.focused w ++ [ (i - 1)%nat ]).
Proof.
  intros Hrun. split.
  - revert es w Hrun.
    apply (login_history_ind
             (fun _ w => Forall (fun i => (i < 6)%nat) (LoginPage.focused w))).
    + constructor.
    + intros es w e w' Hrun IH HN.
      pose proof (reachable_dataOk _ _ Hrun) as (_ & [Hlen _] & _).
      destruct (next_focused _ _ _ HN)
        as [-> | [(i & v & _ & _ & _ & Hi & ->) | (i & _ & Hcell & Hi & ->)]].
      * exact IH.
      * apply Forall_app. split; [exact IH|]. apply Forall_singleton. lia.
      * apply Forall_app. split; [exact IH|]. apply Forall_singleton. lia.
  - intros e w' HN%next_Next.
    pose proof (reachable_dataOk _ _ Hrun) as (_ & [Hlen _] & _).
    destruct (next_focused _ _ _ HN) as [H | [H | (i & He & Hcell & Hi & Hf)]];
      [by left|by right; left|].
    right. right. exists i. rewrite Hlen in Hi. done.
Qed.

(** The six cells are typed in turn: [focus] is called on the second to
    the sixth cell. *)
Lemma focus_calls_stay_in_cells_witness :
  exists w,
    LoginPage.run LoginPage.initialWorld (LoginPage.enterPhone ++ LoginPage.enterCode)
    = Some w
    /\ LoginPage.focused w = [ 1; 2; 3; 4; 5 ]%nat
    /\ Forall (fun i => (i < 6)%nat) (LoginPage.focused w).
Proof.
  assert (exists w,
            LoginPage.run LoginPage.initialWorld
              (LoginPage.enterPhone ++ LoginPage.enterCode) = Some w
            /\ LoginPage.focused w = [ 1; 2; 3; 4; 5 ]%nat)
    as (w & Hrun & Hfocus).
  { eexists. split; vm_compute; reflexivity. }
  exists w. split; [exact Hrun|]. split; [exact Hfocus|].
  exact (proj1 (focus_calls_stay_in_cells _ _ Hrun)).
Defined.

(** ** Scenarios of the login page *)

(** The number is cut down to three digits while the delay of the phone
    form runs: the code form is shown all the same, and [login] gets the
    three digits. *)
Lemma login_data_invariant_witness :
  exists w,
    LoginPage.run LoginPage.initialWorld LoginPage.editedWhileWaiting = Some w
    /\ LoginPage.logins w
       = [ {| LoginPage.user_phone := "+91987"; LoginPage.verified := true |} ]
    /\ LoginPage.phoneOk (LoginPage.phone (LoginPage.state w))
    /\ LoginPage.cellsOk (LoginPage.otp (LoginPage.state w))
    /\ Forall (fun u => exists p,
                 u = {| LoginPage.user_phone := "+91" +:+ p; LoginPage.verified := true |}
                 /\ LoginPage.phoneOk p)
         (LoginPage.logins w).
Proof.
  assert (exists w,
            LoginPage.run LoginPage.initialWorld LoginPage.editedWhileWaiting = Some w
            /\ LoginPage.logins w
               = [ {| LoginPage.user_phone := "+91987"; LoginPage.verified := true |} ])
    as (w & Hrun & Hlogins).
  { eexists. split; vm_compute; reflexivity. }
  exists w. split; [exact Hrun|]. split; [exact Hlogins|].
  exact (login_data_invariant _ _ Hrun).
Defined.

(** The whole login: one call, for the number as it was stored. *)
Lemma login_needs_phone_and_code_witness :
  exists w u,
    LoginPage.run LoginPage.initialWorld LoginPage.fullLogin = Some w
    /\ u = {| LoginPage.user_phone := "+919876543210"; LoginPage.verified := true |}
    /\ u ∈ LoginPage.logins w
    /\ (exists p, u = {| LoginPage.user_phone := "+91" +:+ p; LoginPage.verified := true |}
                  /\ LoginPage.once (LoginPage.codeEntered p) LoginPage.fullLogin)
    /\ LoginPage.once LoginPage.phoneEntered LoginPage.fullLogin
    /\ (3000 <= LoginPage.clock w)%nat.
Proof.
  assert (exists w,
            LoginPage.run LoginPage.initialWorld LoginPage.fullLogin = Some w
            /\ LoginPage.logins w
               = [ {| LoginPage.user_phone := "+919876543210"; LoginPage.verified := true |} ])
    as (w & Hrun & Hlogins).
  { eexists. split; vm_compute; reflexivity. }
  assert ({| LoginPage.user_phone := "+919876543210"; LoginPage.verified := true |}
          ∈ LoginPage.logins w) as Hin
    by (rewrite Hlogins; apply list_elem_of_singleton; reflexivity).
  exists w, {| LoginPage.user_phone := "+919876543210"; LoginPage.verified := true |}.
  split; [exact Hrun|]. split; [reflexivity|]. split; [exact Hin|].
  exact (login_needs_phone_and_code _ _ _ Hrun Hin).
Defined.

(** After the number is accepted the code form is shown, at 1500 ms. *)
Lemma code_step_needs_phone_witness :
  exists w,
    LoginPage.run LoginPage.initialWorld LoginPage.enterPhone = Some w
    /\ LoginPage.step (LoginPage.state w) = LoginPage.otp_step
    /\ LoginPage.once LoginPage.phoneEntered LoginPage.enterPhone
    /\ (1500 <= LoginPage.clock w)%nat.
Proof.
  assert (exists w,
            LoginPage.run LoginPage.initialWorld LoginPage.enterPhone = Some w
            /\ LoginPage.step (LoginPage.state w) = LoginPage.otp_step)
    as (w & Hrun & Hstep).
  { eexists. split; vm_compute; reflexivity. }
  exists w. split; [exact Hrun|]. split; [exact Hstep|].
  apply (code_step_needs_phone _ _ Hrun). rewrite Hstep. discriminate.
Defined.

(** The sixth cell is typed: the verification starts. *)
Lemma verification_starts_when_code_complete_witness :
  exists w w',
    LoginPage.run LoginPage.initialWorld (LoginPage.enterPhone ++ LoginPage.enterFiveCells)
    = Some w
    /\ LoginPage.next w (LoginPage.type_otp 5 "6") = Some w'
    /\ LoginPage.otpComplete (LoginPage.otp (LoginPage.state w'))
    /\ LoginPage.timers w'
       = LoginPage.timers w ++ [ LoginPage.verificationTimer 1500 "9876543210" ]
    /\ LoginPage.loading (LoginPage.state w') = true.
Proof.
  assert (exists w w',
            LoginPage.run LoginPage.initialWorld
              (LoginPage.enterPhone ++ LoginPage.enterFiveCells) = Some w
            /\ LoginPage.next w (LoginPage.type_otp 5 "6") = Some w'
            /\ LoginPage.otp (LoginPage.state w') = [ "4"; "8"; "1"; "5"; "1"; "6" ]
            /\ LoginPage.clock w = 1500%nat
            /\ LoginPage.phone (LoginPage.state w) = "9876543210")
    as (w & w' & Hrun & Hnext & Hotp & Hclock & Hphone).
  { eexists _, _. split; [vm_compute; reflexivity|]. split; [vm_compute; reflexivity|].
    split; [vm_compute; reflexivity|]. split; vm_compute; reflexivity. }
  assert (LoginPage.mayStartVerification (LoginPage.type_otp 5 "6")) as Hmay.
  { right. exists 5%nat, "6". split; [reflexivity|simpl; lia]. }
  assert (LoginPage.otpComplete (LoginPage.otp (LoginPage.state w'))) as Hfull.
  { rewrite Hotp. split; [reflexivity|]. repeat constructor. }
  destruct (verification_starts_when_code_complete _ _ _ _ Hrun Hnext Hmay)
    as (_ & _ & _ & Hstart & _).
  destruct (Hstart Hfull) as (Htimers & Hloading & _).
  exists w, w'. split; [exact Hrun|]. split; [exact Hnext|]. split; [exact Hfull|].
  split; [|exact Hloading]. rewrite Htimers, Hclock, Hphone. reflexivity.
Defined.

(** The code is complete for 9876543210; then Resend, and the number on
    the page becomes 123. The timer runs all the same, [login] gets
    9876543210, and the timer cannot run again. *)
Lemma verification_cannot_be_cancelled_witness :
  exists w w1 w2,
    LoginPage.run LoginPage.initialWorld (LoginPage.enterPhone ++ LoginPage.enterCode)
    = Some w
    /\ LoginPage.run w LoginPage.resendAfterCode = Some w1
    /\ LoginPage.step (LoginPage.state w1) = LoginPage.phone_step
    /\ LoginPage.phone (LoginPage.state w1) = "123"
    /\ LoginPage.next w1 (LoginPage.timer_fires 1) = Some w2
    /\ LoginPage.logins w2
       = LoginPage.logins w1
         ++ [ {| LoginPage.user_phone := "+919876543210"; LoginPage.verified := true |} ]
    /\ LoginPage.next w2 (LoginPage.timer_fires 1) = None.
Proof.
  assert (exists w w1,
            LoginPage.run LoginPage.initialWorld
              (LoginPage.enterPhone ++ LoginPage.enterCode) = Some w
            /\ LoginPage.run w LoginPage.resendAfterCode = Some w1
            /\ LoginPage.timers w !! 1%nat
               = Some (LoginPage.verificationTimer 1500 "9876543210")
            /\ LoginPage.step (LoginPage.state w1) = LoginPage.phone_step
            /\ LoginPage.phone (LoginPage.state w1) = "123"
            /\ (1500 + 1500 <=? LoginPage.clock w1)%nat = true)
    as (w & w1 & Hrun & Hrun1 & Ht & Hstep & Hphone & Hclock).
  { eexists _, _. split; [vm_compute; reflexivity|]. split; [vm_compute; reflexivity|].
    split; [vm_compute; reflexivity|]. split; [vm_compute; reflexivity|].
    split; vm_compute; reflexivity. }
  assert (LoginPage.timer_fires 1 ∉ LoginPage.resendAfterCode) as Hnot.
  { unfold LoginPage.resendAfterCode. intros H.
    repeat (apply elem_of_cons in H as [H|H]; [discriminate H|]).
    by apply elem_of_nil in H. }
  destruct (verification_cannot_be_cancelled _ _ _ _ _ _ Ht Hrun1 Hnot) as (_ & Hfire).
  destruct (Hfire (proj1 (Nat.leb_le _ _) Hclock))
    as (w2 & Hnext & Hlogins & _ & Honce).
  exists w, w1, w2. split; [exact Hrun|]. split; [exact Hrun1|]. split; [exact Hstep|].
  split; [exact Hphone|]. split; [exact Hnext|]. split; [exact Hlogins|exact Honce].
Defined.
